(** * CS633 assignment: domain decomposition, halo exchange and extrema search

    A shallow embedding of the four C/MPI programs of the repository

      - [SrcC]     sainikhil_code/src.c
      - [OneC]     Venkatesh/1.c
      - [PankajC]  Pankaj/pankaj_code.c
      - [Pankaj2C] Pankaj/pankaj_code2.c

    and the properties of the design document checked against them.

    Conventions of the embedding.

    - A C [int] is a [Z].  Division and remainder are C's (truncating):
      [Z.quot] and [Z.rem].  Signed overflow is undefined in C, so no
      wrap-around is written: the model describes the runs in which no
      [int] overflows.
    - A [float] or [double] field value is a [Z]: the programs only read,
      copy and compare field values, and an integer-valued float compares
      exactly as the integer it denotes.  [FLT_MAX] and [DBL_MAX] are the
      integers these macros denote.
    - A buffer ([float *], [double *], [int *]) is a total function from
      indices to values, written by [upd]; [float **] and [float ***] are
      functions of two and three indices.  A read outside an allocation is
      undefined in C; the statements below keep the reads they depend on
      in range, or hold whatever such a read returns.
    - A [for] loop is [for_range lo hi body], the loop variable running over
      lo, lo+1, ..., hi-1 and the loop state threaded through [body].
    - MPI collectives and the Cartesian topology are modelled by their
      meaning in the MPI standard, on the family of all workers' values. *)

From Stdlib Require Import String ZArith List Lia Bool.
Import ListNotations.
Local Open Scope Z_scope.

(** ** Loops and buffers *)

Section Loops.
Context {A : Type}.

(** [n] iterations starting at loop index [i]. *)
Fixpoint for_up (n : nat) (i : Z) (body : Z -> A -> A) (a : A) : A :=
  match n with
  | O => a
  | S n' => for_up n' (i + 1) body (body i a)
  end.

(** [for (i = lo; i < hi; i++) a = body i a;] *)
Definition for_range (lo hi : Z) (body : Z -> A -> A) (a : A) : A :=
  for_up (Z.to_nat (hi - lo)) lo body a.
End Loops.

(** A buffer and a store into it. *)
Definition buf := Z -> Z.

Definition upd (b : buf) (i v : Z) : buf :=
  fun j => if j =? i then v else b j.

(** The buffer holding the elements of a list, for writing inputs down. *)
Definition of_list (l : list Z) : buf :=
  fun i => if i <? 0 then 0 else nth (Z.to_nat i) l 0.

(** The first [n] cells of a buffer, for reading results off. *)
Definition to_list (b : buf) (n : Z) : list Z :=
  map (fun k => b (Z.of_nat k)) (seq 0 (Z.to_nat n)).

(** [memcpy(dst + doff, src + soff, n * sizeof *dst)] *)
Definition memcpy (dst : buf) (doff : Z) (src : buf) (soff n : Z) : buf :=
  fun j => if (doff <=? j) && (j <? doff + n)
           then src (soff + (j - doff)) else dst j.

(** An array of rows ([float **]) and the replacement of one row. *)
Definition rows := Z -> buf.

Definition upd_row (a : rows) (i : Z) (r : buf) : rows :=
  fun i' => if i' =? i then r else a i'.

(** Memory as [malloc] returns it.  Its content is indeterminate; where a
    program reads such a cell the buffer is modelled with optional cells
    instead (see [obuf] and [OneC.sends_to]). *)
Definition fresh : buf := fun _ => 0.
Definition fresh_rows : rows := fun _ => fresh.

(** A buffer some of whose cells were never written: [None] is a cell of
    indeterminate content. *)
Definition obuf := Z -> option Z.

Definition oupd (b : obuf) (i v : Z) : obuf :=
  fun j => if j =? i then Some v else b j.

Definition uninit : obuf := fun _ => None.

Definition oto_list (b : obuf) (n : Z) : list (option Z) :=
  map (fun k => b (Z.of_nat k)) (seq 0 (Z.to_nat n)).

(** The cells of a received message stored at the start of a buffer. *)
Definition ostore (msg : list (option Z)) (buffer : obuf) : obuf :=
  fun j => if (0 <=? j) && (j <? Z.of_nat (length msg))
           then nth (Z.to_nat j) msg None else buffer j.

(** [MPI_Recv] of [count] elements into [buffer], matched by a send of the
    cells [msg].  [None]: the message is longer than the receive, an error
    that aborts the run. *)
Definition mpi_recv (msg : list Z) (count : Z) (buffer : buf) : option buf :=
  if Z.of_nat (length msg) <=? count
  then Some (fun j => if (0 <=? j) && (j <? Z.of_nat (length msg))
                      then nth (Z.to_nat j) msg 0 else buffer j)
  else None.

(** [MPI_Reduce] / [MPI_Allreduce] of one value per worker, the workers'
    contributions listed by rank. *)
Definition reduce_sum (vals : list Z) : Z := fold_left Z.add vals 0.

Definition reduce_min (vals : list Z) : Z :=
  match vals with
  | [] => 0
  | v :: rest => fold_left Z.min rest v
  end.

Definition reduce_max (vals : list Z) : Z :=
  match vals with
  | [] => 0
  | v :: rest => fold_left Z.max rest v
  end.

(** The contributions of all workers, when every one of them has one. *)
Fixpoint all_some {A : Type} (l : list (option A)) : option (list A) :=
  match l with
  | [] => Some []
  | Some a :: rest =>
      match all_some rest with Some r => Some (a :: r) | None => None end
  | None :: _ => None
  end.

(** The ranks [0, 1, ..., size - 1] of a communicator. *)
Definition ranks (size : Z) : list Z :=
  map Z.of_nat (seq 0 (Z.to_nat size)).

(** [<float.h>]: the largest finite single and double precision values. *)
Definition FLT_MAX : Z := 2 ^ 128 - 2 ^ 104.
Definition DBL_MAX : Z := 2 ^ 1024 - 2 ^ 971.

(** ** sainikhil_code/src.c *)

Module SrcC.

(** [typedef struct { int start; int end; int size; } Range;]
    ([end] is the last owned index, inclusive). *)
Record Range := mkRange { start : Z; end_ : Z; size : Z }.

(** [Range get_range(int rank, int total, int size)] *)
Definition get_range (rank total size0 : Z) : Range :=
  let base := Z.quot size0 total in
  let remainder := Z.rem size0 total in
  let start :=
    for_range 0 rank
      (fun i start => start + (base + (if i <? remainder then 1 else 0))) 0 in
  let local_size := base + (if rank <? remainder then 1 else 0) in
  mkRange start (start + local_size - 1) local_size.

(** *** Start-up checks of [main] (lines 32-52) *)

(** How [main] leaves its start-up checks on one worker: it has returned
    with an exit code, having written the given lines to [stderr], or it
    goes on to create the topology and move data. *)
Inductive startup_result :=
| Returned (code : Z) (stderr : list string)
| Proceeds.

Definition startup (argv0 : string) (argc PX PY PZ size0 rank : Z)
  : startup_result :=
  if negb (argc =? 10) then
    Returned 1
      (if rank =? 0
       then [("Usage: " ++ argv0
              ++ " dataset PX PY PZ NX NY NZ NC output")%string]
       else [])
  else if negb (PX * PY * PZ =? size0) then
    Returned 1
      (if rank =? 0
       then ["Error: PX*PY*PZ must equal the number of processes"%string]
       else [])
  else Proceeds.

(** *** The Cartesian communicator

    [MPI_Cart_create(MPI_COMM_WORLD, 3, {PX, PY, PZ}, {0, 0, 0}, 0, ...)]:
    no reordering, no periodicity.  The MPI standard numbers the workers in
    row-major order of their coordinates, the last coordinate fastest. *)

Definition cart_coords (PY PZ rank : Z) : Z * Z * Z :=
  (Z.quot rank (PY * PZ), Z.rem (Z.quot rank PZ) PY, Z.rem rank PZ).

Definition cart_rank (PY PZ : Z) (c : Z * Z * Z) : Z :=
  let '(cx, cy, cz) := c in (cx * PY + cy) * PZ + cz.

(** [MPI_Cart_shift(cart_comm, 0, 1, &left, &right)] and its two siblings;
    [None] is [MPI_PROC_NULL]. *)
Definition cart_shift (PX PY PZ rank dim : Z) : option Z * option Z :=
  let '(cx, cy, cz) := cart_coords PY PZ rank in
  let along (c extent : Z) (mk : Z -> Z * Z * Z) :=
    ((if 0 <=? c - 1 then Some (cart_rank PY PZ (mk (c - 1))) else None),
     (if c + 1 <? extent then Some (cart_rank PY PZ (mk (c + 1))) else None))
  in
  if dim =? 0 then along cx PX (fun c => (c, cy, cz))
  else if dim =? 1 then along cy PY (fun c => (cx, c, cz))
  else along cz PZ (fun c => (cx, cy, c)).

(** The run-time parameters of [main]. *)
Record Config := mkConfig {
  PX : Z; PY : Z; PZ : Z;
  NX : Z; NY : Z; NZ : Z;
  NC : Z;
  nprocs : Z  (* [size] of [MPI_COMM_WORLD] *)
}.

(** The three ranges a worker computes for itself (lines 59-71). *)
Definition x_range (c : Config) (rank : Z) : Range :=
  let '(px, _, _) := cart_coords (PY c) (PZ c) rank in
  get_range px (PX c) (NX c).

Definition y_range (c : Config) (rank : Z) : Range :=
  let '(_, py, _) := cart_coords (PY c) (PZ c) rank in
  get_range py (PY c) (NY c).

Definition z_range (c : Config) (rank : Z) : Range :=
  let '(_, _, pz) := cart_coords (PY c) (PZ c) rank in
  get_range pz (PZ c) (NZ c).

Definition x_local (c : Config) (rank : Z) : Z := size (x_range c rank).
Definition y_local (c : Config) (rank : Z) : Z := size (y_range c rank).
Definition z_local (c : Config) (rank : Z) : Z := size (z_range c rank).

Definition local_points (c : Config) (rank : Z) : Z :=
  x_local c rank * y_local c rank * z_local c rank.

(** *** Distribution (lines 79-141) *)

(** The buffer the coordinating worker packs for worker [p]
    (lines 103-119): the points of its block, z outermost and x innermost,
    each with its [NC] values. *)
Definition pack (c : Config) (global_data : rows) (p : Z) : buf :=
  let pxr := x_range c p in
  let pyr := y_range c p in
  let pzr := z_range c p in
  fst (for_range (start pzr) (end_ pzr + 1) (fun z =>
       for_range (start pyr) (end_ pyr + 1) (fun y =>
       for_range (start pxr) (end_ pxr + 1) (fun x '(buffer, idx) =>
         let gidx := z * (NX c * NY c) + y * NX c + x in
         (memcpy buffer (idx * NC c) (global_data gidx) 0 (NC c), idx + 1))))
       (fresh, 0)).

(** [for (i = 0; i < n; i++) memcpy(local_data[i], buffer + i * NC, ...)] *)
Definition unpack (NC0 n : Z) (buffer : buf) (local_data : rows) : rows :=
  for_range 0 n
    (fun i local_data =>
       upd_row local_data i (memcpy (local_data i) 0 buffer (i * NC0) NC0))
    local_data.

(** [local_data] of worker [rank] after the distribution phase.  The
    coordinating worker copies its own block; every other worker receives
    [local_points * NC] floats from the one send of [psize * NC] floats
    addressed to it.  [None]: the message is longer than the receive. *)
Definition distribute (c : Config) (global_data : rows) (rank : Z)
  : option rows :=
  let psize :=
    size (x_range c rank) * size (y_range c rank) * size (z_range c rank) in
  let buffer := pack c global_data rank in
  if rank =? 0 then
    Some (unpack (NC c) psize buffer fresh_rows)
  else
    match mpi_recv (to_list buffer (psize * NC c))
                   (local_points c rank * NC c) fresh with
    | Some buffer' =>
        Some (unpack (NC c) (local_points c rank) buffer' fresh_rows)
    | None => None
    end.

(** *** One timestep: the halo block (lines 150-179) *)

Definition halo3 := Z -> Z -> Z -> Z.

Definition upd3 (h : halo3) (i j k v : Z) : halo3 :=
  fun i' j' k' =>
    if (i' =? i) && (j' =? j) && (k' =? k) then v else h i' j' k'.

(** [sub_data], the values of timestep [t] (lines 151-159). *)
Definition sub_data_of (xl yl zl : Z) (local_data : rows) (t : Z) : buf :=
  fst (for_range 0 zl (fun z =>
       for_range 0 yl (fun y =>
       for_range 0 xl (fun x '(sub_data, idx) =>
         (upd sub_data idx (local_data (z * yl * xl + y * xl + x) t),
          idx + 1))))
       (fresh, 0)).

(** The allocation of [halo], every cell set to [FLT_MAX] (lines 161-170). *)
Definition halo_alloc (xl yl zl : Z) : halo3 :=
  for_range 0 (xl + 2) (fun i =>
  for_range 0 (yl + 2) (fun j =>
  for_range 0 (zl + 2) (fun k halo => upd3 halo i j k FLT_MAX)))
  (fun _ _ _ => 0).

(** The owned cells filled from [sub_data] (lines 172-179): here [i] is the
    outermost and [k] the innermost loop. *)
Definition halo_fill (xl yl zl : Z) (sub_data : buf) (halo : halo3) : halo3 :=
  fst (for_range 1 (xl + 1) (fun i =>
       for_range 1 (yl + 1) (fun j =>
       for_range 1 (zl + 1) (fun k '(halo, idx) =>
         (upd3 halo i j k (sub_data idx), idx + 1))))
       (halo, 0)).

Definition build_halo (c : Config) (local_data : rows) (rank t : Z) : halo3 :=
  let xl := x_local c rank in
  let yl := y_local c rank in
  let zl := z_local c rank in
  halo_fill xl yl zl (sub_data_of xl yl zl local_data t) (halo_alloc xl yl zl).

(** *** One timestep: the halo exchange (lines 181-196)

    Only the x direction is exchanged.  Each [halo[i][j]] is an allocation
    of its own, of [z_local + 2] floats, and the exchange transmits
    [y_local * z_local] consecutive floats from [&halo[i][1][1]]. *)

(** The [n] floats at [&h[i][j][k]]; [None] when they run past the end of
    the row [h[i][j]]. *)
Definition row_run (zl : Z) (h : halo3) (i j k n : Z) : option (list Z) :=
  if k + n <=? zl + 2
  then Some (map (fun m => h i j (k + Z.of_nat m)) (seq 0 (Z.to_nat n)))
  else None.

(** A received message stored at [&h[i][j][k]]. *)
Definition row_store (h : halo3) (i j k : Z) (msg : list Z) : halo3 :=
  fun i' j' k' =>
    if (i' =? i) && (j' =? j) && (k <=? k') && (k' <? k + Z.of_nat (length msg))
    then nth (Z.to_nat (k' - k)) msg 0 else h i' j' k'.

(** [MPI_Sendrecv] as one worker sees it: its own [n] floats at
    [&h[si][1][1]] must be readable, and the partner's message, if any
    arrives, goes to [&h[ri][1][1]]. *)
Definition sendrecv (zl : Z) (h : halo3) (si ri n : Z)
           (incoming : option (list Z)) : option halo3 :=
  match row_run zl h si 1 1 n, incoming with
  | Some _, Some msg =>
      if (Z.of_nat (length msg) <=? n) && (1 + Z.of_nat (length msg) <=? zl + 2)
      then Some (row_store h ri 1 1 msg) else None
  | _, _ => None
  end.

(** The halo of the worker at [(cx, cy, cz)] after the exchange with its
    left neighbour (lines 187-190).  That neighbour answers from its own
    exchange with its right neighbour, which it reaches after the exchange
    with its left one: hence the recursion along the x axis. *)
Fixpoint after_left (c : Config) (halos : Z -> halo3) (cx : nat) (cy cz : Z)
  : option halo3 :=
  let rank := cart_rank (PY c) (PZ c) (Z.of_nat cx, cy, cz) in
  match cx with
  | O => Some (halos rank)
  | S cl =>
      let left_ := cart_rank (PY c) (PZ c) (Z.of_nat cl, cy, cz) in
      match after_left c halos cl cy cz with
      | Some halo_l =>
          sendrecv (z_local c rank) (halos rank) 1 0
            (y_local c rank * z_local c rank)
            (row_run (z_local c left_) halo_l (x_local c left_) 1 1
               (y_local c left_ * z_local c left_))
      | None => None
      end
  end.

(** The halo of worker [rank] when the classification starts: after the
    exchange with the left and then with the right neighbour
    (lines 187-194).  Nothing is exchanged along y and z (line 196). *)
Definition exchange (c : Config) (halos : Z -> halo3) (rank : Z)
  : option halo3 :=
  let '(cx, cy, cz) := cart_coords (PY c) (PZ c) rank in
  match after_left c halos (Z.to_nat cx) cy cz with
  | Some halo =>
      match snd (cart_shift (PX c) (PY c) (PZ c) rank 0) with
      | Some right_ =>
          sendrecv (z_local c rank) halo (x_local c rank)
            (x_local c rank + 1) (y_local c rank * z_local c rank)
            (row_run (z_local c right_) (halos right_) 1 1 1
               (y_local c right_ * z_local c right_))
      | None => Some halo
      end
  | None => None
  end.

(** *** One timestep: the classification (lines 198-275) *)

(** [int neighbors[6][3]] of the cell [(i, j, k)]. *)
Definition neighbors (i j k : Z) : list (Z * Z * Z) :=
  [ (i - 1, j, k); (i + 1, j, k);
    (i, j - 1, k); (i, j + 1, k);
    (i, j, k - 1); (i, j, k + 1) ].

(** The guard of lines 258-262: the neighbour is outside the local halo or
    outside the global grid. *)
Definition skipped (xl yl zl : Z) (xr yr zr : Range) (NX0 NY0 NZ0 : Z)
           (n : Z * Z * Z) : bool :=
  let '(ni, nj, nk) := n in
  (ni <? 0) || (ni >=? xl + 2) || (nj <? 0) || (nj >=? yl + 2)
  || (nk <? 0) || (nk >=? zl + 2)
  || (start xr + ni - 1 <? 0) || (start xr + ni - 1 >=? NX0)
  || (start yr + nj - 1 <? 0) || (start yr + nj - 1 >=? NY0)
  || (start zr + nk - 1 <? 0) || (start zr + nk - 1 >=? NZ0).

(** The flags [(is_min, is_max)] of the cell [(i, j, k)] after the loop over
    its six neighbours (lines 239-267). *)
Definition point_flags (xl yl zl : Z) (xr yr zr : Range) (NX0 NY0 NZ0 : Z)
           (halo : halo3) (i j k : Z) : bool * bool :=
  let val := halo i j k in
  fold_left
    (fun '(is_min, is_max) n =>
       if skipped xl yl zl xr yr zr NX0 NY0 NZ0 n then (is_min, is_max)
       else
         let '(ni, nj, nk) := n in
         let nval := halo ni nj nk in
         ((if nval <=? val then false else is_min),
          (if nval >=? val then false else is_max)))
    (neighbors i j k) (true, true).

(** [cnt_min], [cnt_max], [lmin], [lmax] of one timestep. *)
Record Partial := mkPartial {
  cnt_min : Z; cnt_max : Z; lmin : Z; lmax : Z
}.

(** The scan of the owned cells (lines 198-275). *)
Definition classify (xl yl zl : Z) (xr yr zr : Range) (NX0 NY0 NZ0 : Z)
           (halo : halo3) : Partial :=
  for_range 1 (xl + 1) (fun i =>
  for_range 1 (yl + 1) (fun j =>
  for_range 1 (zl + 1) (fun k acc =>
    let val := halo i j k in
    let '(is_min, is_max) :=
      point_flags xl yl zl xr yr zr NX0 NY0 NZ0 halo i j k in
    mkPartial
      (if is_min then cnt_min acc + 1 else cnt_min acc)
      (if is_max then cnt_max acc + 1 else cnt_max acc)
      (if val <? lmin acc then val else lmin acc)
      (if val >? lmax acc then val else lmax acc))))
  (mkPartial 0 0 FLT_MAX (- FLT_MAX)).

(** *** The whole computation *)

(** The halo blocks of all workers for timestep [t] as built from their
    [local_data], before the exchange. *)
Definition built_halos (c : Config) (global_data : rows) (t : Z)
  : Z -> halo3 :=
  fun q =>
    match distribute c global_data q with
    | Some local_data => build_halo c local_data q t
    | None => fun _ _ _ => 0
    end.

(** The halo block worker [rank] classifies for timestep [t]. *)
Definition halo_of (c : Config) (global_data : rows) (rank t : Z)
  : option halo3 :=
  match distribute c global_data rank with
  | Some _ => exchange c (built_halos c global_data t) rank
  | None => None
  end.

(** The partial result of worker [rank] for timestep [t]; [None] when the
    distribution or the exchange is undefined. *)
Definition partial_of (c : Config) (global_data : rows) (rank t : Z)
  : option Partial :=
  match halo_of c global_data rank t with
  | Some halo =>
      Some (classify (x_local c rank) (y_local c rank) (z_local c rank)
              (x_range c rank) (y_range c rank) (z_range c rank)
              (NX c) (NY c) (NZ c) halo)
  | None => None
  end.

(** What the coordinating worker writes for timestep [t] (lines 281-285,
    306-307, 316-324): the summed counts and the reduced extremes. *)
Record GlobalResult := mkGlobal {
  total_mins : Z; total_maxs : Z; global_min : Z; global_max : Z
}.

Definition global_result (c : Config) (global_data : rows) (t : Z)
  : option GlobalResult :=
  match all_some (map (fun r => partial_of c global_data r t)
                      (ranks (nprocs c))) with
  | Some ps =>
      Some (mkGlobal (reduce_sum (map cnt_min ps)) (reduce_sum (map cnt_max ps))
                     (reduce_min (map lmin ps)) (reduce_max (map lmax ps)))
  | None => None
  end.

(** The timing line of the output (lines 297-298, 326): [main_time] is the
    interval the coordinating worker measured itself; [worker_time] gives
    the interval each worker measured. *)
Definition report_timings (worker_time : Z -> Z) : Z * Z * Z :=
  let main_time := worker_time 0 in
  (0, main_time, main_time).

(** *** The whole run *)

(** What the environment of a run decides: the numbers [fscanf] finds in
    the input file, in their order ([None]: the file cannot be opened), and
    whether the output file can be opened. *)
Record Files := mkFiles {
  input_file : option (list Z);
  output_opened : bool
}.

(** [global_data] as the coordinating worker reads it (lines 87-96): the
    values of point [i] are the numbers [i * NC .. i * NC + NC - 1] of the
    file. *)
Definition read_input (c : Config) (numbers : list Z) : rows :=
  fun i t => nth (Z.to_nat (i * NC c + t)) numbers 0.

(** Why the coordinating worker calls [MPI_Abort(MPI_COMM_WORLD, 1)], which
    ends the run of every worker (lines 81-84, 91-94, 311-314). *)
Inductive abort_reason :=
| InputNotOpened
| InputNotRead
| OutputNotOpened.

(** How a run of [main] ends on worker [rank].
    - [Exited]: it returns from the start-up checks (lines 32-52).
    - [Aborted]: the coordinating worker aborts the run.
    - [Undefined]: the model makes no statement about the run.  These are
      the runs with a grid dimension that is not positive (an error of
      [MPI_Cart_create]), with a negative extent or a negative number of
      timesteps (negative allocation sizes and message counts), and the
      runs in which the exchange of some worker at some timestep is
      undefined (it reads and writes past the end of a halo row).
    - [Finished]: it runs to the end and returns 0; the coordinating
      worker has written the output file, one result per timestep and the
      timing line, and the other workers have written nothing. *)
Inductive run_result :=
| Exited (code : Z) (stderr : list string)
| Aborted (why : abort_reason)
| Undefined
| Finished (output : option (list GlobalResult * (Z * Z * Z))).

Definition main (argv0 : string) (argc : Z) (c : Config) (files : Files)
           (worker_time : Z -> Z) (rank : Z) : run_result :=
  match startup argv0 argc (PX c) (PY c) (PZ c) (nprocs c) rank with
  | Returned code stderr => Exited code stderr
  | Proceeds =>
      if negb ((0 <? PX c) && (0 <? PY c) && (0 <? PZ c)
               && (0 <=? NX c) && (0 <=? NY c) && (0 <=? NZ c)
               && (0 <=? NC c))
      then Undefined
      else
        match input_file files with
        | None => Aborted InputNotOpened
        | Some numbers =>
            if Z.of_nat (length numbers) <? NX c * NY c * NZ c * NC c
            then Aborted InputNotRead
            else
              let global_data := read_input c numbers in
              match all_some (map (global_result c global_data)
                                  (ranks (NC c))) with
              | None => Undefined
              | Some results =>
                  if negb (output_opened files)
                  then Aborted OutputNotOpened
                  else
                    Finished
                      (if rank =? 0
                       then Some (results, report_timings worker_time)
                       else None)
              end
        end
  end.

End SrcC.

(** ** Venkatesh/1.c *)

Module OneC.

(** [int idx3d(int x, int y, int z, int nx, int ny)] *)
Definition idx3d (x y z nx ny : Z) : Z := (z * ny + y) * nx + x.

(** [int nbrs[6][3]] *)
Definition nbrs : list (Z * Z * Z) :=
  [ (-1, 0, 0); (1, 0, 0); (0, -1, 0); (0, 1, 0); (0, 0, -1); (0, 0, 1) ].

(** [int is_min(double *data, int x, int y, int z, int nx, int ny, int nz,
    int t, int nt)].  The loop body declares [nx], [ny], [nz] anew: from
    their declaration to the end of the body these names are the
    neighbour's coordinates, not the extents. *)
Definition is_min (data : buf) (x y z nx ny nz t nt : Z) : Z :=
  let center := idx3d x y z nx ny in
  let val := data (center * nt + t) in
  (fix loop (l : list (Z * Z * Z)) : Z :=
     match l with
     | [] => 1
     | (d0, d1, d2) :: rest =>
         let nx := x + d0 in
         let ny := y + d1 in
         let nz := z + d2 in
         if (nx <? 0) || (nx >=? nx) || (ny <? 0) || (ny >=? ny)
            || (nz <? 0) || (nz >=? nz)
         then loop rest
         else
           let nidx := idx3d nx ny nz nx ny in
           if data (nidx * nt + t) <? val then 0 else loop rest
     end) nbrs.

(** [int is_max(...)], the same with [>]. *)
Definition is_max (data : buf) (x y z nx ny nz t nt : Z) : Z :=
  let center := idx3d x y z nx ny in
  let val := data (center * nt + t) in
  (fix loop (l : list (Z * Z * Z)) : Z :=
     match l with
     | [] => 1
     | (d0, d1, d2) :: rest =>
         let nx := x + d0 in
         let ny := y + d1 in
         let nz := z + d2 in
         if (nx <? 0) || (nx >=? nx) || (ny <? 0) || (ny >=? ny)
            || (nz <? 0) || (nz >=? nz)
         then loop rest
         else
           let nidx := idx3d nx ny nz nx ny in
           if data (nidx * nt + t) >? val then 0 else loop rest
     end) nbrs.

(** The run-time parameters of [main]. *)
Record Config := mkConfig {
  px : Z; py : Z; pz : Z;
  nx : Z; ny : Z; nz : Z;
  nt : Z;
  nprocs : Z  (* [size] of [MPI_COMM_WORLD] *)
}.

(** One axis of the block computation of [main] (lines 134-149, and again
    lines 201-211 for the receiver [r]): for the worker with coordinate [id]
    of [p] along an axis of extent [n], [start = id * (n / p)] and
    [end = (id + 1 == p) ? n : start + n / p] (exclusive). *)
Definition axis_start (id p n : Z) : Z := id * Z.quot n p.

Definition axis_end (id p n : Z) : Z :=
  if id + 1 =? p then n else axis_start id p n + Z.quot n p.

(** The coordinates of a worker in the process grid (lines 139-141). *)
Definition px_id (c : Config) (rank : Z) : Z := Z.rem rank (px c).
Definition py_id (c : Config) (rank : Z) : Z :=
  Z.rem (Z.quot rank (px c)) (py c).
Definition pz_id (c : Config) (rank : Z) : Z := Z.quot rank (px c * py c).

Definition start_x c rank := axis_start (px_id c rank) (px c) (nx c).
Definition start_y c rank := axis_start (py_id c rank) (py c) (ny c).
Definition start_z c rank := axis_start (pz_id c rank) (pz c) (nz c).
Definition local_nx c rank := axis_end (px_id c rank) (px c) (nx c) - start_x c rank.
Definition local_ny c rank := axis_end (py_id c rank) (py c) (ny c) - start_y c rank.
Definition local_nz c rank := axis_end (pz_id c rank) (pz c) (nz c) - start_z c rank.

(** [local_data] as allocated: [ghost_size * nt] cells, all [DBL_MAX]
    (lines 156-171). *)
Definition local_alloc (c : Config) (rank : Z) : obuf :=
  let ghost_size :=
    (local_nx c rank + 2) * (local_ny c rank + 2) * (local_nz c rank + 2) in
  for_range 0 (ghost_size * nt c) (fun i local_data => oupd local_data i DBL_MAX)
    uninit.

(** The coordinating worker's own block (lines 186-197). *)
Definition root_copy (c : Config) (full_data : buf) : obuf :=
  let ghost_nx := local_nx c 0 + 2 in
  let ghost_ny := local_ny c 0 + 2 in
  for_range 0 (local_nz c 0) (fun z =>
  for_range 0 (local_ny c 0) (fun y =>
  for_range 0 (local_nx c 0) (fun x local_data =>
    let src_idx :=
      idx3d (start_x c 0 + x) (start_y c 0 + y) (start_z c 0 + z)
            (nx c) (ny c) in
    let dst_idx := idx3d (x + 1) (y + 1) (z + 1) ghost_nx ghost_ny in
    for_range 0 (nt c)
      (fun t local_data =>
         oupd local_data (dst_idx * nt c + t) (full_data (src_idx * nt c + t)))
      local_data)))
  (local_alloc c 0).

(** The sends the coordinating worker issues to worker [r], in order
    (lines 200-234).  The buffer is allocated, one point's values are
    written to it, and the whole buffer is sent, once per point of the
    block. *)
Definition sends_to (c : Config) (full_data : buf) (r : Z)
  : list (list (option Z)) :=
  let r_sx := start_x c r in
  let r_sy := start_y c r in
  let r_sz := start_z c r in
  let r_nx := local_nx c r in
  let r_ny := local_ny c r in
  let r_nz := local_nz c r in
  for_range 0 r_nz (fun z =>
  for_range 0 r_ny (fun y =>
  for_range 0 r_nx (fun x sent =>
    let src_idx := idx3d (r_sx + x) (r_sy + y) (r_sz + z) (nx c) (ny c) in
    let buf_idx := (z * r_ny + y) * r_nx + x in
    let send_buf :=
      for_range 0 (nt c)
        (fun t send_buf =>
           oupd send_buf (buf_idx * nt c + t) (full_data (src_idx * nt c + t)))
        uninit in
    sent ++ [oto_list send_buf (r_nx * r_ny * r_nz * nt c)])))
  [].

(** The number of receives worker [rank] posts during the distribution
    (line 243). *)
Definition receives_posted (rank : Z) : Z := if rank =? 0 then 0 else 1.

(** [recv_buf] of worker [rank] after its receive (lines 240-243): the
    first message addressed to it.  [None]: no message ever arrives, or it
    is longer than [recv_size]. *)
Definition recv_buf (c : Config) (full_data : buf) (rank : Z) : option obuf :=
  let recv_size :=
    local_nx c rank * local_ny c rank * local_nz c rank * nt c in
  match sends_to c full_data rank with
  | [] => None
  | msg :: _ =>
      if Z.of_nat (length msg) <=? recv_size
      then Some (ostore msg uninit) else None
  end.

(** A copy of one cell, which leaves the target indeterminate when the
    source is. *)
Definition ocopy (dst : obuf) (i : Z) (v : option Z) : obuf :=
  fun j => if j =? i then v else dst j.

(** [local_data] of worker [rank] when the computation starts
    (lines 184-263).  No ghost cell is exchanged (lines 262-263). *)
Definition local_data_of (c : Config) (full_data : buf) (rank : Z)
  : option obuf :=
  if rank =? 0 then Some (root_copy c full_data)
  else
    match recv_buf c full_data rank with
    | None => None
    | Some recv_buf =>
        let ghost_nx := local_nx c rank + 2 in
        let ghost_ny := local_ny c rank + 2 in
        Some
          (for_range 0 (local_nz c rank) (fun z =>
           for_range 0 (local_ny c rank) (fun y =>
           for_range 0 (local_nx c rank) (fun x local_data =>
             let src_idx := (z * local_ny c rank + y) * local_nx c rank + x in
             let dst_idx := idx3d (x + 1) (y + 1) (z + 1) ghost_nx ghost_ny in
             for_range 0 (nt c)
               (fun t local_data =>
                  ocopy local_data (dst_idx * nt c + t)
                        (recv_buf (src_idx * nt c + t)))
               local_data)))
           (local_alloc c rank))
    end.

(** The three timing reductions (lines 327-336): each worker contributes
    its own [read_time], [compute_time] and [total_time]. *)
Definition report_timings (size : Z) (read_time compute_time total_time : Z -> Z)
  : Z * Z * Z :=
  (reduce_max (map read_time (ranks size)),
   reduce_max (map compute_time (ranks size)),
   reduce_max (map total_time (ranks size))).

(** *** Start-up checks of [main] (lines 69-96) *)

(** What a worker prints on [stdout] when a check fails: the usage line
    with [argv[0]], or the error line with the two numbers it shows. *)
Inductive message :=
| Usage (argv0 : string)
| GridMismatch (product size : Z).

(** How [main] leaves its start-up checks on one worker. *)
Inductive startup_result :=
| Returned (code : Z) (stdout : list message)
| Proceeds.

Definition startup (argv0 : string) (argc : Z) (c : Config) (rank : Z)
  : startup_result :=
  if negb (argc =? 10) then
    Returned 1 (if rank =? 0 then [Usage argv0] else [])
  else if negb (px c * py c * pz c =? nprocs c) then
    Returned 1
      (if rank =? 0
       then [GridMismatch (px c * py c * pz c) (nprocs c)] else [])
  else Proceeds.

(** *** The computation phase (lines 268-304) *)

(** The four result arrays of a worker. *)
Record Results := mkResults {
  min_counts : buf;
  max_counts : buf;
  min_values : buf;
  max_values : buf
}.

(** Lines 269-277. *)
Definition init_results (nt : Z) : Results :=
  for_range 0 nt
    (fun t r =>
       mkResults (min_counts r) (max_counts r)
                 (upd (min_values r) t DBL_MAX)
                 (upd (max_values r) t (- DBL_MAX)))
    (mkResults (fun _ => 0) (fun _ => 0) fresh fresh).

(** Lines 280-304, on a block of the given extents whose cells hold
    [local_data]. *)
Definition compute (local_nx local_ny local_nz nt : Z) (local_data : buf)
  : Results :=
  let ghost_nx := local_nx + 2 in
  let ghost_ny := local_ny + 2 in
  let ghost_nz := local_nz + 2 in
  for_range 0 local_nz (fun z =>
  for_range 0 local_ny (fun y =>
  for_range 0 local_nx (fun x =>
    let ghost_x := x + 1 in
    let ghost_y := y + 1 in
    let ghost_z := z + 1 in
    let idx := idx3d ghost_x ghost_y ghost_z ghost_nx ghost_ny in
    for_range 0 nt (fun t r =>
      let val := local_data (idx * nt + t) in
      let minv :=
        if val <? min_values r t
        then upd (min_values r) t val else min_values r in
      let maxv :=
        if val >? max_values r t
        then upd (max_values r) t val else max_values r in
      mkResults
        (if negb (is_min local_data ghost_x ghost_y ghost_z
                    ghost_nx ghost_ny ghost_nz t nt =? 0)
         then upd (min_counts r) t (min_counts r t + 1) else min_counts r)
        (if negb (is_max local_data ghost_x ghost_y ghost_z
                    ghost_nx ghost_ny ghost_nz t nt =? 0)
         then upd (max_counts r) t (max_counts r t + 1) else max_counts r)
        minv maxv))))
  (init_results nt).

End OneC.

(** ** Pankaj/pankaj_code.c *)

Module PankajC.

(** The run-time parameters of [main]. *)
Record Config := mkConfig {
  pX : Z; pY : Z; pZ : Z;
  nX : Z; nY : Z; nZ : Z;
  timeSteps : Z;
  nprocs : Z  (* [size] of [MPI_COMM_WORLD] *)
}.

(** Lines 99-114. *)
Definition subDomainSizeX c := Z.quot (nX c) (pX c).
Definition subDomainSizeY c := Z.quot (nY c) (pY c).
Definition subDomainSizeZ c := Z.quot (nZ c) (pZ c).
Definition subDomainSize c :=
  subDomainSizeX c * subDomainSizeY c * subDomainSizeZ c.

Definition subDomainX c (cur_rank : Z) := Z.quot cur_rank (pX c * pY c).
Definition subDomainY c (cur_rank : Z) :=
  Z.quot (Z.rem cur_rank (pX c * pY c)) (pX c).
Definition subDomainZ c (cur_rank : Z) := Z.rem cur_rank (pX c).

Definition startX c cur_rank := subDomainX c cur_rank * subDomainSizeX c.
Definition startY c cur_rank := subDomainY c cur_rank * subDomainSizeY c.
Definition startZ c cur_rank := subDomainZ c cur_rank * subDomainSizeZ c.

(** The block starting at [(sx, sy, sz)] copied point by point, each with
    its [timeSteps] values, into a new buffer: the loops of lines 119-129
    (into [localData]) and of lines 147-157 (into [tempBuffer]). *)
Definition copy_block (c : Config) (globalData : buf) (sx sy sz : Z) : obuf :=
  fst (for_range sz (sz + subDomainSizeZ c) (fun z =>
       for_range sy (sy + subDomainSizeY c) (fun y =>
       for_range sx (sx + subDomainSizeX c) (fun x =>
         let globalIdx := (z * nX c * nY c + y * nX c + x) * timeSteps c in
         for_range 0 (timeSteps c) (fun t '(buffer, idx) =>
           (oupd buffer idx (globalData (globalIdx + t)), idx + 1)))))
       (uninit, 0)).

(** The message sent to worker [p] (lines 133-159): the first
    [subDomainSize] cells of [tempBuffer]. *)
Definition message_to (c : Config) (globalData : buf) (p : Z)
  : list (option Z) :=
  let posZ := Z.quot p (pX c * pY c) in
  let posY := Z.quot (Z.rem p (pX c * pY c)) (pX c) in
  let posX := Z.rem p (pX c) in
  let tempBuffer :=
    copy_block c globalData (posX * subDomainSizeX c)
               (posY * subDomainSizeY c) (posZ * subDomainSizeZ c) in
  oto_list tempBuffer (subDomainSize c).

(** [localData] of worker [cur_rank] after the distribution
    (lines 117-165). *)
Definition localData_of (c : Config) (globalData : buf) (cur_rank : Z)
  : option obuf :=
  if cur_rank =? 0 then
    Some (copy_block c globalData (startX c 0) (startY c 0) (startZ c 0))
  else
    let msg := message_to c globalData cur_rank in
    if Z.of_nat (length msg) <=? subDomainSize c
    then Some (ostore msg uninit) else None.

(** The four result arrays of a worker. *)
Record Results := mkResults {
  localMinimaCount : buf;
  localMaximaCount : buf;
  subDomainMinValues : buf;
  subDomainMaxValues : buf
}.

(** Lines 176-184. *)
Definition init_results (c : Config) : Results :=
  for_range 0 (timeSteps c)
    (fun t r =>
       mkResults (localMinimaCount r) (localMaximaCount r)
                 (upd (subDomainMinValues r) t DBL_MAX)
                 (upd (subDomainMaxValues r) t (- DBL_MAX)))
    (mkResults (fun _ => 0) (fun _ => 0) fresh fresh).

(** [int neighborOffsets[6][3]] *)
Definition neighborOffsets : list (Z * Z * Z) :=
  [ (-1, 0, 0); (1, 0, 0); (0, -1, 0); (0, 1, 0); (0, 0, -1); (0, 0, 1) ].

(** The loop over the six neighbours (lines 226-243); [None] when a cell of
    indeterminate content is read. *)
Definition neighbor_flags (c : Config) (localData : obuf)
           (x y z t value : Z) : option (bool * bool) :=
  fold_left
    (fun flags off =>
       match flags with
       | None => None
       | Some (isMin, isMax) =>
           let '(o0, o1, o2) := off in
           let nx := x + o0 in
           let ny := y + o1 in
           let nz := z + o2 in
           let neighborIdx :=
             (nz * subDomainSizeX c * subDomainSizeY c
              + ny * subDomainSizeX c + nx) * timeSteps c + t in
           match localData neighborIdx with
           | None => None
           | Some neighborValue =>
               Some ((if value >=? neighborValue then false else isMin),
                     (if value <=? neighborValue then false else isMax))
           end
       end)
    neighborOffsets (Some (true, true)).

(** The body of the loop over [t] (lines 197-252). *)
Definition process_point (c : Config) (localData : obuf) (x y z : Z)
           (t : Z) (s : option Results) : option Results :=
  let localIdx := (z * subDomainSizeY c + y) * subDomainSizeX c + x in
  match s, localData (localIdx + t) with
  | Some r, Some value =>
      let minv :=
        if value <? subDomainMinValues r t
        then upd (subDomainMinValues r) t value else subDomainMinValues r in
      let maxv :=
        if value >? subDomainMaxValues r t
        then upd (subDomainMaxValues r) t value else subDomainMaxValues r in
      if (x >? 0) && (x <? subDomainSizeX c - 1)
         && (y >? 0) && (y <? subDomainSizeY c - 1)
         && (z >? 0) && (z <? subDomainSizeZ c - 1)
      then
        match neighbor_flags c localData x y z t value with
        | Some (isMin, isMax) =>
            Some (mkResults
                    (if isMin
                     then upd (localMinimaCount r) t (localMinimaCount r t + 1)
                     else localMinimaCount r)
                    (if isMax
                     then upd (localMaximaCount r) t (localMaximaCount r t + 1)
                     else localMaximaCount r)
                    minv maxv)
        | None => None
        end
      else Some (mkResults (localMinimaCount r) (localMaximaCount r) minv maxv)
  | _, _ => None
  end.

(** The scan of the local block (lines 186-255). *)
Definition process (c : Config) (localData : obuf) : option Results :=
  for_range 0 (subDomainSizeZ c) (fun z =>
  for_range 0 (subDomainSizeY c) (fun y =>
  for_range 0 (subDomainSizeX c) (fun x =>
  for_range 0 (timeSteps c) (process_point c localData x y z))))
  (Some (init_results c)).

(** The results of worker [cur_rank]. *)
Definition results_of (c : Config) (globalData : buf) (cur_rank : Z)
  : option Results :=
  match localData_of c globalData cur_rank with
  | Some localData => process c localData
  | None => None
  end.

(** What the coordinating worker holds for timestep [t] after the four
    reductions (lines 271-276): [(globalMinimaCount[t],
    globalMaximaCount[t], globalMinValues[t], globalMaxValues[t])]. *)
Definition global_result (c : Config) (globalData : buf) (t : Z)
  : option (Z * Z * Z * Z) :=
  match all_some (map (results_of c globalData) (ranks (nprocs c))) with
  | Some rs =>
      Some (reduce_sum (map (fun r => localMinimaCount r t) rs),
            reduce_sum (map (fun r => localMaximaCount r t) rs),
            reduce_min (map (fun r => subDomainMinValues r t) rs),
            reduce_max (map (fun r => subDomainMaxValues r t) rs))
  | None => None
  end.

End PankajC.

(** ** Pankaj/pankaj_code2.c *)

Module Pankaj2C.

(** [int threeD_To_oneD(int x, int y, int z, int width, int height,
    int depth)] *)
Definition threeD_To_oneD (x y z width height depth : Z) : Z :=
  (z * height + y) * width + x.

(** [bool checkLocalMinima(double* data, int x, int y, int z, int width,
    int height, int depth)] *)
Definition checkLocalMinima (data : buf) (x y z width height depth : Z)
  : bool :=
  let idx := threeD_To_oneD x y z width height depth in
  let val := data idx in
  let isMinima := true in
  let isMinima :=
    if (x >? 0) && (data (idx - 1) <? val) then false else isMinima in
  let isMinima :=
    if (x <? width - 1) && (data (idx + 1) <? val) then false else isMinima in
  let isMinima :=
    if (y >? 0) && (data (idx - width) <? val) then false else isMinima in
  let isMinima :=
    if (y <? height - 1) && (data (idx + width) <? val)
    then false else isMinima in
  let isMinima :=
    if (z >? 0) && (data (idx - height * width) <? val)
    then false else isMinima in
  let isMinima :=
    if (z <? depth - 1) && (data (idx + height * width) <? val)
    then false else isMinima in
  isMinima.

(** [bool checkLocalMaxima(...)] *)
Definition checkLocalMaxima (data : buf) (x y z width height depth : Z)
  : bool :=
  let idx := threeD_To_oneD x y z width height depth in
  let val := data idx in
  let isMaxima := true in
  let isMaxima :=
    if (x >? 0) && (data (idx - 1) >? val) then false else isMaxima in
  let isMaxima :=
    if (x <? width - 1) && (data (idx + 1) >? val) then false else isMaxima in
  let isMaxima :=
    if (y >? 0) && (data (idx - width) >? val) then false else isMaxima in
  let isMaxima :=
    if (y <? height - 1) && (data (idx + width) >? val)
    then false else isMaxima in
  let isMaxima :=
    if (z >? 0) && (data (idx - height * width) >? val)
    then false else isMaxima in
  let isMaxima :=
    if (z <? depth - 1) && (data (idx + height * width) >? val)
    then false else isMaxima in
  isMaxima.

(** The run-time parameters of [main]. *)
Record Config := mkConfig {
  pX : Z; pY : Z; pZ : Z;
  nX : Z; nY : Z; nZ : Z;
  timeSteps : Z;
  nprocs : Z  (* [size] of [MPI_COMM_WORLD] *)
}.

(** The block of a worker and the block extended by the layer around it
    that lies inside the domain (lines 153-179). *)
Record Geometry := mkGeometry {
  startX : Z; startY : Z; startZ : Z;
  endX : Z; endY : Z; endZ : Z;
  tempStartX : Z; tempStartY : Z; tempStartZ : Z;
  tempEndX : Z; tempEndY : Z; tempEndZ : Z
}.

Definition geometry (c : Config) (cur_rank : Z) : Geometry :=
  let subDomainZ := Z.quot cur_rank (pX c * pY c) in
  let subDomainY := Z.quot (Z.rem cur_rank (pX c * pY c)) (pX c) in
  let subDomainX := Z.rem cur_rank (pX c) in
  let subDomainSizeX := Z.quot (nX c) (pX c) in
  let subDomainSizeY := Z.quot (nY c) (pY c) in
  let subDomainSizeZ := Z.quot (nZ c) (pZ c) in
  let startX := subDomainX * subDomainSizeX in
  let startY := subDomainY * subDomainSizeY in
  let startZ := subDomainZ * subDomainSizeZ in
  let endX :=
    if subDomainX =? pX c - 1 then nX c - 1 else startX + subDomainSizeX - 1 in
  let endY :=
    if subDomainY =? pY c - 1 then nY c - 1 else startY + subDomainSizeY - 1 in
  let endZ :=
    if subDomainZ =? pZ c - 1 then nZ c - 1 else startZ + subDomainSizeZ - 1 in
  mkGeometry startX startY startZ endX endY endZ
    (if startX - 1 >=? 0 then startX - 1 else startX)
    (if startY - 1 >=? 0 then startY - 1 else startY)
    (if startZ - 1 >=? 0 then startZ - 1 else startZ)
    (if endX + 1 <=? nX c - 1 then endX + 1 else endX)
    (if endY + 1 <=? nY c - 1 then endY + 1 else endY)
    (if endZ + 1 <=? nZ c - 1 then endZ + 1 else endZ).

(** The coordinating worker's own portion (lines 185-197). *)
Definition root_copy (c : Config) (globalData : buf) : buf :=
  let g := geometry c 0 in
  fst (for_range (tempStartZ g) (tempEndZ g + 1) (fun z =>
       for_range (tempStartY g) (tempEndY g + 1) (fun y =>
       for_range (tempStartX g) (tempEndX g + 1) (fun x =>
         let globalIdx :=
           threeD_To_oneD x y z (nX c) (nY c) (nZ c) * timeSteps c in
         for_range 0 (timeSteps c) (fun t '(localData, idx) =>
           (upd localData idx (globalData (globalIdx + t)), idx + 1)))))
       (fresh, 0)).

(** The four result arrays of a worker. *)
Record Results := mkResults {
  localMinimaCount : buf;
  localMaximaCount : buf;
  subDomainMinValues : buf;
  subDomainMaxValues : buf
}.

(** Lines 255-263. *)
Definition init_results (ts : Z) : Results :=
  for_range 0 ts
    (fun t r =>
       mkResults (localMinimaCount r) (localMaximaCount r)
                 (upd (subDomainMinValues r) t DBL_MAX)
                 (upd (subDomainMaxValues r) t (- DBL_MAX)))
    (mkResults (fun _ => 0) (fun _ => 0) fresh fresh).

(** The state of the scan of one timestep: the result arrays and the two
    counters [localMinimaCount_at_t], [localMaximaCount_at_t]. *)
Definition scan_state : Type := Results * Z * Z.

(** The body of the innermost loop (lines 271-283). *)
Definition scan_point (g : Geometry) (localData : buf) (t z y x : Z)
           (s : scan_state) : scan_state :=
  let '(r, min_at_t, max_at_t) := s in
  if (x >=? startX g - tempStartX g) && (x <=? endX g - tempStartX g)
     && (y >=? startY g - tempStartY g) && (y <=? endY g - tempStartY g)
     && (z >=? startZ g - tempStartZ g) && (z <=? endZ g - tempStartZ g)
  then
    let width := tempEndX g + 1 - tempStartX g in
    let height := tempEndY g + 1 - tempStartY g in
    let depth := tempEndZ g + 1 - tempStartZ g in
    let idx := threeD_To_oneD x y z width height depth in
    let val := localData idx in
    let minv :=
      if val <? subDomainMinValues r t
      then upd (subDomainMinValues r) t val else subDomainMinValues r in
    let maxv :=
      if val >? subDomainMaxValues r t
      then upd (subDomainMaxValues r) t val else subDomainMaxValues r in
    (mkResults (localMinimaCount r) (localMaximaCount r) minv maxv,
     (if checkLocalMinima localData x y z width height depth
      then min_at_t + 1 else min_at_t),
     (if checkLocalMaxima localData x y z width height depth
      then max_at_t + 1 else max_at_t))
  else s.

(** The body of the loop over the timesteps (lines 265-289). *)
Definition scan_timestep (g : Geometry) (localData : buf) (t : Z)
           (r : Results) : Results :=
  let '(r', min_at_t, max_at_t) :=
    for_range 0 (tempEndZ g - tempStartZ g + 1) (fun z =>
    for_range 0 (tempEndY g - tempStartY g + 1) (fun y =>
    for_range 0 (tempEndX g - tempStartX g + 1) (fun x =>
      scan_point g localData t z y x)))
    (r, 0, 0) in
  mkResults (upd (localMinimaCount r') t min_at_t)
            (upd (localMaximaCount r') t max_at_t)
            (subDomainMinValues r') (subDomainMaxValues r').

(** The computation phase (lines 255-289). *)
Definition compute (g : Geometry) (ts : Z) (localData : buf) : Results :=
  for_range 0 ts (scan_timestep g localData) (init_results ts).

(** The message the coordinating worker sends to worker [p]
    (lines 200-243).  [tempBuffer] is allocated with [sendDataSize] cells,
    the size of the block of [p] with the layer around it; the loops write
    the [subDomainSizeX * subDomainSizeY * subDomainSizeZ] points that
    start at [(pStartX, pStartY, pStartZ)]; [sendDataSize] cells are
    sent.  The positions and bounds computed for [p] in lines 201-220 are
    those of [geometry c p]. *)
Definition message_to (c : Config) (globalData : buf) (p : Z)
  : list (option Z) :=
  let g := geometry c p in
  let subDomainSizeX := Z.quot (nX c) (pX c) in
  let subDomainSizeY := Z.quot (nY c) (pY c) in
  let subDomainSizeZ := Z.quot (nZ c) (pZ c) in
  let sendDataSize :=
    (tempEndX g - tempStartX g + 1) * (tempEndY g - tempStartY g + 1)
    * (tempEndZ g - tempStartZ g + 1) * timeSteps c in
  let tempBuffer :=
    fst (for_range (startZ g) (startZ g + subDomainSizeZ) (fun z =>
         for_range (startY g) (startY g + subDomainSizeY) (fun y =>
         for_range (startX g) (startX g + subDomainSizeX) (fun x =>
           let globalIdx :=
             threeD_To_oneD x y z (nX c) (nY c) (nZ c) * timeSteps c in
           for_range 0 (timeSteps c) (fun t '(tempBuffer, bufIdx) =>
             (oupd tempBuffer bufIdx (globalData (globalIdx + t)),
              bufIdx + 1)))))
         (uninit, 0)) in
  oto_list tempBuffer sendDataSize.

(** [localData] of a worker other than the coordinating one after its
    receive of [localDataSize] cells (lines 182-183, 245); [None] when the
    message is longer than the receive. *)
Definition received (c : Config) (globalData : buf) (cur_rank : Z)
  : option obuf :=
  let g := geometry c cur_rank in
  let localDataSize :=
    (tempEndX g + 1 - tempStartX g) * (tempEndY g + 1 - tempStartY g)
    * (tempEndZ g + 1 - tempStartZ g) * timeSteps c in
  let msg := message_to c globalData cur_rank in
  if Z.of_nat (length msg) <=? localDataSize
  then Some (ostore msg uninit) else None.

End Pankaj2C.

(** * Vocabulary of the properties *)

(** The cut points of the balanced policy. *)
Definition balanced_cut (total size0 i : Z) : Z :=
  i * Z.quot size0 total + Z.min i (Z.rem size0 total).

(** The cut points of the tail-heavy policy of 1.c. *)
Definition tail_cut (p n i : Z) : Z :=
  if i =? p then n else i * Z.quot n p.

(** What it means for half-open blocks [[lo i, hi i)], [0 <= i < p], to
    partition [[0, n)] into contiguous non-empty pieces. *)
Definition partitions (p n : Z) (lo hi : Z -> Z) : Prop :=
  (forall i, 0 <= i < p -> lo i < hi i) /\
  lo 0 = 0 /\
  hi (p - 1) = n /\
  (forall i, 0 <= i < p - 1 -> lo (i + 1) = hi i) /\
  (forall i j, 0 <= i < p -> 0 <= j < p -> i <> j ->
               forall g, ~ (lo i <= g < hi i /\ lo j <= g < hi j)) /\
  (forall g, 0 <= g < n <-> exists i, 0 <= i < p /\ lo i <= g < hi i).

(** The halo cell [n] of a worker lies inside the global domain. *)
Definition present (xr yr zr : SrcC.Range) (NX NY NZ : Z) (n : Z * Z * Z)
  : Prop :=
  let '(ni, nj, nk) := n in
  0 <= SrcC.start xr + ni - 1 < NX /\
  0 <= SrcC.start yr + nj - 1 < NY /\
  0 <= SrcC.start zr + nk - 1 < NZ.

(** The cell [n] lies inside a buffer of the given extents. *)
Definition inside (width height depth : Z) (n : Z * Z * Z) : Prop :=
  let '(x, y, z) := n in
  0 <= x < width /\ 0 <= y < height /\ 0 <= z < depth.

(** The value a flat buffer holds for the cell [n]. *)
Definition cell (data : buf) (width height depth : Z) (n : Z * Z * Z) : Z :=
  let '(x, y, z) := n in
  data (Pankaj2C.threeD_To_oneD x y z width height depth).

(** The value a halo block holds for the cell [n]. *)
Definition halo_at (halo : SrcC.halo3) (n : Z * Z * Z) : Z :=
  let '(ni, nj, nk) := n in halo ni nj nk.

(** The scan of one timestep of pankaj_code2.c on four scalars: the running
    value extremes and the two counters.  The timestep does not occur. *)
Definition tally : Type := Z * Z * Z * Z.

Definition tally_point (g : Pankaj2C.Geometry) (localData : buf) (z y x : Z)
           (q : tally) : tally :=
  let '(minv, maxv, min_at_t, max_at_t) := q in
  if (x >=? Pankaj2C.startX g - Pankaj2C.tempStartX g)
     && (x <=? Pankaj2C.endX g - Pankaj2C.tempStartX g)
     && (y >=? Pankaj2C.startY g - Pankaj2C.tempStartY g)
     && (y <=? Pankaj2C.endY g - Pankaj2C.tempStartY g)
     && (z >=? Pankaj2C.startZ g - Pankaj2C.tempStartZ g)
     && (z <=? Pankaj2C.endZ g - Pankaj2C.tempStartZ g)
  then
    let width := Pankaj2C.tempEndX g + 1 - Pankaj2C.tempStartX g in
    let height := Pankaj2C.tempEndY g + 1 - Pankaj2C.tempStartY g in
    let depth := Pankaj2C.tempEndZ g + 1 - Pankaj2C.tempStartZ g in
    let val := localData (Pankaj2C.threeD_To_oneD x y z width height depth) in
    ((if val <? minv then val else minv),
     (if val >? maxv then val else maxv),
     (if Pankaj2C.checkLocalMinima localData x y z width height depth
      then min_at_t + 1 else min_at_t),
     (if Pankaj2C.checkLocalMaxima localData x y z width height depth
      then max_at_t + 1 else max_at_t))
  else q.

Definition tally_from (g : Pankaj2C.Geometry) (localData : buf) (q : tally)
  : tally :=
  for_range 0 (Pankaj2C.tempEndZ g - Pankaj2C.tempStartZ g + 1) (fun z =>
  for_range 0 (Pankaj2C.tempEndY g - Pankaj2C.tempStartY g + 1) (fun y =>
  for_range 0 (Pankaj2C.tempEndX g - Pankaj2C.tempStartX g + 1) (fun x =>
    tally_point g localData z y x))) q.

(** The entries of the four result arrays for timestep [t]. *)
Definition entries (r : Pankaj2C.Results) (t : Z) : tally :=
  (Pankaj2C.subDomainMinValues r t, Pankaj2C.subDomainMaxValues r t,
   Pankaj2C.localMinimaCount r t, Pankaj2C.localMaximaCount r t).

(** The number of iterations a nest of three counted loops has completed
    when it reaches the iteration [(a, b, c)]; [n2] and [n3] are the lengths
    of the middle and of the inner loop. *)
Definition count3 (lo1 lo2 lo3 n2 n3 a b c : Z) : Z :=
  ((a - lo1) * n2 + (b - lo2)) * n3 + (c - lo3).

(** The value of the global point [(x, y, z)] at timestep [t] in the field
    of src.c, whose points are numbered x fastest. *)
Definition value_at (c : SrcC.Config) (global_data : rows) (x y z t : Z) : Z :=
  global_data (z * (SrcC.NX c * SrcC.NY c) + y * SrcC.NX c + x) t.

(** The point [(x, y, z)] belongs to the global domain. *)
Definition in_domain (c : SrcC.Config) (x y z : Z) : Prop :=
  0 <= x < SrcC.NX c /\ 0 <= y < SrcC.NY c /\ 0 <= z < SrcC.NZ c.

(** The global point [(x, y, z)] is the point [(lx, ly, lz)] of the block of
    worker [rank]. *)
Definition owns (c : SrcC.Config) (rank x y z lx ly lz : Z) : Prop :=
  0 <= lx < SrcC.x_local c rank /\ 0 <= ly < SrcC.y_local c rank /\
  0 <= lz < SrcC.z_local c rank /\
  x = SrcC.start (SrcC.x_range c rank) + lx /\
  y = SrcC.start (SrcC.y_range c rank) + ly /\
  z = SrcC.start (SrcC.z_range c rank) + lz.

(** The scan of timestep [t] and the scalar scan go in step: the entries
    of [t] follow the scalars, and nothing else changes from [r0]. *)
Definition scan_rel (t : Z) (r0 : Pankaj2C.Results) (s : Pankaj2C.scan_state)
           (q : tally) : Prop :=
  let '(r, min_at_t, max_at_t) := s in
  q = (Pankaj2C.subDomainMinValues r t, Pankaj2C.subDomainMaxValues r t,
       min_at_t, max_at_t) /\
  (forall u, u <> t ->
     Pankaj2C.subDomainMinValues r u = Pankaj2C.subDomainMinValues r0 u /\
     Pankaj2C.subDomainMaxValues r u = Pankaj2C.subDomainMaxValues r0 u) /\
  Pankaj2C.localMinimaCount r = Pankaj2C.localMinimaCount r0 /\
  Pankaj2C.localMaximaCount r = Pankaj2C.localMaximaCount r0.

(** * Properties *)

(** ** Loop reasoning *)

Section LoopFacts.
Context {A : Type}.

Lemma for_up_ind (P : Z -> A -> Prop) (body : Z -> A -> A) :
  forall n i a,
    P i a ->
    (forall j b, i <= j < i + Z.of_nat n -> P j b -> P (j + 1) (body j b)) ->
    P (i + Z.of_nat n) (for_up n i body a).
Proof.
  induction n as [|n IH]; intros i a Ha Hstep.
  - cbn [for_up]. replace (i + Z.of_nat 0) with i by lia. exact Ha.
  - cbn [for_up].
    replace (i + Z.of_nat (S n)) with ((i + 1) + Z.of_nat n) by lia.
    apply IH.
    + apply Hstep; [lia | exact Ha].
    + intros j b Hj. apply Hstep. lia.
Qed.

(** The invariant rule of a counted loop. *)
Lemma for_range_ind (P : Z -> A -> Prop) (lo hi : Z) body a :
  lo <= hi ->
  P lo a ->
  (forall j b, lo <= j < hi -> P j b -> P (j + 1) (body j b)) ->
  P hi (for_range lo hi body a).
Proof.
  intros Hle Ha Hstep. unfold for_range.
  replace hi with (lo + Z.of_nat (Z.to_nat (hi - lo))) at 1 by lia.
  apply for_up_ind; [exact Ha|].
  intros j b Hj. apply Hstep. lia.
Qed.

(** A loop whose bound is not above its start does not run. *)
Lemma for_range_skip (lo hi : Z) (body : Z -> A -> A) a :
  hi <= lo -> for_range lo hi body a = a.
Proof.
  intros H. unfold for_range.
  replace (Z.to_nat (hi - lo)) with O by lia. reflexivity.
Qed.

(** Two loops over the same range that keep a relation between their
    states. *)
Lemma for_range_rel {B : Type} (R : A -> B -> Prop) (lo hi : Z)
      (f : Z -> A -> A) (g : Z -> B -> B) (a : A) (b : B) :
  R a b ->
  (forall i a b, lo <= i < hi -> R a b -> R (f i a) (g i b)) ->
  R (for_range lo hi f a) (for_range lo hi g b).
Proof.
  intros Hab Hstep. unfold for_range.
  assert (H : forall n i a b,
             lo <= i -> i + Z.of_nat n <= Z.max lo hi -> R a b ->
             R (for_up n i f a) (for_up n i g b)).
  { induction n as [|n IH]; intros i a' b' Hlo Hhi Hr; cbn [for_up].
    - exact Hr.
    - apply IH; [lia | lia |]. apply Hstep; [lia | exact Hr]. }
  apply H; [lia | lia | exact Hab].
Qed.

(** An invariant that does not mention the loop index. *)
Lemma for_range_inv (P : A -> Prop) (lo hi : Z) body a :
  P a ->
  (forall j b, lo <= j < hi -> P b -> P (body j b)) ->
  P (for_range lo hi body a).
Proof.
  intros Ha Hstep. destruct (Z_le_gt_dec lo hi).
  - apply (for_range_ind (fun _ => P)); assumption.
  - rewrite for_range_skip by lia. exact Ha.
Qed.
End LoopFacts.

(** ** Buffers *)

Lemma upd_same (b : buf) (i v : Z) : upd b i v i = v.
Proof. unfold upd. now rewrite Z.eqb_refl. Qed.

Lemma upd_other (b : buf) (i v u : Z) : u <> i -> upd b i v u = b u.
Proof. intros H. unfold upd. destruct (Z.eqb_spec u i); congruence. Qed.

(** ** Nests of three loops *)

(** Iterations are numbered without collision. *)
Lemma count3_inj (lo1 lo2 lo3 n2 n3 a b c a' b' c' : Z) :
  0 <= b - lo2 < n2 -> 0 <= c - lo3 < n3 ->
  0 <= b' - lo2 < n2 -> 0 <= c' - lo3 < n3 ->
  count3 lo1 lo2 lo3 n2 n3 a b c = count3 lo1 lo2 lo3 n2 n3 a' b' c' ->
  a = a' /\ b = b' /\ c = c'.
Proof.
  unfold count3. intros Hb Hc Hb' Hc' H.
  destruct (Z.div_mod_unique n3 ((a - lo1) * n2 + (b - lo2))
              ((a' - lo1) * n2 + (b' - lo2)) (c - lo3) (c' - lo3))
    as [H1 H2]; [lia | lia | lia |].
  destruct (Z.div_mod_unique n2 (a - lo1) (a' - lo1) (b - lo2) (b' - lo2))
    as [H3 H4]; [lia | lia | lia |].
  lia.
Qed.

Lemma count3_bounds (lo1 lo2 lo3 n1 n2 n3 a b c : Z) :
  0 <= a - lo1 < n1 -> 0 <= b - lo2 < n2 -> 0 <= c - lo3 < n3 ->
  0 <= count3 lo1 lo2 lo3 n2 n3 a b c < n1 * n2 * n3.
Proof.
  unfold count3. intros Ha Hb Hc.
  assert (H1 : 0 <= (a - lo1) * n2) by nia.
  assert (H2 : (a - lo1) * n2 + (b - lo2) <= n1 * n2 - 1) by nia.
  assert (H3 : 0 <= ((a - lo1) * n2 + (b - lo2)) * n3) by nia.
  assert (H4 : ((a - lo1) * n2 + (b - lo2)) * n3 <= (n1 * n2 - 1) * n3) by nia.
  nia.
Qed.

Section Nest3.
Context {S : Type}.
Variables (lo1 hi1 lo2 hi2 lo3 hi3 : Z).
Variable step : Z -> Z -> Z -> S -> S.
Variable I : Z -> S -> Prop.

(** The invariant rule of a nest of three loops: an invariant indexed by
    the number of completed iterations. *)
Lemma for3_ind (s0 : S) :
  lo1 <= hi1 -> lo2 <= hi2 -> lo3 <= hi3 ->
  I 0 s0 ->
  (forall a b c s,
      lo1 <= a < hi1 -> lo2 <= b < hi2 -> lo3 <= c < hi3 ->
      I (count3 lo1 lo2 lo3 (hi2 - lo2) (hi3 - lo3) a b c) s ->
      I (count3 lo1 lo2 lo3 (hi2 - lo2) (hi3 - lo3) a b c + 1)
        (step a b c s)) ->
  I ((hi1 - lo1) * (hi2 - lo2) * (hi3 - lo3))
    (for_range lo1 hi1 (fun a =>
     for_range lo2 hi2 (fun b =>
     for_range lo3 hi3 (step a b))) s0).
Proof.
  intros H1 H2 H3 H0 Hstep.
  set (n2 := hi2 - lo2) in *. set (n3 := hi3 - lo3) in *.
  apply (for_range_ind (fun a s => I ((a - lo1) * n2 * n3) s)); [exact H1 | |].
  - replace ((lo1 - lo1) * n2 * n3) with 0 by ring. exact H0.
  - intros a s Ha Hs.
    replace ((a + 1 - lo1) * n2 * n3)
      with (((a - lo1) * n2 + (hi2 - lo2)) * n3) by (subst n2; ring).
    apply (for_range_ind (fun b s => I (((a - lo1) * n2 + (b - lo2)) * n3) s));
      [exact H2 | |].
    + replace (((a - lo1) * n2 + (lo2 - lo2)) * n3)
        with ((a - lo1) * n2 * n3) by ring.
      exact Hs.
    + intros b s' Hb Hs'.
      replace (((a - lo1) * n2 + (b + 1 - lo2)) * n3)
        with (count3 lo1 lo2 lo3 n2 n3 a b hi3)
        by (unfold count3; subst n3; ring).
      apply (for_range_ind (fun c s => I (count3 lo1 lo2 lo3 n2 n3 a b c) s));
        [exact H3 | |].
      * replace (count3 lo1 lo2 lo3 n2 n3 a b lo3)
          with (((a - lo1) * n2 + (b - lo2)) * n3) by (unfold count3; ring).
        exact Hs'.
      * intros c s'' Hc Hs''.
        replace (count3 lo1 lo2 lo3 n2 n3 a b (c + 1))
          with (count3 lo1 lo2 lo3 n2 n3 a b c + 1) by (unfold count3; ring).
        apply Hstep; assumption.
Qed.
End Nest3.

(** ** Partitioner *)

(** A chain of cut points [f 0 <= f 1 <= ... <= f n] locates every index of
    [[f 0, f n)] in one of its segments. *)
Lemma chain_locate (f : Z -> Z) (n : Z) :
  0 <= n ->
  (forall i, 0 <= i < n -> f i <= f (i + 1)) ->
  forall g, f 0 <= g < f n ->
            exists i, 0 <= i < n /\ f i <= g < f (i + 1).
Proof.
  intros Hn. pattern n. apply natlike_ind; [| | exact Hn].
  - intros _ g Hg. lia.
  - intros m Hm IH Hmono g Hg.
    destruct (Z_lt_ge_dec g (f m)) as [Hlt|Hge].
    + destruct (IH (fun i Hi => Hmono i ltac:(lia)) g ltac:(lia))
        as (i & Hi & Hgi).
      exists i. split; [lia | exact Hgi].
    + exists m. replace (Z.succ m) with (m + 1) in Hg by lia. lia.
Qed.

(** Strictly increasing cut points keep the segments apart. *)
Lemma chain_increasing (f : Z -> Z) (n : Z) :
  (forall i, 0 <= i < n -> f i < f (i + 1)) ->
  forall i j, 0 <= i -> i <= j -> j <= n -> f i <= f j.
Proof.
  intros Hstep i j Hi Hij Hj.
  replace j with (i + Z.of_nat (Z.to_nat (j - i))) in * by lia.
  induction (Z.to_nat (j - i)) as [|k IH].
  - replace (i + Z.of_nat 0) with i by lia. lia.
  - specialize (Hstep (i + Z.of_nat k) ltac:(lia)).
    replace (i + Z.of_nat (S k)) with (i + Z.of_nat k + 1) by lia.
    specialize (IH ltac:(lia) ltac:(lia)). lia.
Qed.

(** The accumulation loop of [get_range] in closed form. *)
Lemma get_range_start (rank total size0 : Z) :
  0 <= rank -> 0 < total -> 0 <= size0 ->
  SrcC.start (SrcC.get_range rank total size0)
  = rank * Z.quot size0 total + Z.min rank (Z.rem size0 total).
Proof.
  intros Hr Ht Hs. unfold SrcC.get_range. cbn [SrcC.start].
  pose proof (Z.rem_bound_pos size0 total Hs Ht) as Hrem.
  set (base := Z.quot size0 total). set (rem := Z.rem size0 total) in *.
  apply (for_range_ind (fun j s => s = j * base + Z.min j rem)); [lia | lia |].
  intros j s Hj ->. destruct (Z.ltb_spec j rem); lia.
Qed.

Lemma get_range_size (rank total size0 : Z) :
  SrcC.size (SrcC.get_range rank total size0)
  = Z.quot size0 total + (if rank <? Z.rem size0 total then 1 else 0).
Proof. reflexivity. Qed.

Lemma get_range_end (rank total size0 : Z) :
  SrcC.end_ (SrcC.get_range rank total size0)
  = SrcC.start (SrcC.get_range rank total size0)
    + SrcC.size (SrcC.get_range rank total size0) - 1.
Proof. reflexivity. Qed.

Lemma balanced_cut_facts (total size0 : Z) :
  0 < total <= size0 ->
  balanced_cut total size0 0 = 0 /\
  balanced_cut total size0 total = size0 /\
  (forall i, 0 <= i < total ->
             balanced_cut total size0 i < balanced_cut total size0 (i + 1)) /\
  (forall i, 0 <= i ->
     SrcC.start (SrcC.get_range i total size0) = balanced_cut total size0 i /\
     SrcC.end_ (SrcC.get_range i total size0) + 1
     = balanced_cut total size0 (i + 1)).
Proof.
  intros [Ht Hs]. unfold balanced_cut.
  pose proof (Z.rem_bound_pos size0 total ltac:(lia) Ht) as Hrem.
  pose proof (Z.quot_rem' size0 total) as Hqr.
  assert (Hbase : 1 <= Z.quot size0 total).
  { apply Z.quot_le_lower_bound; lia. }
  set (base := Z.quot size0 total) in *. set (rem := Z.rem size0 total) in *.
  repeat split.
  - lia.
  - lia.
  - intros i Hi. lia.
  - apply get_range_start; lia.
  - rewrite get_range_end, get_range_size, get_range_start by lia.
    fold base rem. destruct (Z.ltb_spec i rem); lia.
Qed.

Lemma tail_cut_facts (p n : Z) :
  0 < p <= n ->
  tail_cut p n 0 = 0 /\
  tail_cut p n p = n /\
  (forall i, 0 <= i < p -> tail_cut p n i < tail_cut p n (i + 1)) /\
  (forall i, 0 <= i < p ->
     OneC.axis_start i p n = tail_cut p n i /\
     OneC.axis_end i p n = tail_cut p n (i + 1)).
Proof.
  intros [Hp Hn]. unfold tail_cut, OneC.axis_end, OneC.axis_start.
  pose proof (Z.rem_bound_pos n p ltac:(lia) Hp) as Hrem.
  pose proof (Z.quot_rem' n p) as Hqr.
  assert (Hbase : 1 <= Z.quot n p) by (apply Z.quot_le_lower_bound; lia).
  set (b := Z.quot n p) in *.
  repeat split.
  - destruct (Z.eqb_spec 0 p); lia.
  - rewrite Z.eqb_refl. reflexivity.
  - intros i Hi.
    destruct (Z.eqb_spec i p); [lia|].
    destruct (Z.eqb_spec (i + 1) p); [nia | lia].
  - destruct (Z.eqb_spec i p); lia.
  - destruct (Z.eqb_spec (i + 1) p); lia.
Qed.

Lemma partitions_of_cuts (p n : Z) (f lo hi : Z -> Z) :
  0 < p ->
  f 0 = 0 -> f p = n ->
  (forall i, 0 <= i < p -> f i < f (i + 1)) ->
  (forall i, 0 <= i < p -> lo i = f i /\ hi i = f (i + 1)) ->
  partitions p n lo hi.
Proof.
  intros Hp H0 Hlast Hstep Hcut.
  assert (Hmono := chain_increasing f p Hstep).
  unfold partitions. repeat split.
  - intros i Hi. destruct (Hcut i Hi) as [-> ->]. auto.
  - destruct (Hcut 0 ltac:(lia)) as [-> _]. exact H0.
  - destruct (Hcut (p - 1) ltac:(lia)) as [_ ->].
    replace (p - 1 + 1) with p by lia. exact Hlast.
  - intros i Hi. destruct (Hcut i ltac:(lia)) as [_ ->].
    destruct (Hcut (i + 1) ltac:(lia)) as [-> _]. reflexivity.
  - intros i j Hi Hj Hne g [Hgi Hgj].
    destruct (Hcut i Hi) as [Hli Hhi]. destruct (Hcut j Hj) as [Hlj Hhj].
    rewrite Hli, Hhi in Hgi. rewrite Hlj, Hhj in Hgj.
    destruct (Z_lt_ge_dec i j).
    + pose proof (Hmono (i + 1) j ltac:(lia) ltac:(lia) ltac:(lia)). lia.
    + pose proof (Hmono (j + 1) i ltac:(lia) ltac:(lia) ltac:(lia)). lia.
  - intros Hg.
    destruct (chain_locate f p ltac:(lia)
                (fun i Hi => Z.lt_le_incl _ _ (Hstep i Hi)) g ltac:(lia))
      as (i & Hi & Hgi).
    exists i. destruct (Hcut i Hi) as [-> ->]. auto.
  - destruct H as (i & Hi & Hgi). destruct (Hcut i Hi) as [Hl _]. 
    pose proof (Hmono 0 i ltac:(lia) ltac:(lia) ltac:(lia)). lia.
  - destruct H as (i & Hi & Hgi). destruct (Hcut i Hi) as [_ Hh].
    pose proof (Hmono (i + 1) p ltac:(lia) ltac:(lia) ltac:(lia)). lia.
Qed.

(** C4 (partition coverage).  For [axisExtent >= numWorkers > 0] the blocks
    of the workers [0 <= i < numWorkers] along one axis are non-empty,
    contiguous, pairwise disjoint half-open intervals whose union is exactly
    [[0, axisExtent)]: both for [get_range] of src.c (balanced policy; its
    [end] is inclusive, so the interval is [[start, end + 1)]) and for the
    block computation of 1.c (tail-heavy policy). *)
Theorem partition_coverage (axisExtent numWorkers : Z) :
  0 < numWorkers <= axisExtent ->
  partitions numWorkers axisExtent
    (fun i => SrcC.start (SrcC.get_range i numWorkers axisExtent))
    (fun i => SrcC.end_ (SrcC.get_range i numWorkers axisExtent) + 1)
  /\
  partitions numWorkers axisExtent
    (fun i => OneC.axis_start i numWorkers axisExtent)
    (fun i => OneC.axis_end i numWorkers axisExtent).
Proof.
  intros H. split.
  - destruct (balanced_cut_facts numWorkers axisExtent H)
      as (H0 & Hl & Hs & Hc).
    apply (partitions_of_cuts _ _ (balanced_cut numWorkers axisExtent));
      auto; try lia.
    intros i Hi. apply Hc. lia.
  - destruct (tail_cut_facts numWorkers axisExtent H) as (H0 & Hl & Hs & Hc).
    apply (partitions_of_cuts _ _ (tail_cut numWorkers axisExtent));
      auto; lia.
Qed.

Lemma partition_coverage_witness :
  partitions 3 10
    (fun i => SrcC.start (SrcC.get_range i 3 10))
    (fun i => SrcC.end_ (SrcC.get_range i 3 10) + 1)
  /\
  partitions 3 10
    (fun i => OneC.axis_start i 3 10)
    (fun i => OneC.axis_end i 3 10).
Proof. apply (partition_coverage 10 3). lia. Defined.

(** ** The neighbour tests of 1.c *)

(** The guard of [is_min] and [is_max] once the loop body has declared
    [nx], [ny], [nz]: each upper bound compares a coordinate with itself. *)
Lemma self_bounded_guard (a b c : Z) :
  (a <? 0) || (a >=? a) || (b <? 0) || (b >=? b) || (c <? 0) || (c >=? c)
  = true.
Proof.
  assert (Ha : (a >=? a) = true) by (rewrite Z.geb_leb; apply Z.leb_refl).
  rewrite Ha, orb_true_r. reflexivity.
Qed.

(** C9 (shadowed extents in 1.c).  In [is_min] and [is_max] the neighbour
    coordinates declared in the loop body hide the extents [nx], [ny],
    [nz], so the bounds guard holds for each of the six neighbours, none of
    them is compared, and both functions return 1 for every field, point,
    extent and timestep. *)
Theorem shadowed_extents_accept_every_point
        (data : buf) (x y z nx ny nz t nt : Z) :
  OneC.is_min data x y z nx ny nz t nt = 1 /\
  OneC.is_max data x y z nx ny nz t nt = 1.
Proof.
  unfold OneC.is_min, OneC.is_max, OneC.nbrs.
  split; repeat rewrite self_bounded_guard; reflexivity.
Qed.

(** ** Extrema detector *)

Section SrcFlags.
Variables (xl yl zl : Z) (xr yr zr : SrcC.Range) (NX NY NZ : Z).
Variable halo : SrcC.halo3.


(** The loop over the neighbours only ever clears the flags. *)
Lemma flags_fold (val : Z) (l : list (Z * Z * Z)) (a b : bool) :
  fold_left
    (fun '(is_min, is_max) n =>
       if SrcC.skipped xl yl zl xr yr zr NX NY NZ n then (is_min, is_max)
       else
         let '(ni, nj, nk) := n in
         let nval := halo ni nj nk in
         ((if nval <=? val then false else is_min),
          (if nval >=? val then false else is_max)))
    l (a, b)
  = (a && forallb (fun n => SrcC.skipped xl yl zl xr yr zr NX NY NZ n
                           || (val <? halo_at halo n)) l,
     b && forallb (fun n => SrcC.skipped xl yl zl xr yr zr NX NY NZ n
                           || (halo_at halo n <? val)) l).
Proof.
  revert a b. induction l as [|n l IH]; intros a b.
  - cbn. now rewrite !andb_true_r.
  - cbn [fold_left forallb]. unfold halo_at at 1 3.
    destruct n as [[ni nj] nk].
    destruct (SrcC.skipped xl yl zl xr yr zr NX NY NZ (ni, nj, nk)) eqn:Hs.
    + rewrite IH. reflexivity.
    + rewrite IH. cbn [orb].
      rewrite Z.geb_leb.
      destruct (Z.leb_spec (halo ni nj nk) val),
               (Z.leb_spec val (halo ni nj nk)),
               (Z.ltb_spec val (halo ni nj nk)),
               (Z.ltb_spec (halo ni nj nk) val);
        try lia; cbn; now rewrite ?andb_false_r, ?andb_true_r.
Qed.

(** Around an owned cell the guard skips exactly the neighbours outside
    the global domain. *)
Lemma skipped_iff (i j k : Z) (n : Z * Z * Z) :
  1 <= i <= xl -> 1 <= j <= yl -> 1 <= k <= zl ->
  In n (SrcC.neighbors i j k) ->
  (SrcC.skipped xl yl zl xr yr zr NX NY NZ n = false <->
   present xr yr zr NX NY NZ n).
Proof.
  intros Hi Hj Hk Hn. unfold SrcC.skipped, present.
  destruct n as [[ni nj] nk].
  assert (Hb : 0 <= ni <= xl + 1 /\ 0 <= nj <= yl + 1 /\ 0 <= nk <= zl + 1).
  { cbn in Hn.
    repeat (destruct Hn as [Hn|Hn]; [inversion Hn; subst; lia|]).
    contradiction. }
  rewrite !orb_false_iff, !Z.geb_leb, !Z.ltb_ge, !Z.leb_gt. lia.
Qed.

Lemma point_flags_min (i j k : Z) :
  1 <= i <= xl -> 1 <= j <= yl -> 1 <= k <= zl ->
  (fst (SrcC.point_flags xl yl zl xr yr zr NX NY NZ halo i j k) = true <->
   forall n, In n (SrcC.neighbors i j k) ->
             present xr yr zr NX NY NZ n -> halo i j k < halo_at halo n).
Proof.
  intros Hi Hj Hk. unfold SrcC.point_flags. rewrite flags_fold.
  cbn [fst andb]. rewrite forallb_forall. split.
  - intros H n Hn Hp. specialize (H n Hn).
    apply (skipped_iff i j k n Hi Hj Hk Hn) in Hp. rewrite Hp in H.
    now apply Z.ltb_lt.
  - intros H n Hn. destruct (SrcC.skipped xl yl zl xr yr zr NX NY NZ n) eqn:Hs; [reflexivity|].
    apply Z.ltb_lt, H; [exact Hn|].
    now apply (skipped_iff i j k n Hi Hj Hk Hn).
Qed.

Lemma point_flags_max (i j k : Z) :
  1 <= i <= xl -> 1 <= j <= yl -> 1 <= k <= zl ->
  (snd (SrcC.point_flags xl yl zl xr yr zr NX NY NZ halo i j k) = true <->
   forall n, In n (SrcC.neighbors i j k) ->
             present xr yr zr NX NY NZ n -> halo i j k > halo_at halo n).
Proof.
  intros Hi Hj Hk. unfold SrcC.point_flags. rewrite flags_fold.
  cbn [snd andb]. rewrite forallb_forall. split.
  - intros H n Hn Hp. specialize (H n Hn).
    apply (skipped_iff i j k n Hi Hj Hk Hn) in Hp. rewrite Hp in H.
    apply Z.ltb_lt in H. lia.
  - intros H n Hn. destruct (SrcC.skipped xl yl zl xr yr zr NX NY NZ n) eqn:Hs; [reflexivity|].
    apply Z.ltb_lt. apply Z.gt_lt, H; [exact Hn|].
    now apply (skipped_iff i j k n Hi Hj Hk Hn).
Qed.
End SrcFlags.

(** A property of the six neighbours, one neighbour at a time. *)
Lemma forall_neighbors (P : Z * Z * Z -> Prop) (x y z : Z) :
  (forall n, In n (SrcC.neighbors x y z) -> P n) <->
  P (x - 1, y, z) /\ P (x + 1, y, z) /\ P (x, y - 1, z) /\ P (x, y + 1, z)
  /\ P (x, y, z - 1) /\ P (x, y, z + 1).
Proof.
  unfold SrcC.neighbors. split.
  - intros H. repeat split; apply H; cbn; tauto.
  - intros (H1 & H2 & H3 & H4 & H5 & H6) n Hn. cbn in Hn.
    repeat (destruct Hn as [<-|Hn]; [assumption|]). contradiction.
Qed.

Section Pankaj2Checks.
Variables (data : buf) (x y z width height depth : Z).
Hypothesis Hx : 0 <= x < width.
Hypothesis Hy : 0 <= y < height.
Hypothesis Hz : 0 <= z < depth.

Lemma cell_neighbors :
  let idx := Pankaj2C.threeD_To_oneD x y z width height depth in
  cell data width height depth (x - 1, y, z) = data (idx - 1) /\
  cell data width height depth (x + 1, y, z) = data (idx + 1) /\
  cell data width height depth (x, y - 1, z) = data (idx - width) /\
  cell data width height depth (x, y + 1, z) = data (idx + width) /\
  cell data width height depth (x, y, z - 1) = data (idx - height * width) /\
  cell data width height depth (x, y, z + 1) = data (idx + height * width).
Proof.
  intros idx. subst idx. unfold cell, Pankaj2C.threeD_To_oneD.
  repeat split; f_equal; ring.
Qed.

(** One of the six tests: it leaves the flag alone exactly when the
    neighbour is missing or not on the wrong side of [val]. *)
Lemma test_passes (g : bool) (P : Prop) (v val : Z) :
  (g = true <-> P) ->
  ((g && (v <? val) = false <-> (P -> val <= v)) /\
   (g && (v >? val) = false <-> (P -> val >= v))).
Proof.
  intros Hg. rewrite Z.gtb_ltb.
  destruct g; cbn [andb]; rewrite ?Z.ltb_ge; intuition (try lia; try easy).
Qed.

Lemma guards :
  ((x >? 0) = true <-> inside width height depth (x - 1, y, z)) /\
  ((x <? width - 1) = true <-> inside width height depth (x + 1, y, z)) /\
  ((y >? 0) = true <-> inside width height depth (x, y - 1, z)) /\
  ((y <? height - 1) = true <-> inside width height depth (x, y + 1, z)) /\
  ((z >? 0) = true <-> inside width height depth (x, y, z - 1)) /\
  ((z <? depth - 1) = true <-> inside width height depth (x, y, z + 1)).
Proof.
  unfold inside. rewrite !Z.gtb_ltb, !Z.ltb_lt. lia.
Qed.

(** [checkLocalMinima] accepts a point exactly when no neighbour inside
    the buffer is strictly smaller. *)
Lemma checkLocalMinima_spec :
  Pankaj2C.checkLocalMinima data x y z width height depth = true <->
  forall n, In n (SrcC.neighbors x y z) -> inside width height depth n ->
            cell data width height depth (x, y, z)
            <= cell data width height depth n.
Proof.
  rewrite forall_neighbors.
  destruct cell_neighbors as (-> & -> & -> & -> & -> & ->).
  destruct guards as (G1 & G2 & G3 & G4 & G5 & G6).
  unfold Pankaj2C.checkLocalMinima.
  set (idx := Pankaj2C.threeD_To_oneD x y z width height depth).
  change (cell data width height depth (x, y, z)) with (data idx).
  cbv zeta.
  destruct (proj1 (test_passes _ _ (data (idx - 1)) (data idx) G1)) as [A1 B1].
  destruct (proj1 (test_passes _ _ (data (idx + 1)) (data idx) G2)) as [A2 B2].
  destruct (proj1 (test_passes _ _ (data (idx - width)) (data idx) G3))
    as [A3 B3].
  destruct (proj1 (test_passes _ _ (data (idx + width)) (data idx) G4))
    as [A4 B4].
  destruct (proj1 (test_passes _ _ (data (idx - height * width)) (data idx) G5))
    as [A5 B5].
  destruct (proj1 (test_passes _ _ (data (idx + height * width)) (data idx) G6))
    as [A6 B6].
  split.
  - intros H.
    repeat match type of H with
           | (if ?c then false else _) = true =>
               destruct c eqn:?; [discriminate|]
           end.
    auto 10.
  - intros (H1 & H2 & H3 & H4 & H5 & H6).
    rewrite (B1 H1), (B2 H2), (B3 H3), (B4 H4), (B5 H5), (B6 H6).
    reflexivity.
Qed.

(** [checkLocalMaxima] accepts a point exactly when no neighbour inside
    the buffer is strictly greater. *)
Lemma checkLocalMaxima_spec :
  Pankaj2C.checkLocalMaxima data x y z width height depth = true <->
  forall n, In n (SrcC.neighbors x y z) -> inside width height depth n ->
            cell data width height depth (x, y, z)
            >= cell data width height depth n.
Proof.
  rewrite forall_neighbors.
  destruct cell_neighbors as (-> & -> & -> & -> & -> & ->).
  destruct guards as (G1 & G2 & G3 & G4 & G5 & G6).
  unfold Pankaj2C.checkLocalMaxima.
  set (idx := Pankaj2C.threeD_To_oneD x y z width height depth).
  change (cell data width height depth (x, y, z)) with (data idx).
  cbv zeta.
  destruct (proj2 (test_passes _ _ (data (idx - 1)) (data idx) G1)) as [A1 B1].
  destruct (proj2 (test_passes _ _ (data (idx + 1)) (data idx) G2)) as [A2 B2].
  destruct (proj2 (test_passes _ _ (data (idx - width)) (data idx) G3))
    as [A3 B3].
  destruct (proj2 (test_passes _ _ (data (idx + width)) (data idx) G4))
    as [A4 B4].
  destruct (proj2 (test_passes _ _ (data (idx - height * width)) (data idx) G5))
    as [A5 B5].
  destruct (proj2 (test_passes _ _ (data (idx + height * width)) (data idx) G6))
    as [A6 B6].
  split.
  - intros H.
    repeat match type of H with
           | (if ?c then false else _) = true =>
               destruct c eqn:?; [discriminate|]
           end.
    auto 10.
  - intros (H1 & H2 & H3 & H4 & H5 & H6).
    rewrite (B1 H1), (B2 H2), (B3 H3), (B4 H4), (B5 H5), (B6 H6).
    reflexivity.
Qed.
End Pankaj2Checks.

(** C1 (classification rule), as the programs have it.  In src.c an owned
    halo cell is flagged a local minimum exactly when its value is strictly
    less than the value of each of its six neighbours that lies inside the
    global domain, and a local maximum exactly when it is strictly greater;
    neighbours outside the global domain are skipped.  In pankaj_code2.c
    [checkLocalMinima] ([checkLocalMaxima]) accepts a point exactly when no
    neighbour inside the local buffer is strictly smaller (greater): a tie
    does not disqualify. *)
Theorem detector_classification
        (xl yl zl : Z) (xr yr zr : SrcC.Range) (NX NY NZ : Z)
        (halo : SrcC.halo3) (i j k : Z)
        (data : buf) (x y z width height depth : Z) :
  1 <= i <= xl -> 1 <= j <= yl -> 1 <= k <= zl ->
  0 <= x < width -> 0 <= y < height -> 0 <= z < depth ->
  (fst (SrcC.point_flags xl yl zl xr yr zr NX NY NZ halo i j k) = true <->
   forall n, In n (SrcC.neighbors i j k) -> present xr yr zr NX NY NZ n ->
             halo i j k < halo_at halo n)
  /\
  (snd (SrcC.point_flags xl yl zl xr yr zr NX NY NZ halo i j k) = true <->
   forall n, In n (SrcC.neighbors i j k) -> present xr yr zr NX NY NZ n ->
             halo i j k > halo_at halo n)
  /\
  (Pankaj2C.checkLocalMinima data x y z width height depth = true <->
   forall n, In n (SrcC.neighbors x y z) -> inside width height depth n ->
             cell data width height depth (x, y, z)
             <= cell data width height depth n)
  /\
  (Pankaj2C.checkLocalMaxima data x y z width height depth = true <->
   forall n, In n (SrcC.neighbors x y z) -> inside width height depth n ->
             cell data width height depth (x, y, z)
             >= cell data width height depth n).
Proof.
  intros Hi Hj Hk Hx Hy Hz. repeat split.
  - apply point_flags_min; assumption.
  - apply point_flags_min; assumption.
  - apply point_flags_max; assumption.
  - apply point_flags_max; assumption.
  - apply checkLocalMinima_spec; assumption.
  - apply checkLocalMinima_spec; assumption.
  - apply checkLocalMaxima_spec; assumption.
  - apply checkLocalMaxima_spec; assumption.
Qed.

Lemma detector_classification_witness :
  let xr := SrcC.mkRange 0 1 2 in
  let r1 := SrcC.mkRange 0 0 1 in
  let halo : SrcC.halo3 := fun i _ _ => i in
  let data := of_list [1; 1] in
  (fst (SrcC.point_flags 2 1 1 xr r1 r1 2 1 1 halo 1 1 1) = true <->
   forall n, In n (SrcC.neighbors 1 1 1) -> present xr r1 r1 2 1 1 n ->
             halo 1 1 1 < halo_at halo n)
  /\
  (snd (SrcC.point_flags 2 1 1 xr r1 r1 2 1 1 halo 1 1 1) = true <->
   forall n, In n (SrcC.neighbors 1 1 1) -> present xr r1 r1 2 1 1 n ->
             halo 1 1 1 > halo_at halo n)
  /\
  (Pankaj2C.checkLocalMinima data 0 0 0 2 1 1 = true <->
   forall n, In n (SrcC.neighbors 0 0 0) -> inside 2 1 1 n ->
             cell data 2 1 1 (0, 0, 0) <= cell data 2 1 1 n)
  /\
  (Pankaj2C.checkLocalMaxima data 0 0 0 2 1 1 = true <->
   forall n, In n (SrcC.neighbors 0 0 0) -> inside 2 1 1 n ->
             cell data 2 1 1 (0, 0, 0) >= cell data 2 1 1 n).
Proof.
  intros xr r1 halo data.
  apply (detector_classification 2 1 1 xr r1 r1 2 1 1 halo 1 1 1
                                 data 0 0 0 2 1 1); lia.
Defined.

(** [checkLocalMinima] of pankaj_code2.c on the two-point buffer [1, 1]:
    the first point ties with its only neighbour and is accepted as a
    minimum all the same, so the strict rule fails there. *)
Lemma tie_accepted_as_minimum :
  let data := of_list [1; 1] in
  ~ (Pankaj2C.checkLocalMinima data 0 0 0 2 1 1 = true <->
     forall n, In n (SrcC.neighbors 0 0 0) -> inside 2 1 1 n ->
               cell data 2 1 1 (0, 0, 0) < cell data 2 1 1 n).
Proof.
  intros data [H _].
  specialize (H eq_refl (1, 0, 0)).
  assert (Hlt : cell data 2 1 1 (0, 0, 0) < cell data 2 1 1 (1, 0, 0)).
  { apply H; [cbn; tauto | unfold inside; lia]. }
  vm_compute in Hlt. discriminate.
Qed.

(** src.c on one worker and the 3 x 1 x 2 field 5, 6, 1 / 7, 8, 9 (x
    fastest), one timestep.  The points (0, 0, 0) and (2, 0, 0), with the
    values 5 and 1, are both strictly below their neighbours, yet one
    minimum is counted: the fill loop runs over [i], [j], [k] while
    [sub_data] is laid out z, y, x, so with [x_local <> z_local] the cells
    next to each other in the halo block are not neighbours in the
    field. *)
Lemma fill_order_scrambles_neighbours :
  let c := SrcC.mkConfig 1 1 1 3 1 2 1 1 in
  let global_data : rows :=
    fun p => of_list [nth (Z.to_nat p) [5; 6; 1; 7; 8; 9] 0] in
  let v x z := value_at c global_data x 0 z 0 in
  (v 0 0 < v 1 0 /\ v 0 0 < v 0 1) /\
  (v 2 0 < v 1 0 /\ v 2 0 < v 2 1) /\
  option_map SrcC.total_mins (SrcC.global_result c global_data 0) = Some 1 /\
  option_map (fun h => (h 1 1 1, h 2 1 1, h 1 1 2))
             (SrcC.halo_of c global_data 0 0) = Some (5, 1, 6).
Proof. vm_compute. repeat split. Qed.

(** ** Flat fields *)

Section FlatHalo.
Variables (xl yl zl : Z) (xr yr zr : SrcC.Range) (NX NY NZ : Z).
Variables (halo : SrcC.halo3) (v : Z).
Hypothesis Hx0 : 0 <= SrcC.start xr.
Hypothesis Hx1 : SrcC.start xr + xl <= NX.
Hypothesis Hy0 : 0 <= SrcC.start yr.
Hypothesis Hy1 : SrcC.start yr + yl <= NY.
Hypothesis Hz0 : 0 <= SrcC.start zr.
Hypothesis Hz1 : SrcC.start zr + zl <= NZ.
Hypothesis Hmany : 1 < NX \/ 1 < NY \/ 1 < NZ.
Hypothesis Hflat :
  forall n, present xr yr zr NX NY NZ n -> halo_at halo n = v.

(** An owned cell of a domain with more than one point has a neighbour
    inside the domain. *)
Lemma some_neighbor_present (i j k : Z) :
  1 <= i <= xl -> 1 <= j <= yl -> 1 <= k <= zl ->
  exists n, In n (SrcC.neighbors i j k) /\ present xr yr zr NX NY NZ n.
Proof.
  intros Hi Hj Hk. unfold SrcC.neighbors, present.
  destruct Hmany as [H|[H|H]].
  - destruct (Z_lt_ge_dec 0 (SrcC.start xr + i - 1)).
    + exists (i - 1, j, k). split; [cbn; tauto | lia].
    + exists (i + 1, j, k). split; [cbn; tauto | lia].
  - destruct (Z_lt_ge_dec 0 (SrcC.start yr + j - 1)).
    + exists (i, j - 1, k). split; [cbn; tauto | lia].
    + exists (i, j + 1, k). split; [cbn; tauto | lia].
  - destruct (Z_lt_ge_dec 0 (SrcC.start zr + k - 1)).
    + exists (i, j, k - 1). split; [cbn; tauto | lia].
    + exists (i, j, k + 1). split; [cbn; tauto | lia].
Qed.

Lemma flat_point_flags (i j k : Z) :
  1 <= i <= xl -> 1 <= j <= yl -> 1 <= k <= zl ->
  SrcC.point_flags xl yl zl xr yr zr NX NY NZ halo i j k = (false, false).
Proof.
  intros Hi Hj Hk.
  destruct (some_neighbor_present i j k Hi Hj Hk) as (n & Hn & Hp).
  assert (Hown : halo i j k = v).
  { apply (Hflat (i, j, k)). unfold present. lia. }
  pose proof (Hflat n Hp) as Hnv.
  destruct (SrcC.point_flags xl yl zl xr yr zr NX NY NZ halo i j k)
    as [fmin fmax] eqn:Hf.
  pose proof (point_flags_min xl yl zl xr yr zr NX NY NZ halo i j k Hi Hj Hk)
    as Hmin.
  pose proof (point_flags_max xl yl zl xr yr zr NX NY NZ halo i j k Hi Hj Hk)
    as Hmax.
  rewrite Hf in Hmin, Hmax. cbn [fst snd] in Hmin, Hmax.
  destruct fmin.
  - pose proof (proj1 Hmin eq_refl n Hn Hp). lia.
  - destruct fmax; [|reflexivity].
    pose proof (proj1 Hmax eq_refl n Hn Hp). lia.
Qed.

Lemma flat_classify :
  SrcC.cnt_min (SrcC.classify xl yl zl xr yr zr NX NY NZ halo) = 0 /\
  SrcC.cnt_max (SrcC.classify xl yl zl xr yr zr NX NY NZ halo) = 0.
Proof.
  unfold SrcC.classify.
  apply (for_range_inv (fun acc => SrcC.cnt_min acc = 0 /\ SrcC.cnt_max acc = 0));
    [cbn; auto|].
  intros i acc Hi Hacc.
  apply for_range_inv; [exact Hacc|].
  intros j acc' Hj Hacc'.
  apply for_range_inv; [exact Hacc'|].
  intros k acc'' Hk Hacc''.
  rewrite flat_point_flags by lia. cbn. exact Hacc''.
Qed.
End FlatHalo.





(** ** The timestep loop of pankaj_code2.c *)

Section Pankaj2Timesteps.
Variables (g : Pankaj2C.Geometry) (localData : buf).

Lemma scan_point_rel (t : Z) (r0 : Pankaj2C.Results) (z y x : Z) s q :
  scan_rel t r0 s q ->
  scan_rel t r0 (Pankaj2C.scan_point g localData t z y x s)
           (tally_point g localData z y x q).
Proof.
  destruct s as [[r cm] cM]. intros (-> & Hother & Hcm & HcM).
  unfold Pankaj2C.scan_point, tally_point, scan_rel.
  match goal with |- context [if ?c then _ else _] => destruct c end.
  - cbv zeta. cbn [Pankaj2C.subDomainMinValues Pankaj2C.subDomainMaxValues
                   Pankaj2C.localMinimaCount Pankaj2C.localMaximaCount].
    repeat split; try assumption.
    + repeat f_equal.
      * destruct (_ <? _); [now rewrite upd_same | reflexivity].
      * destruct (_ >? _); [now rewrite upd_same | reflexivity].
    + destruct (_ <? _); [rewrite upd_other by assumption|];
        apply Hother; assumption.
    + destruct (_ >? _); [rewrite upd_other by assumption|];
        apply Hother; assumption.
  - repeat split; try assumption; apply Hother; assumption.
Qed.

(** One timestep: the entries of [t] become what the scalar scan computes
    from the value extremes stored for [t]; the other entries stay. *)
Lemma scan_timestep_spec (t : Z) (r : Pankaj2C.Results) :
  entries (Pankaj2C.scan_timestep g localData t r) t
  = tally_from g localData
      (Pankaj2C.subDomainMinValues r t, Pankaj2C.subDomainMaxValues r t, 0, 0)
  /\
  forall u, u <> t ->
            entries (Pankaj2C.scan_timestep g localData t r) u = entries r u.
Proof.
  unfold Pankaj2C.scan_timestep, tally_from.
  match goal with
  | |- context [for_range 0 ?hz ?f (r, 0, 0)] =>
      assert (H : scan_rel t r (for_range 0 hz f (r, 0, 0))
                    (for_range 0 hz (fun z =>
                       for_range 0
                         (Pankaj2C.tempEndY g - Pankaj2C.tempStartY g + 1)
                         (fun y =>
                            for_range 0
                              (Pankaj2C.tempEndX g - Pankaj2C.tempStartX g + 1)
                              (fun x => tally_point g localData z y x)))
                       (Pankaj2C.subDomainMinValues r t,
                        Pankaj2C.subDomainMaxValues r t, 0, 0)));
      [| destruct (for_range 0 hz f (r, 0, 0)) as [[r' cm] cM] ]
  end.
  { apply for_range_rel.
    - unfold scan_rel. repeat split; reflexivity.
    - intros z s q _ Hs. apply for_range_rel; [exact Hs|].
      intros y s' q' _ Hs'. apply for_range_rel; [exact Hs'|].
      intros x s'' q'' _ Hs''. apply scan_point_rel. exact Hs''. }
  destruct H as (Hq & Hother & Hcm & HcM).
  unfold entries.
  cbn [Pankaj2C.subDomainMinValues Pankaj2C.subDomainMaxValues
       Pankaj2C.localMinimaCount Pankaj2C.localMaximaCount].
  split.
  - rewrite Hq, !upd_same. reflexivity.
  - intros u Hu. rewrite !upd_other by assumption.
    destruct (Hother u Hu) as [-> ->]. rewrite Hcm, HcM. reflexivity.
Qed.

Lemma init_results_spec (ts t : Z) :
  0 <= t < ts ->
  Pankaj2C.subDomainMinValues (Pankaj2C.init_results ts) t = DBL_MAX /\
  Pankaj2C.subDomainMaxValues (Pankaj2C.init_results ts) t = - DBL_MAX.
Proof.
  intros Ht. unfold Pankaj2C.init_results.
  apply (for_range_ind
           (fun j r => forall u, 0 <= u < j ->
              Pankaj2C.subDomainMinValues r u = DBL_MAX /\
              Pankaj2C.subDomainMaxValues r u = - DBL_MAX));
    [lia | intros; lia | | exact Ht].
  intros j r Hj IH u Hu.
  cbn [Pankaj2C.subDomainMinValues Pankaj2C.subDomainMaxValues].
  destruct (Z.eq_dec u j) as [->|Hne].
  - now rewrite !upd_same.
  - rewrite !upd_other by assumption. apply IH. lia.
Qed.

(** After the loop over the timesteps every timestep has the same four
    entries: those of the scalar scan from the initial extremes. *)
Lemma compute_entries (ts t : Z) :
  0 <= t < ts ->
  entries (Pankaj2C.compute g ts localData) t
  = tally_from g localData (DBL_MAX, - DBL_MAX, 0, 0).
Proof.
  intros Ht. unfold Pankaj2C.compute.
  apply (for_range_ind
           (fun j r =>
              (forall u, 0 <= u < j ->
                 entries r u
                 = tally_from g localData (DBL_MAX, - DBL_MAX, 0, 0)) /\
              (forall u, j <= u < ts ->
                 Pankaj2C.subDomainMinValues r u = DBL_MAX /\
                 Pankaj2C.subDomainMaxValues r u = - DBL_MAX)));
    [lia | | | exact Ht].
  - split; [intros; lia|]. intros u Hu. apply init_results_spec. lia.
  - intros j r Hj [Hdone Htodo].
    destruct (scan_timestep_spec j r) as [Hj' Hother].
    split.
    + intros u Hu. destruct (Z.eq_dec u j) as [->|Hne].
      * rewrite Hj'. destruct (Htodo j ltac:(lia)) as [-> ->]. reflexivity.
      * rewrite Hother by assumption. apply Hdone. lia.
    + intros u Hu. specialize (Hother u ltac:(lia)).
      unfold entries in Hother. inversion Hother as [[H1 H2 H3 H4]].
      rewrite H1, H2. apply Htodo. lia.
Qed.
End Pankaj2Timesteps.

(** C10 (timestep-independent results of pankaj_code2.c).  For every
    content of [localData], every block geometry and every two timesteps
    [t] and [t'], the computation phase leaves the same minima count, the
    same maxima count, the same minimum value and the same maximum value
    for [t] and for [t']: the scan of a timestep reads
    [localData[threeD_To_oneD(x, y, z, ...)]] whatever the timestep. *)
Theorem results_do_not_depend_on_timestep
        (g : Pankaj2C.Geometry) (timeSteps : Z) (localData : buf) (t t' : Z) :
  0 <= t < timeSteps -> 0 <= t' < timeSteps ->
  let r := Pankaj2C.compute g timeSteps localData in
  Pankaj2C.localMinimaCount r t = Pankaj2C.localMinimaCount r t' /\
  Pankaj2C.localMaximaCount r t = Pankaj2C.localMaximaCount r t' /\
  Pankaj2C.subDomainMinValues r t = Pankaj2C.subDomainMinValues r t' /\
  Pankaj2C.subDomainMaxValues r t = Pankaj2C.subDomainMaxValues r t'.
Proof.
  intros Ht Ht' r.
  pose proof (compute_entries g localData timeSteps t Ht) as H.
  pose proof (compute_entries g localData timeSteps t' Ht') as H'.
  fold r in H, H'. rewrite <- H' in H. unfold entries in H.
  inversion H. auto.
Qed.

Lemma results_do_not_depend_on_timestep_witness :
  let g := Pankaj2C.geometry (Pankaj2C.mkConfig 1 1 1 2 1 1 2 1) 0 in
  let r := Pankaj2C.compute g 2 (of_list [1; 5; 0; 7]) in
  Pankaj2C.localMinimaCount r 0 = Pankaj2C.localMinimaCount r 1 /\
  Pankaj2C.localMaximaCount r 0 = Pankaj2C.localMaximaCount r 1 /\
  Pankaj2C.subDomainMinValues r 0 = Pankaj2C.subDomainMinValues r 1 /\
  Pankaj2C.subDomainMaxValues r 0 = Pankaj2C.subDomainMaxValues r 1.
Proof.
  intros g.
  apply (results_do_not_depend_on_timestep g 2 (of_list [1; 5; 0; 7]) 0 1);
    lia.
Defined.

(** ** Timer *)

Lemma fold_max_ge (l : list Z) (v : Z) :
  v <= fold_left Z.max l v /\ forall w, In w l -> w <= fold_left Z.max l v.
Proof.
  revert v. induction l as [|a l IH]; intros v; cbn [fold_left].
  - split; [lia | intros w []].
  - destruct (IH (Z.max v a)) as [H1 H2]. split; [lia|].
    intros w [<-|Hw]; [lia | auto].
Qed.

Lemma fold_max_in (l : list Z) (v : Z) :
  fold_left Z.max l v = v \/ In (fold_left Z.max l v) l.
Proof.
  revert v. induction l as [|a l IH]; intros v; cbn [fold_left].
  - now left.
  - destruct (IH (Z.max v a)) as [H|H].
    + rewrite H. destruct (Z.max_spec v a) as [[_ ->]|[_ ->]];
        [right; now left | now left].
    + right. now right.
Qed.

(** [reduce_max] is an upper bound of the contributions and one of them. *)
Lemma reduce_max_spec (l : list Z) :
  l <> [] ->
  (forall w, In w l -> w <= reduce_max l) /\ In (reduce_max l) l.
Proof.
  destruct l as [|v l]; [congruence|]. intros _. cbn [reduce_max].
  destruct (fold_max_ge l v) as [H1 H2]. split.
  - intros w [<-|Hw]; auto.
  - destruct (fold_max_in l v) as [->|H]; [now left | now right].
Qed.

Lemma In_ranks (size r : Z) : In r (ranks size) <-> 0 <= r < size.
Proof.
  unfold ranks. rewrite in_map_iff. split.
  - intros (k & <- & Hk). apply in_seq in Hk. lia.
  - intros Hr. exists (Z.to_nat r). split; [lia|]. apply in_seq. lia.
Qed.

Lemma reduce_max_over_workers (size : Z) (f : Z -> Z) (r : Z) :
  0 <= r < size ->
  f r <= reduce_max (map f (ranks size)) /\
  exists q, 0 <= q < size /\ reduce_max (map f (ranks size)) = f q.
Proof.
  intros Hr.
  assert (Hne : map f (ranks size) <> []).
  { intros H. apply (f_equal (@length Z)) in H.
    rewrite length_map in H. unfold ranks in H.
    rewrite length_map, length_seq in H. cbn in H. lia. }
  destruct (reduce_max_spec _ Hne) as [Hub Hin]. split.
  - apply Hub, in_map, In_ranks, Hr.
  - apply in_map_iff in Hin. destruct Hin as (q & Hq & Hin).
    exists q. split; [now apply In_ranks | now symmetry].
Qed.

(** C7 (reported timings), as the programs have it.  In 1.c each of the
    three reported timings is the maximum over all workers of the interval
    the worker measured: at least every worker's measurement, and the
    measurement of one of them.  In src.c nothing is reduced: the timing
    line is 0 for the read interval and the interval the coordinating
    worker measured itself for the other two. *)
Theorem reported_timings
        (size : Z) (read_time compute_time total_time : Z -> Z)
        (worker_time : Z -> Z) (r : Z) :
  0 <= r < size ->
  (let '(readElapsed, computeElapsed, totalElapsed) :=
     OneC.report_timings size read_time compute_time total_time in
   (read_time r <= readElapsed /\
    exists q, 0 <= q < size /\ readElapsed = read_time q) /\
   (compute_time r <= computeElapsed /\
    exists q, 0 <= q < size /\ computeElapsed = compute_time q) /\
   (total_time r <= totalElapsed /\
    exists q, 0 <= q < size /\ totalElapsed = total_time q))
  /\
  SrcC.report_timings worker_time = (0, worker_time 0, worker_time 0).
Proof.
  intros Hr. unfold OneC.report_timings. split; [|reflexivity].
  pose proof (reduce_max_over_workers size read_time r Hr).
  pose proof (reduce_max_over_workers size compute_time r Hr).
  pose proof (reduce_max_over_workers size total_time r Hr).
  auto.
Qed.

Lemma reported_timings_witness :
  let read_time := of_list [1; 2] in
  let compute_time := of_list [4; 3] in
  let total_time := of_list [5; 5] in
  let worker_time := of_list [4; 3] in
  (let '(readElapsed, computeElapsed, totalElapsed) :=
     OneC.report_timings 2 read_time compute_time total_time in
   (read_time 1 <= readElapsed /\
    exists q, 0 <= q < 2 /\ readElapsed = read_time q) /\
   (compute_time 1 <= computeElapsed /\
    exists q, 0 <= q < 2 /\ computeElapsed = compute_time q) /\
   (total_time 1 <= totalElapsed /\
    exists q, 0 <= q < 2 /\ totalElapsed = total_time q))
  /\
  SrcC.report_timings worker_time = (0, worker_time 0, worker_time 0).
Proof.
  intros read_time compute_time total_time worker_time.
  apply (reported_timings 2 read_time compute_time total_time worker_time 1).
  lia.
Defined.

(** src.c with two workers that measured 1 and 2 time units: the compute
    time written to the output is 1, less than the second worker's. *)
Lemma slowest_worker_not_reported :
  let worker_time := of_list [1; 2] in
  let '(_, computeElapsed, _) := SrcC.report_timings worker_time in
  computeElapsed < worker_time 1.
Proof. vm_compute. reflexivity. Qed.

(** ** Configuration errors *)

(** C8 (configuration errors), as src.c has it.  The start-up checks look
    at the number of arguments and at the product of the process grid, and
    at nothing else.  When the product differs from the number of workers
    every worker returns 1 from the checks, before the topology is created
    or any data is moved and without output, and the coordinating worker
    alone writes the error.  The checks are passed exactly when there are
    ten arguments and the product matches, whatever the extents: these are
    not looked at, and [get_range], which has no failure path, gives a
    worker whose coordinate is not below the extent of its axis an empty
    range. *)
Theorem configuration_check
        (argv0 : string) (argc : Z) (c : SrcC.Config) (rank : Z)
        (numWorkers axisExtent coord : Z) :
  (SrcC.PX c * SrcC.PY c * SrcC.PZ c <> SrcC.nprocs c ->
   SrcC.startup argv0 10 (SrcC.PX c) (SrcC.PY c) (SrcC.PZ c) (SrcC.nprocs c)
     rank
   = SrcC.Returned 1
       (if rank =? 0
        then ["Error: PX*PY*PZ must equal the number of processes"%string]
        else []))
  /\
  (SrcC.startup argv0 argc (SrcC.PX c) (SrcC.PY c) (SrcC.PZ c) (SrcC.nprocs c)
     rank = SrcC.Proceeds
   <-> argc = 10 /\ SrcC.PX c * SrcC.PY c * SrcC.PZ c = SrcC.nprocs c)
  /\
  (0 <= axisExtent < numWorkers -> axisExtent <= coord ->
   SrcC.size (SrcC.get_range coord numWorkers axisExtent) = 0).
Proof.
  unfold SrcC.startup. split; [|split].
  - intros H. cbn [Z.eqb negb Pos.eqb].
    destruct (Z.eqb_spec (SrcC.PX c * SrcC.PY c * SrcC.PZ c) (SrcC.nprocs c));
      [contradiction|].
    reflexivity.
  - destruct (Z.eqb_spec argc 10) as [Ha|Ha]; cbn [negb].
    + destruct (Z.eqb_spec (SrcC.PX c * SrcC.PY c * SrcC.PZ c)
                  (SrcC.nprocs c)) as [Hg|Hg]; cbn [negb].
      * tauto.
      * split; [discriminate | tauto].
    + split; [discriminate | tauto].
  - intros H Hc. rewrite get_range_size.
    rewrite Z.quot_small, Z.rem_small by lia.
    destruct (Z.ltb_spec coord axisExtent); lia.
Qed.

Lemma configuration_check_witness :
  let bad := SrcC.mkConfig 2 2 1 4 4 4 1 2 in
  SrcC.startup "./src" 10 (SrcC.PX bad) (SrcC.PY bad) (SrcC.PZ bad)
    (SrcC.nprocs bad) 0
  = SrcC.Returned 1
      ["Error: PX*PY*PZ must equal the number of processes"%string]
  /\
  (SrcC.startup "./src" 10 (SrcC.PX bad) (SrcC.PY bad) (SrcC.PZ bad)
     (SrcC.nprocs bad) 0 = SrcC.Proceeds
   <-> 10 = 10 /\ 2 * 2 * 1 = 2)
  /\
  SrcC.size (SrcC.get_range 1 2 1) = 0.
Proof.
  intros bad.
  destruct (configuration_check "./src" 10 bad 0 2 1 1) as (H1 & H2 & H3).
  split; [|split].
  - apply H1. cbn. lia.
  - exact H2.
  - apply H3; lia.
Defined.

(** src.c started on two workers with PX = 2, PY = PZ = 1 on a field of
    extent 1 along x, the single point holding 4: the second worker owns
    no point, yet every worker passes the start-up checks, and the run
    delivers a result for the timestep, one minimum and one maximum with
    the extremes 4 and 4. *)
Lemma undersized_axis_not_rejected :
  let c := SrcC.mkConfig 2 1 1 1 1 1 1 2 in
  let global_data : rows := fun _ => of_list [4] in
  SrcC.x_local c 1 = 0 /\
  (forall rank,
     SrcC.startup "./src" 10 (SrcC.PX c) (SrcC.PY c) (SrcC.PZ c)
       (SrcC.nprocs c) rank = SrcC.Proceeds) /\
  SrcC.global_result c global_data 0 = Some (SrcC.mkGlobal 1 1 4 4).
Proof.
  intros c global_data. split; [reflexivity|]. split.
  - intros rank. reflexivity.
  - vm_compute. reflexivity.
Qed.

(** The same run through [main], the input file holding the one number
    and the output file being writable: both workers run to the end, the
    coordinating worker with the result above and the timing line. *)
Lemma undersized_axis_run :
  let c := SrcC.mkConfig 2 1 1 1 1 1 1 2 in
  let files := SrcC.mkFiles (Some [4]) true in
  let worker_time : Z -> Z := fun _ => 1 in
  SrcC.main "./src" 10 c files worker_time 0
  = SrcC.Finished (Some ([SrcC.mkGlobal 1 1 4 4], (0, 1, 1))) /\
  SrcC.main "./src" 10 c files worker_time 1 = SrcC.Finished None.
Proof. vm_compute. split; reflexivity. Qed.

(** A run that passes the start-up checks need not finish: on two workers
    along x with blocks of 1 x 2 x 2 points the exchange runs past the end
    of a halo row, and with an empty input file the coordinating worker
    aborts the run. *)
Lemma runs_after_the_checks :
  let c := SrcC.mkConfig 2 1 1 2 2 2 1 2 in
  let worker_time : Z -> Z := fun _ => 1 in
  SrcC.main "./src" 10 c (SrcC.mkFiles (Some [1; 2; 3; 4; 5; 6; 7; 8]) true)
    worker_time 0 = SrcC.Undefined /\
  SrcC.main "./src" 10 c (SrcC.mkFiles (Some []) true) worker_time 0
  = SrcC.Aborted SrcC.InputNotRead.
Proof. vm_compute. split; reflexivity. Qed.

(** ** Halo exchange *)

Lemma upd3_same (h : SrcC.halo3) (i j k v : Z) :
  SrcC.upd3 h i j k v i j k = v.
Proof. unfold SrcC.upd3. now rewrite !Z.eqb_refl. Qed.

Lemma upd3_other (h : SrcC.halo3) (i j k v i' j' k' : Z) :
  (i', j', k') <> (i, j, k) ->
  SrcC.upd3 h i j k v i' j' k' = h i' j' k'.
Proof.
  intros H. unfold SrcC.upd3.
  destruct (Z.eqb_spec i' i), (Z.eqb_spec j' j), (Z.eqb_spec k' k);
    try reflexivity.
  subst. contradiction.
Qed.

(** The allocation loop sets every cell of the block to [FLT_MAX]. *)
Lemma halo_alloc_spec (xl yl zl i j k : Z) :
  0 <= i < xl + 2 -> 0 <= j < yl + 2 -> 0 <= k < zl + 2 ->
  SrcC.halo_alloc xl yl zl i j k = FLT_MAX.
Proof.
  intros Hi Hj Hk. unfold SrcC.halo_alloc.
  pose (I := fun (n : Z) (h : SrcC.halo3) =>
               forall i j k,
                 0 <= i < xl + 2 -> 0 <= j < yl + 2 -> 0 <= k < zl + 2 ->
                 count3 0 0 0 (yl + 2 - 0) (zl + 2 - 0) i j k < n ->
                 h i j k = FLT_MAX).
  assert (H : I ((xl + 2 - 0) * (yl + 2 - 0) * (zl + 2 - 0))
                (for_range 0 (xl + 2) (fun i =>
                 for_range 0 (yl + 2) (fun j =>
                 for_range 0 (zl + 2) (fun k halo =>
                   SrcC.upd3 halo i j k FLT_MAX))) (fun _ _ _ => 0))).
  { apply (for3_ind 0 (xl + 2) 0 (yl + 2) 0 (zl + 2)
             (fun i j k halo => SrcC.upd3 halo i j k FLT_MAX) I);
      try lia.
    - intros i' j' k' Hi' Hj' Hk' Hc.
      pose proof (count3_bounds 0 0 0 (xl + 2) (yl + 2 - 0) (zl + 2 - 0)
                    i' j' k' ltac:(lia) ltac:(lia) ltac:(lia)).
      lia.
    - intros a b c h Ha Hb Hc IH i' j' k' Hi' Hj' Hk' Hlt.
      destruct (Z.eq_dec i' a) as [->|Hne1];
        [destruct (Z.eq_dec j' b) as [->|Hne2];
         [destruct (Z.eq_dec k' c) as [->|Hne3]|]|].
      + apply upd3_same.
      + rewrite upd3_other by congruence. apply IH; try assumption.
        assert (count3 0 0 0 (yl + 2 - 0) (zl + 2 - 0) a b k'
                <> count3 0 0 0 (yl + 2 - 0) (zl + 2 - 0) a b c).
        { intros E. apply count3_inj in E; lia. }
        lia.
      + rewrite upd3_other by congruence. apply IH; try assumption.
        assert (count3 0 0 0 (yl + 2 - 0) (zl + 2 - 0) a j' k'
                <> count3 0 0 0 (yl + 2 - 0) (zl + 2 - 0) a b c).
        { intros E. apply count3_inj in E; lia. }
        lia.
      + rewrite upd3_other by congruence. apply IH; try assumption.
        assert (count3 0 0 0 (yl + 2 - 0) (zl + 2 - 0) i' j' k'
                <> count3 0 0 0 (yl + 2 - 0) (zl + 2 - 0) a b c).
        { intros E. apply count3_inj in E; lia. }
        lia. }
  apply H; try assumption.
  apply count3_bounds; lia.
Qed.

(** The fill loop writes the owned cells, in the order x, y, z of its
    loops, from consecutive cells of [sub_data]; it leaves the ghost cells
    alone. *)
Lemma halo_fill_spec (xl yl zl : Z) (sub_data : buf) (h : SrcC.halo3) :
  0 <= xl -> 0 <= yl -> 0 <= zl ->
  (forall i j k, ~ (1 <= i <= xl /\ 1 <= j <= yl /\ 1 <= k <= zl) ->
                 SrcC.halo_fill xl yl zl sub_data h i j k = h i j k) /\
  (forall i j k, 1 <= i <= xl -> 1 <= j <= yl -> 1 <= k <= zl ->
                 SrcC.halo_fill xl yl zl sub_data h i j k
                 = sub_data (count3 1 1 1 yl zl i j k)).
Proof.
  intros Hxl Hyl Hzl. unfold SrcC.halo_fill.
  pose (I := fun (n : Z) (s : SrcC.halo3 * Z) =>
               snd s = n /\
               (forall i j k,
                   ~ (1 <= i <= xl /\ 1 <= j <= yl /\ 1 <= k <= zl) ->
                   fst s i j k = h i j k) /\
               (forall i j k,
                   1 <= i <= xl -> 1 <= j <= yl -> 1 <= k <= zl ->
                   count3 1 1 1 (yl + 1 - 1) (zl + 1 - 1) i j k < n ->
                   fst s i j k
                   = sub_data (count3 1 1 1 (yl + 1 - 1) (zl + 1 - 1) i j k))).
  assert (H : I ((xl + 1 - 1) * (yl + 1 - 1) * (zl + 1 - 1))
                (for_range 1 (xl + 1) (fun i =>
                 for_range 1 (yl + 1) (fun j =>
                 for_range 1 (zl + 1) (fun k '(halo, idx) =>
                   (SrcC.upd3 halo i j k (sub_data idx), idx + 1))))
                 (h, 0))).
  { apply (for3_ind 1 (xl + 1) 1 (yl + 1) 1 (zl + 1)
             (fun i j k '(halo, idx) =>
                (SrcC.upd3 halo i j k (sub_data idx), idx + 1)) I);
      try lia.
    - unfold I. cbn [fst snd]. repeat split; try reflexivity.
      intros i j k Hi Hj Hk Hc.
      pose proof (count3_bounds 1 1 1 xl (yl + 1 - 1) (zl + 1 - 1)
                    i j k ltac:(lia) ltac:(lia) ltac:(lia)).
      lia.
    - intros a b c [halo idx] Ha Hb Hc (Hidx & Hghost & Hown).
      cbn [fst snd] in *. subst idx. unfold I. cbn [fst snd].
      split; [reflexivity|]. split.
      + intros i j k Hno. rewrite upd3_other; [apply Hghost, Hno|].
        intros E. inversion E; subst. lia.
      + intros i j k Hi Hj Hk Hlt.
        destruct (Z.eq_dec (count3 1 1 1 (yl + 1 - 1) (zl + 1 - 1) i j k)
                           (count3 1 1 1 (yl + 1 - 1) (zl + 1 - 1) a b c))
          as [E|Hne].
        * rewrite E. apply count3_inj in E; try lia.
          destruct E as (-> & -> & ->). apply upd3_same.
        * rewrite upd3_other.
          -- apply Hown; try assumption. lia.
          -- intros E. inversion E; subst. contradiction. }
  destruct H as (_ & Hghost & Hown). split.
  - exact Hghost.
  - intros i j k Hi Hj Hk.
    replace (yl + 1 - 1) with yl in Hown by lia.
    replace (zl + 1 - 1) with zl in Hown by lia.
    apply Hown; try assumption.
    pose proof (count3_bounds 1 1 1 xl yl zl
                  i j k ltac:(lia) ltac:(lia) ltac:(lia)).
    replace (xl + 1 - 1) with xl by lia. lia.
Qed.

(** A stored message touches one row of the halo block only. *)
Lemma sendrecv_other (zl : Z) (h h' : SrcC.halo3) (si ri n : Z) incoming :
  SrcC.sendrecv zl h si ri n incoming = Some h' ->
  forall i j k, i <> ri -> h' i j k = h i j k.
Proof.
  unfold SrcC.sendrecv. intros H i j k Hne.
  destruct (SrcC.row_run zl h si 1 1 n); [|discriminate].
  destruct incoming as [msg|]; [|discriminate].
  destruct (_ && _); [|discriminate].
  inversion H. unfold SrcC.row_store.
  destruct (Z.eqb_spec i ri); [contradiction | reflexivity].
Qed.

Lemma after_left_other (c : SrcC.Config) (halos : Z -> SrcC.halo3)
      (cx : nat) (cy cz : Z) (h : SrcC.halo3) :
  SrcC.after_left c halos cx cy cz = Some h ->
  forall i j k, i <> 0 ->
    h i j k
    = halos (SrcC.cart_rank (SrcC.PY c) (SrcC.PZ c) (Z.of_nat cx, cy, cz)) i j k.
Proof.
  destruct cx as [|cl]; cbn [SrcC.after_left]; intros H i j k Hne.
  - inversion H. reflexivity.
  - destruct (SrcC.after_left c halos cl cy cz); [|discriminate].
    eapply sendrecv_other; eassumption.
Qed.

(** The rank of a worker is recovered from its coordinates. *)
Lemma cart_rank_coords (PY PZ rank : Z) :
  0 < PY -> 0 < PZ -> 0 <= rank ->
  let '(cx, cy, cz) := SrcC.cart_coords PY PZ rank in
  0 <= cx /\ 0 <= cy < PY /\ 0 <= cz < PZ /\
  SrcC.cart_rank PY PZ (cx, cy, cz) = rank.
Proof.
  intros HPY HPZ Hr. unfold SrcC.cart_coords, SrcC.cart_rank.
  pose proof (Z.quot_rem' rank PZ) as H1.
  pose proof (Z.quot_rem' (Z.quot rank PZ) PY) as H2.
  pose proof (Z.rem_bound_pos rank PZ Hr HPZ) as H3.
  assert (Hq : 0 <= Z.quot rank PZ) by (apply Z.quot_pos; lia).
  pose proof (Z.rem_bound_pos _ PY Hq HPY) as H4.
  assert (Hqq : Z.quot rank (PY * PZ) = Z.quot (Z.quot rank PZ) PY).
  { rewrite Z.quot_quot by lia. f_equal. ring. }
  rewrite Hqq.
  assert (0 <= Z.quot (Z.quot rank PZ) PY) by (apply Z.quot_pos; lia).
  repeat split; try lia.
Qed.

(** The exchange of src.c changes no cell between the two x ghost layers. *)
Lemma exchange_other (c : SrcC.Config) (halos : Z -> SrcC.halo3)
      (rank : Z) (h : SrcC.halo3) :
  0 < SrcC.PY c -> 0 < SrcC.PZ c -> 0 <= rank ->
  SrcC.exchange c halos rank = Some h ->
  forall i j k, i <> 0 -> i <> SrcC.x_local c rank + 1 ->
                h i j k = halos rank i j k.
Proof.
  intros HPY HPZ Hr H i j k Hi0 Hi1. unfold SrcC.exchange in H.
  pose proof (cart_rank_coords _ _ rank HPY HPZ Hr) as Hc.
  destruct (SrcC.cart_coords (SrcC.PY c) (SrcC.PZ c) rank) as [[cx cy] cz].
  destruct Hc as (Hcx & _ & _ & Hrank).
  destruct (SrcC.after_left c halos (Z.to_nat cx) cy cz) as [hl|] eqn:Hl;
    [|discriminate].
  pose proof (after_left_other _ _ _ _ _ _ Hl i j k Hi0) as Hleft.
  rewrite Z2Nat.id, Hrank in Hleft by assumption.
  destruct (snd (SrcC.cart_shift (SrcC.PX c) (SrcC.PY c) (SrcC.PZ c) rank 0)).
  - rewrite (sendrecv_other _ _ _ _ _ _ _ H i j k Hi1). exact Hleft.
  - inversion H. subst. exact Hleft.
Qed.

(** In src.c the ghost layers of the y and z faces hold [FLT_MAX] when the
    classification starts, for every worker and timestep, whether or not a
    neighbour lives behind the face. *)
Lemma y_z_ghost_layers_keep_sentinel
      (c : SrcC.Config) (global_data : rows) (rank t : Z) (h : SrcC.halo3) :
  0 < SrcC.PY c -> 0 < SrcC.PZ c -> 0 <= rank ->
  0 <= SrcC.x_local c rank -> 0 <= SrcC.y_local c rank ->
  0 <= SrcC.z_local c rank ->
  SrcC.halo_of c global_data rank t = Some h ->
  forall i j k,
    1 <= i <= SrcC.x_local c rank ->
    0 <= j <= SrcC.y_local c rank + 1 ->
    0 <= k <= SrcC.z_local c rank + 1 ->
    j = 0 \/ j = SrcC.y_local c rank + 1 \/
    k = 0 \/ k = SrcC.z_local c rank + 1 ->
    h i j k = FLT_MAX.
Proof.
  intros HPY HPZ Hr Hxl Hyl Hzl H i j k Hi Hj Hk Hface.
  unfold SrcC.halo_of in H.
  destruct (SrcC.distribute c global_data rank) as [ld|] eqn:Hd;
    [|discriminate].
  rewrite (exchange_other _ _ _ _ HPY HPZ Hr H i j k) by lia.
  unfold SrcC.built_halos. rewrite Hd. unfold SrcC.build_halo.
  destruct (halo_fill_spec (SrcC.x_local c rank) (SrcC.y_local c rank)
              (SrcC.z_local c rank)
              (SrcC.sub_data_of (SrcC.x_local c rank) (SrcC.y_local c rank)
                 (SrcC.z_local c rank) ld t)
              (SrcC.halo_alloc (SrcC.x_local c rank) (SrcC.y_local c rank)
                 (SrcC.z_local c rank)) Hxl Hyl Hzl) as [Hghost _].
  rewrite Hghost by lia.
  apply halo_alloc_spec; lia.
Qed.

(** C2 (halo correctness) on src.c, two workers stacked along y
    (PX = 1, PY = 2, PZ = 1) on the 1 x 2 x 1 field with values 3 and 5,
    one timestep.  Worker 1 is the live upper y neighbour of worker 0 and
    its owned boundary cell holds 5, but when the classification starts the
    ghost cell of worker 0 on that face still holds [FLT_MAX]: only the x
    faces are exchanged.  The two workers then count two minima and no
    maximum, where the field has one of each. *)
Theorem y_ghost_layer_keeps_sentinel :
  let c := SrcC.mkConfig 1 2 1 1 2 1 1 2 in
  let global_data : rows := fun p => of_list [nth (Z.to_nat p) [3; 5] 0] in
  snd (SrcC.cart_shift 1 2 1 0 1) = Some 1 /\
  option_map (fun h => h 1 1 1) (SrcC.halo_of c global_data 1 0) = Some 5 /\
  option_map (fun h => h 1 2 1) (SrcC.halo_of c global_data 0 0)
  = Some FLT_MAX /\
  option_map (fun g => (SrcC.total_mins g, SrcC.total_maxs g))
             (SrcC.global_result c global_data 0) = Some (2, 0).
Proof. vm_compute. repeat split. Qed.

(** 1.c on the same field and grid: worker 1 holds 5 in its owned cell, and
    the ghost cell of worker 0 above its own still holds the [DBL_MAX] of
    the allocation when the computation starts. *)
Lemma ghost_cells_never_exchanged :
  let c := OneC.mkConfig 1 2 1 1 2 1 1 2 in
  let full_data := of_list [3; 5] in
  let at_ (rank x y z : Z) :=
    match OneC.local_data_of c full_data rank with
    | Some local_data => local_data (OneC.idx3d x y z 3 3)
    | None => None
    end in
  at_ 0 1 1 1 = Some 3 /\ at_ 1 1 1 1 = Some 5 /\ at_ 0 1 2 1 = Some DBL_MAX.
Proof. vm_compute. repeat split. Qed.

(** ** Distribution *)

Lemma memcpy_in (dst src : buf) (doff soff n j : Z) :
  doff <= j < doff + n ->
  memcpy dst doff src soff n j = src (soff + (j - doff)).
Proof.
  intros H. unfold memcpy.
  destruct (Z.leb_spec doff j), (Z.ltb_spec j (doff + n)); try lia.
  reflexivity.
Qed.

Lemma memcpy_out (dst src : buf) (doff soff n j : Z) :
  j < doff \/ doff + n <= j ->
  memcpy dst doff src soff n j = dst j.
Proof.
  intros H. unfold memcpy.
  destruct (Z.leb_spec doff j), (Z.ltb_spec j (doff + n)); try lia;
    reflexivity.
Qed.

Lemma to_list_length (b : buf) (n : Z) : length (to_list b n) = Z.to_nat n.
Proof. unfold to_list. now rewrite length_map, length_seq. Qed.

Lemma to_list_nth (b : buf) (n j : Z) :
  0 <= j < n -> nth (Z.to_nat j) (to_list b n) 0 = b j.
Proof.
  intros H. unfold to_list.
  rewrite (nth_indep _ 0 (b (Z.of_nat 0))) by (rewrite length_map, length_seq; lia).
  rewrite (map_nth (fun k => b (Z.of_nat k))), seq_nth by lia.
  f_equal. lia.
Qed.

(** A message of the expected length arrives whole. *)
Lemma mpi_recv_whole (b : buf) (n count : Z) (buffer : buf) :
  0 <= n <= count ->
  exists b', mpi_recv (to_list b n) count buffer = Some b' /\
             forall j, 0 <= j < n -> b' j = b j.
Proof.
  intros H. unfold mpi_recv. rewrite to_list_length.
  destruct (Z.leb_spec (Z.of_nat (Z.to_nat n)) count); [|lia].
  eexists. split; [reflexivity|]. intros j Hj. cbv beta.
  destruct (Z.leb_spec 0 j), (Z.ltb_spec j (Z.of_nat (Z.to_nat n)));
    try lia.
  cbn [andb]. now apply to_list_nth.
Qed.

Lemma get_range_size_nonneg (rank total size0 : Z) :
  0 < total -> 0 <= size0 ->
  0 <= SrcC.size (SrcC.get_range rank total size0).
Proof.
  intros Ht Hs. rewrite get_range_size.
  assert (0 <= Z.quot size0 total) by (apply Z.quot_pos; lia).
  destruct (_ <? _); lia.
Qed.

Section SrcScatter.
Variables (c : SrcC.Config) (global_data : rows).
Hypothesis HPX : 0 < SrcC.PX c.
Hypothesis HPY : 0 < SrcC.PY c.
Hypothesis HPZ : 0 < SrcC.PZ c.
Hypothesis HNX : 0 <= SrcC.NX c.
Hypothesis HNY : 0 <= SrcC.NY c.
Hypothesis HNZ : 0 <= SrcC.NZ c.
Hypothesis HNC : 0 <= SrcC.NC c.

Lemma local_sizes_nonneg (rank : Z) :
  0 <= SrcC.x_local c rank /\ 0 <= SrcC.y_local c rank /\
  0 <= SrcC.z_local c rank.
Proof.
  unfold SrcC.x_local, SrcC.y_local, SrcC.z_local,
    SrcC.x_range, SrcC.y_range, SrcC.z_range.
  destruct (SrcC.cart_coords (SrcC.PY c) (SrcC.PZ c) rank) as [[px py] pz].
  repeat split; apply get_range_size_nonneg; assumption.
Qed.

Lemma range_ends (rank : Z) :
  SrcC.end_ (SrcC.x_range c rank) + 1
  = SrcC.start (SrcC.x_range c rank) + SrcC.x_local c rank /\
  SrcC.end_ (SrcC.y_range c rank) + 1
  = SrcC.start (SrcC.y_range c rank) + SrcC.y_local c rank /\
  SrcC.end_ (SrcC.z_range c rank) + 1
  = SrcC.start (SrcC.z_range c rank) + SrcC.z_local c rank.
Proof.
  unfold SrcC.x_local, SrcC.y_local, SrcC.z_local,
    SrcC.x_range, SrcC.y_range, SrcC.z_range.
  destruct (SrcC.cart_coords (SrcC.PY c) (SrcC.PZ c) rank) as [[px py] pz].
  rewrite !get_range_end. lia.
Qed.

(** The buffer packed for worker [p] holds the points of its block, z
    outermost and x innermost, each with its [NC] values. *)
Lemma pack_spec (p lx ly lz t : Z) :
  0 <= lx < SrcC.x_local c p -> 0 <= ly < SrcC.y_local c p ->
  0 <= lz < SrcC.z_local c p -> 0 <= t < SrcC.NC c ->
  SrcC.pack c global_data p
    (((lz * SrcC.y_local c p + ly) * SrcC.x_local c p + lx) * SrcC.NC c + t)
  = global_data
      ((SrcC.start (SrcC.z_range c p) + lz) * (SrcC.NX c * SrcC.NY c)
       + (SrcC.start (SrcC.y_range c p) + ly) * SrcC.NX c
       + (SrcC.start (SrcC.x_range c p) + lx)) t.
Proof.
  intros Hlx Hly Hlz Ht. unfold SrcC.pack.
  destruct (range_ends p) as (Ex & Ey & Ez).
  destruct (local_sizes_nonneg p) as (Sx & Sy & Sz).
  set (xs := SrcC.start (SrcC.x_range c p)) in *.
  set (ys := SrcC.start (SrcC.y_range c p)) in *.
  set (zs := SrcC.start (SrcC.z_range c p)) in *.
  set (xl := SrcC.x_local c p) in *.
  set (yl := SrcC.y_local c p) in *.
  set (zl := SrcC.z_local c p) in *.
  rewrite Ex, Ey, Ez.
  pose (I := fun (n : Z) (s : buf * Z) =>
     snd s = n /\
     forall z y x u,
       zs <= z < zs + zl -> ys <= y < ys + yl -> xs <= x < xs + xl ->
       0 <= u < SrcC.NC c ->
       count3 zs ys xs (ys + yl - ys) (xs + xl - xs) z y x < n ->
       fst s (count3 zs ys xs (ys + yl - ys) (xs + xl - xs) z y x * SrcC.NC c + u)
       = global_data (z * (SrcC.NX c * SrcC.NY c) + y * SrcC.NX c + x) u).
  match goal with
  | |- fst (for_range zs ?h1 (fun z => for_range ys ?h2 (fun y =>
              for_range xs ?h3 (@?f z y))) ?s0) _ = _ =>
      assert (H : I ((h1 - zs) * (h2 - ys) * (h3 - xs))
                    (for_range zs h1 (fun z => for_range ys h2 (fun y =>
                       for_range xs h3 (f z y))) s0))
  end.
  { apply (for3_ind zs (zs + zl) ys (ys + yl) xs (xs + xl) _ I); try lia.
    - unfold I. cbn [fst snd]. split; [reflexivity|].
      intros z y x u Hz Hy Hx Hu Hc.
      pose proof (count3_bounds zs ys xs zl (ys + yl - ys) (xs + xl - xs)
                    z y x ltac:(lia) ltac:(lia) ltac:(lia)).
      lia.
    - intros a b d [buffer idx] Ha Hb Hd (Hidx & IH).
      cbn [fst snd] in *. subst idx. unfold I. cbn [fst snd].
      split; [reflexivity|].
      intros z y x u Hz Hy Hx Hu Hlt.
      destruct (Z.eq_dec (count3 zs ys xs (ys + yl - ys) (xs + xl - xs) z y x)
                         (count3 zs ys xs (ys + yl - ys) (xs + xl - xs) a b d))
        as [E|Hne].
      + rewrite E. apply count3_inj in E; try lia.
        destruct E as (-> & -> & ->).
        rewrite memcpy_in by lia. f_equal. lia.
      + rewrite memcpy_out by nia. apply IH; try assumption. lia. }
  destruct H as [_ H].
  specialize (H (zs + lz) (ys + ly) (xs + lx) t
                ltac:(lia) ltac:(lia) ltac:(lia) Ht).
  unfold count3 in H.
  replace (((zs + lz - zs) * (ys + yl - ys) + (ys + ly - ys)) * (xs + xl - xs)
           + (xs + lx - xs))
    with ((lz * yl + ly) * xl + lx) in H by ring.
  apply H.
  pose proof (count3_bounds 0 0 0 zl yl xl lz ly lx
                ltac:(lia) ltac:(lia) ltac:(lia)) as Hb.
  unfold count3 in Hb.
  replace ((zs + zl - zs) * (ys + yl - ys) * (xs + xl - xs))
    with (zl * yl * xl) by ring.
  replace (((lz - 0) * yl + (ly - 0)) * xl + (lx - 0))
    with ((lz * yl + ly) * xl + lx) in Hb by ring.
  lia.
Qed.

(** [unpack] gives row [i] the [NC] values at [buffer + i * NC]. *)
Lemma unpack_spec (n : Z) (buffer : buf) (local_data : rows) (i t : Z) :
  0 <= i < n -> 0 <= t < SrcC.NC c ->
  SrcC.unpack (SrcC.NC c) n buffer local_data i t
  = buffer (i * SrcC.NC c + t).
Proof.
  intros Hi Ht. unfold SrcC.unpack.
  apply (for_range_ind
           (fun j (ld : rows) =>
              forall i', 0 <= i' < j -> ld i' t = buffer (i' * SrcC.NC c + t)));
    [lia | intros; lia | | exact Hi].
  intros j ld Hj IH i' Hi'. unfold upd_row.
  destruct (Z.eqb_spec i' j) as [->|Hne].
  - rewrite memcpy_in by lia. f_equal. lia.
  - apply IH. lia.
Qed.

(** Distribution in src.c is a faithful scatter: every worker ends up with
    the time series of each point of its block, in the order z, y, x. *)
Lemma scatter_faithful (rank : Z) :
  exists local_data,
    SrcC.distribute c global_data rank = Some local_data /\
    forall lx ly lz t,
      0 <= lx < SrcC.x_local c rank -> 0 <= ly < SrcC.y_local c rank ->
      0 <= lz < SrcC.z_local c rank -> 0 <= t < SrcC.NC c ->
      local_data ((lz * SrcC.y_local c rank + ly) * SrcC.x_local c rank + lx) t
      = global_data
          ((SrcC.start (SrcC.z_range c rank) + lz) * (SrcC.NX c * SrcC.NY c)
           + (SrcC.start (SrcC.y_range c rank) + ly) * SrcC.NX c
           + (SrcC.start (SrcC.x_range c rank) + lx)) t.
Proof.
  destruct (local_sizes_nonneg rank) as (Sx & Sy & Sz).
  unfold SrcC.distribute.
  fold (SrcC.x_local c rank) (SrcC.y_local c rank) (SrcC.z_local c rank).
  fold (SrcC.local_points c rank).
  assert (Hidx : forall lx ly lz,
             0 <= lx < SrcC.x_local c rank -> 0 <= ly < SrcC.y_local c rank ->
             0 <= lz < SrcC.z_local c rank ->
             0 <= (lz * SrcC.y_local c rank + ly) * SrcC.x_local c rank + lx
             < SrcC.local_points c rank).
  { intros lx ly lz Hx Hy Hz.
    pose proof (count3_bounds 0 0 0 (SrcC.z_local c rank)
                  (SrcC.y_local c rank) (SrcC.x_local c rank) lz ly lx
                  ltac:(lia) ltac:(lia) ltac:(lia)) as Hb.
    unfold count3 in Hb. unfold SrcC.local_points.
    replace (((lz - 0) * SrcC.y_local c rank + (ly - 0)) * SrcC.x_local c rank
             + (lx - 0))
      with ((lz * SrcC.y_local c rank + ly) * SrcC.x_local c rank + lx)
      in Hb by ring.
    nia. }
  assert (Hpts : 0 <= SrcC.local_points c rank)
    by (unfold SrcC.local_points; nia).
  destruct (rank =? 0).
  - eexists. split; [reflexivity|].
    intros lx ly lz t Hx Hy Hz Ht.
    rewrite unpack_spec by auto. now apply pack_spec.
  - destruct (mpi_recv_whole (SrcC.pack c global_data rank)
                (SrcC.local_points c rank * SrcC.NC c)
                (SrcC.local_points c rank * SrcC.NC c) fresh ltac:(nia))
      as (b' & -> & Hb').
    eexists. split; [reflexivity|].
    intros lx ly lz t Hx Hy Hz Ht.
    rewrite unpack_spec by auto.
    rewrite Hb' by (specialize (Hidx lx ly lz Hx Hy Hz); nia).
    now apply pack_spec.
Qed.
End SrcScatter.

(** Along one axis every index belongs to the range of some worker, also
    when the extent is smaller than the number of workers. *)
Lemma axis_cover (total size0 g : Z) :
  0 < total -> 0 <= g < size0 ->
  exists i, 0 <= i < total /\
            SrcC.start (SrcC.get_range i total size0) <= g
            < SrcC.start (SrcC.get_range i total size0)
              + SrcC.size (SrcC.get_range i total size0).
Proof.
  intros Ht Hg.
  pose proof (Z.rem_bound_pos size0 total ltac:(lia) Ht) as Hrem.
  pose proof (Z.quot_rem' size0 total) as Hqr.
  assert (Hbase : 0 <= Z.quot size0 total) by (apply Z.quot_pos; lia).
  destruct (chain_locate (balanced_cut total size0) total ltac:(lia)) with (g := g)
    as (i & Hi & Hgi).
  - intros i Hi. unfold balanced_cut. lia.
  - unfold balanced_cut. lia.
  - exists i. split; [exact Hi|].
    rewrite get_range_start, get_range_size by lia.
    unfold balanced_cut in Hgi.
    destruct (Z.ltb_spec i (Z.rem size0 total)); lia.
Qed.

(** The coordinates of a worker are recovered from its rank. *)
Lemma cart_coords_rank (PX PY PZ cx cy cz : Z) :
  0 <= cx < PX -> 0 <= cy < PY -> 0 <= cz < PZ ->
  SrcC.cart_coords PY PZ (SrcC.cart_rank PY PZ (cx, cy, cz)) = (cx, cy, cz) /\
  0 <= SrcC.cart_rank PY PZ (cx, cy, cz) < PX * PY * PZ.
Proof.
  intros Hx Hy Hz. unfold SrcC.cart_coords, SrcC.cart_rank.
  set (rank := (cx * PY + cy) * PZ + cz).
  assert (Hq : 0 <= cx * PY + cy) by nia.
  assert (Hq' : cx * PY + cy <= PX * PY - 1) by nia.
  assert (Hr : 0 <= rank) by (subst rank; nia).
  assert (Hr' : rank <= (PX * PY - 1) * PZ + cz) by (subst rank; nia).
  assert (H1 : Z.rem rank PZ = cz).
  { symmetry. apply (Z.rem_unique rank PZ (cx * PY + cy)); subst rank; lia. }
  assert (H2 : Z.quot rank PZ = cx * PY + cy).
  { symmetry. apply (Z.quot_unique rank PZ _ cz); subst rank; lia. }
  assert (H3 : Z.rem (Z.quot rank PZ) PY = cy).
  { rewrite H2. symmetry. apply (Z.rem_unique _ PY cx); lia. }
  assert (H4 : Z.quot rank (PY * PZ) = cx).
  { symmetry. apply (Z.quot_unique rank (PY * PZ) _ (cy * PZ + cz));
      [assumption | nia | subst rank; ring]. }
  rewrite H1, H3, H4. split; [reflexivity|]. lia.
Qed.

Section SrcRoundTrip.
Variables (c : SrcC.Config) (global_data : rows).
Hypothesis HPX : 0 < SrcC.PX c.
Hypothesis HPY : 0 < SrcC.PY c.
Hypothesis HPZ : 0 < SrcC.PZ c.
Hypothesis HNC : 0 <= SrcC.NC c.

(** Every point of the global domain lies in the block of some worker. *)
Lemma block_cover (x y z : Z) :
  in_domain c x y z ->
  exists rank lx ly lz,
    0 <= rank < SrcC.PX c * SrcC.PY c * SrcC.PZ c /\
    owns c rank x y z lx ly lz.
Proof.
  intros (Hx & Hy & Hz).
  destruct (axis_cover (SrcC.PX c) (SrcC.NX c) x HPX Hx) as (px & Hpx & Hgx).
  destruct (axis_cover (SrcC.PY c) (SrcC.NY c) y HPY Hy) as (py & Hpy & Hgy).
  destruct (axis_cover (SrcC.PZ c) (SrcC.NZ c) z HPZ Hz) as (pz & Hpz & Hgz).
  destruct (cart_coords_rank (SrcC.PX c) (SrcC.PY c) (SrcC.PZ c) px py pz
              Hpx Hpy Hpz) as [Hc Hr].
  exists (SrcC.cart_rank (SrcC.PY c) (SrcC.PZ c) (px, py, pz)).
  exists (x - SrcC.start (SrcC.get_range px (SrcC.PX c) (SrcC.NX c))).
  exists (y - SrcC.start (SrcC.get_range py (SrcC.PY c) (SrcC.NY c))).
  exists (z - SrcC.start (SrcC.get_range pz (SrcC.PZ c) (SrcC.NZ c))).
  split; [exact Hr|].
  unfold owns, SrcC.x_local, SrcC.y_local, SrcC.z_local,
    SrcC.x_range, SrcC.y_range, SrcC.z_range.
  rewrite Hc. lia.
Qed.

(** Round trip of the distribution of src.c: every value of the global
    field is held, after the distribution, by the worker that owns its
    point, at the place of that point in the worker's block. *)
Lemma scatter_round_trip (x y z t : Z) :
  in_domain c x y z -> 0 <= t < SrcC.NC c ->
  exists rank lx ly lz local_data,
    0 <= rank < SrcC.PX c * SrcC.PY c * SrcC.PZ c /\
    owns c rank x y z lx ly lz /\
    SrcC.distribute c global_data rank = Some local_data /\
    local_data ((lz * SrcC.y_local c rank + ly) * SrcC.x_local c rank + lx) t
    = value_at c global_data x y z t.
Proof.
  intros Hd Ht.
  destruct (block_cover x y z Hd) as (rank & lx & ly & lz & Hr & Hown).
  destruct Hd as (Hx & Hy & Hz).
  destruct (scatter_faithful c global_data HPX HPY HPZ
              ltac:(lia) ltac:(lia) ltac:(lia) HNC rank)
    as (local_data & Hdist & Hld).
  exists rank, lx, ly, lz, local_data.
  split; [exact Hr|]. split; [exact Hown|]. split; [exact Hdist|].
  destruct Hown as (Hlx & Hly & Hlz & -> & -> & ->).
  rewrite Hld by assumption. reflexivity.
Qed.
End SrcRoundTrip.

(** In 1.c the coordinating worker issues one send per point of the
    receiver's block. *)
Lemma sends_per_block (c : OneC.Config) (full_data : buf) (r : Z) :
  0 <= OneC.local_nx c r -> 0 <= OneC.local_ny c r ->
  0 <= OneC.local_nz c r ->
  Z.of_nat (length (OneC.sends_to c full_data r))
  = OneC.local_nx c r * OneC.local_ny c r * OneC.local_nz c r.
Proof.
  intros Hx Hy Hz. unfold OneC.sends_to.
  match goal with
  | |- Z.of_nat (length (for_range 0 ?n1 (fun z => for_range 0 ?n2 (fun y =>
                           for_range 0 ?n3 (@?f z y))) [])) = _ =>
      pose proof (for3_ind 0 n1 0 n2 0 n3 (fun z y => f z y)
                    (fun n sent => Z.of_nat (length sent) = n) []
                    Hz Hy Hx eq_refl) as H
  end.
  cbv beta in H. rewrite H.
  - ring.
  - intros a b d sent _ _ _ Hs.
    rewrite length_app. cbn [length]. lia.
Qed.

(** A receiver whose block has more than one point is sent more messages
    than it receives. *)
Lemma sends_outnumber_receives (c : OneC.Config) (full_data : buf) (r : Z) :
  0 <= OneC.local_nx c r -> 0 <= OneC.local_ny c r ->
  0 <= OneC.local_nz c r ->
  1 < OneC.local_nx c r * OneC.local_ny c r * OneC.local_nz c r ->
  OneC.receives_posted r < Z.of_nat (length (OneC.sends_to c full_data r)).
Proof.
  intros Hx Hy Hz Hmany. rewrite sends_per_block by assumption.
  unfold OneC.receives_posted. destruct (r =? 0); lia.
Qed.

(** C3 (faithful scatter) on 1.c, two workers along x (px = 2) on the
    4 x 1 x 1 field 10, 20, 30, 40, one timestep.  Worker 1 owns the points
    30 and 40 and posts one receive; the coordinating worker issues two
    sends to it, one per point, each of a newly allocated buffer in which
    only that point has been written.  Worker 1 receives the first: its
    second point is indeterminate, and the second send has no receive. *)
Theorem one_send_per_point_one_receive :
  let c := OneC.mkConfig 2 1 1 4 1 1 1 2 in
  let full_data := of_list [10; 20; 30; 40] in
  OneC.sends_to c full_data 1 = [[Some 30; None]; [None; Some 40]] /\
  OneC.receives_posted 1 = 1 /\
  option_map (fun b => oto_list b 2) (OneC.recv_buf c full_data 1)
  = Some [Some 30; None].
Proof. vm_compute. repeat split. Qed.

(** pankaj_code.c, two workers along x on the 2 x 1 x 1 field with two
    timesteps, point 0 = (1, 5) and point 1 = (0, 7): the message to
    worker 1 carries [subDomainSize] = 1 value where its block has two, so
    the value of its point for the second timestep never arrives. *)
Lemma pankaj_message_drops_timesteps :
  let c := PankajC.mkConfig 2 1 1 2 1 1 2 2 in
  let globalData := of_list [1; 5; 0; 7] in
  PankajC.message_to c globalData 1 = [Some 0] /\
  option_map (fun b => oto_list b 2) (PankajC.localData_of c globalData 1)
  = Some [Some 0; None].
Proof. vm_compute. repeat split. Qed.

(** ** Reducer *)

(** An index below [n1 * n2 * n3] is the number of one iteration of a nest
    of three loops of these lengths. *)
Lemma decode3 (n1 n2 n3 m : Z) :
  0 <= m < n1 * n2 * n3 -> 0 <= n1 -> 0 <= n2 -> 0 <= n3 ->
  exists a b d, 0 <= a < n1 /\ 0 <= b < n2 /\ 0 <= d < n3 /\
                (a * n2 + b) * n3 + d = m.
Proof.
  intros Hm H1 H2 H3.
  assert (0 < n3) by nia. assert (0 < n2) by nia.
  pose proof (Z.div_mod m n3 ltac:(lia)) as E1.
  pose proof (Z.mod_pos_bound m n3 ltac:(lia)) as B1.
  assert (Hq : 0 <= m / n3 < n1 * n2).
  { split; [apply Z.div_pos; lia|]. apply Z.div_lt_upper_bound; nia. }
  pose proof (Z.div_mod (m / n3) n2 ltac:(lia)) as E2.
  pose proof (Z.mod_pos_bound (m / n3) n2 ltac:(lia)) as B2.
  assert (Ha : 0 <= m / n3 / n2 < n1).
  { split; [apply Z.div_pos; lia|]. apply Z.div_lt_upper_bound; nia. }
  exists (m / n3 / n2), ((m / n3) mod n2), (m mod n3).
  repeat split; try lia; nia.
Qed.

(** [sub_data] is the column of timestep [t] of [local_data]. *)
Lemma sub_data_spec (xl yl zl : Z) (local_data : rows) (t m : Z) :
  0 <= xl -> 0 <= yl -> 0 <= zl ->
  0 <= m < xl * yl * zl ->
  SrcC.sub_data_of xl yl zl local_data t m = local_data m t.
Proof.
  intros Hx Hy Hz Hm. unfold SrcC.sub_data_of.
  pose (I := fun (n : Z) (s : buf * Z) =>
               snd s = n /\ forall u, 0 <= u < n -> fst s u = local_data u t).
  match goal with
  | |- fst (for_range 0 ?h1 (fun z => for_range 0 ?h2 (fun y =>
              for_range 0 ?h3 (@?f z y))) ?s0) _ = _ =>
      assert (H : I ((h1 - 0) * (h2 - 0) * (h3 - 0))
                    (for_range 0 h1 (fun z => for_range 0 h2 (fun y =>
                       for_range 0 h3 (f z y))) s0))
  end.
  { apply (for3_ind 0 zl 0 yl 0 xl _ I); try lia.
    - unfold I. cbn [fst snd]. split; [reflexivity | intros; lia].
    - intros a b d [sub idx] Ha Hb Hd (Hidx & IH).
      cbn [fst snd] in *. subst idx. unfold I. cbn [fst snd].
      split; [reflexivity|]. intros u Hu.
      destruct (Z.eq_dec u (count3 0 0 0 (yl - 0) (xl - 0) a b d)) as [->|Hne].
      + rewrite upd_same. f_equal. unfold count3. ring.
      + rewrite upd_other by assumption. apply IH. lia. }
  destruct H as [_ H]. apply H. nia.
Qed.

(** The running extremes of the scan: bounds of every owned cell, and the
    value of one of them unless they never moved. *)
Lemma classify_extremes
      (xl yl zl : Z) (xr yr zr : SrcC.Range) (NX NY NZ : Z)
      (halo : SrcC.halo3) :
  0 <= xl -> 0 <= yl -> 0 <= zl ->
  let p := SrcC.classify xl yl zl xr yr zr NX NY NZ halo in
  (forall i j k, 1 <= i <= xl -> 1 <= j <= yl -> 1 <= k <= zl ->
                 SrcC.lmin p <= halo i j k <= SrcC.lmax p) /\
  (SrcC.lmin p = FLT_MAX \/
   exists i j k, 1 <= i <= xl /\ 1 <= j <= yl /\ 1 <= k <= zl /\
                 SrcC.lmin p = halo i j k) /\
  (SrcC.lmax p = - FLT_MAX \/
   exists i j k, 1 <= i <= xl /\ 1 <= j <= yl /\ 1 <= k <= zl /\
                 SrcC.lmax p = halo i j k).
Proof.
  intros Hx Hy Hz p. subst p. unfold SrcC.classify.
  pose (I := fun (n : Z) (acc : SrcC.Partial) =>
     (forall i j k, 1 <= i <= xl -> 1 <= j <= yl -> 1 <= k <= zl ->
                    count3 1 1 1 (yl + 1 - 1) (zl + 1 - 1) i j k < n ->
                    SrcC.lmin acc <= halo i j k <= SrcC.lmax acc) /\
     (SrcC.lmin acc = FLT_MAX \/
      exists i j k, 1 <= i <= xl /\ 1 <= j <= yl /\ 1 <= k <= zl /\
                    SrcC.lmin acc = halo i j k) /\
     (SrcC.lmax acc = - FLT_MAX \/
      exists i j k, 1 <= i <= xl /\ 1 <= j <= yl /\ 1 <= k <= zl /\
                    SrcC.lmax acc = halo i j k)).
  match goal with
  | |- context [for_range 1 ?h1 (fun i => for_range 1 ?h2 (fun j =>
                  for_range 1 ?h3 (@?f i j))) ?s0] =>
      assert (H : I ((h1 - 1) * (h2 - 1) * (h3 - 1))
                    (for_range 1 h1 (fun i => for_range 1 h2 (fun j =>
                       for_range 1 h3 (f i j))) s0))
  end.
  { apply (for3_ind 1 (xl + 1) 1 (yl + 1) 1 (zl + 1) _ I); try lia.
    - unfold I. cbn [SrcC.lmin SrcC.lmax]. split; [|auto].
      intros i j k Hi Hj Hk Hc.
      pose proof (count3_bounds 1 1 1 xl (yl + 1 - 1) (zl + 1 - 1)
                    i j k ltac:(lia) ltac:(lia) ltac:(lia)).
      lia.
    - intros a b d acc Ha Hb Hd (Hbound & Hmin & Hmax).
      destruct (SrcC.point_flags xl yl zl xr yr zr NX NY NZ halo a b d)
        as [is_min is_max].
      unfold I. cbn [SrcC.lmin SrcC.lmax]. rewrite Z.gtb_ltb.
      split; [|split].
      + intros i j k Hi Hj Hk Hlt.
        destruct (Z.eq_dec (count3 1 1 1 (yl + 1 - 1) (zl + 1 - 1) i j k)
                           (count3 1 1 1 (yl + 1 - 1) (zl + 1 - 1) a b d))
          as [E|Hne].
        * apply count3_inj in E; try lia. destruct E as (-> & -> & ->).
          destruct (Z.ltb_spec (halo a b d) (SrcC.lmin acc)),
                   (Z.ltb_spec (SrcC.lmax acc) (halo a b d)); lia.
        * specialize (Hbound i j k Hi Hj Hk ltac:(lia)).
          destruct (Z.ltb_spec (halo a b d) (SrcC.lmin acc)),
                   (Z.ltb_spec (SrcC.lmax acc) (halo a b d)); lia.
      + destruct (Z.ltb_spec (halo a b d) (SrcC.lmin acc)); [|exact Hmin].
        right. exists a, b, d. repeat split; lia.
      + destruct (Z.ltb_spec (SrcC.lmax acc) (halo a b d)); [|exact Hmax].
        right. exists a, b, d. repeat split; lia. }
  destruct H as (Hbound & Hmin & Hmax). split; [|split; assumption].
  intros i j k Hi Hj Hk. apply Hbound; try assumption.
  pose proof (count3_bounds 1 1 1 xl (yl + 1 - 1) (zl + 1 - 1)
                i j k ltac:(lia) ltac:(lia) ltac:(lia)).
  lia.
Qed.

Lemma fold_min_le (l : list Z) (v : Z) :
  fold_left Z.min l v <= v /\ forall w, In w l -> fold_left Z.min l v <= w.
Proof.
  revert v. induction l as [|a l IH]; intros v; cbn [fold_left].
  - split; [lia | intros w []].
  - destruct (IH (Z.min v a)) as [H1 H2]. split; [lia|].
    intros w [<-|Hw]; [lia | auto].
Qed.

Lemma fold_min_in (l : list Z) (v : Z) :
  fold_left Z.min l v = v \/ In (fold_left Z.min l v) l.
Proof.
  revert v. induction l as [|a l IH]; intros v; cbn [fold_left].
  - now left.
  - destruct (IH (Z.min v a)) as [H|H].
    + rewrite H. destruct (Z.min_spec v a) as [[_ ->]|[_ ->]];
        [now left | right; now left].
    + right. now right.
Qed.

(** [reduce_min] is a lower bound of the contributions and one of them. *)
Lemma reduce_min_spec (l : list Z) :
  l <> [] ->
  (forall w, In w l -> reduce_min l <= w) /\ In (reduce_min l) l.
Proof.
  destruct l as [|v l]; [congruence|]. intros _. cbn [reduce_min].
  destruct (fold_min_le l v) as [H1 H2]. split.
  - intros w [<-|Hw]; auto.
  - destruct (fold_min_in l v) as [->|H]; [now left | now right].
Qed.

Lemma all_some_spec {A : Type} (l : list (option A)) (r : list A) :
  all_some l = Some r -> l = map Some r.
Proof.
  revert r. induction l as [|[a|] l IH]; intros r H; cbn in H.
  - inversion H. reflexivity.
  - destruct (all_some l) as [r'|]; [|discriminate].
    inversion H. cbn. f_equal. now apply IH.
  - discriminate.
Qed.



(** C5 (global result) on pankaj_code.c, one worker on the 2 x 1 x 1 field
    with two timesteps, point 0 = (1, 5) and point 1 = (0, 7).  The values
    of timestep 0 are 1 and 0, so the global minimum of timestep 0 is 0 and
    the global maximum is 1; the program delivers 1 and 5: it reads
    [localData[localIdx + t]], without the stride [timeSteps] of a
    point. *)
Theorem extremes_read_without_stride :
  let c := PankajC.mkConfig 1 1 1 2 1 1 2 1 in
  let globalData := of_list [1; 5; 0; 7] in
  let value (p t : Z) := globalData (p * PankajC.timeSteps c + t) in
  PankajC.global_result c globalData 0 = Some (0, 0, 1, 5) /\
  Z.min (value 0 0) (value 1 0) = 0 /\
  Z.max (value 0 0) (value 1 0) = 1.
Proof. vm_compute. repeat split. Qed.

(** A range of [get_range] lies inside its axis. *)
Lemma range_within (total size0 i : Z) :
  0 < total -> 0 <= size0 -> 0 <= i < total ->
  0 <= SrcC.start (SrcC.get_range i total size0) /\
  SrcC.start (SrcC.get_range i total size0)
  + SrcC.size (SrcC.get_range i total size0) <= size0.
Proof.
  intros Ht Hs Hi.
  pose proof (Z.rem_bound_pos size0 total Hs Ht) as Hrem.
  pose proof (Z.quot_rem' size0 total) as Hqr.
  assert (Hbase : 0 <= Z.quot size0 total) by (apply Z.quot_pos; lia).
  rewrite get_range_start, get_range_size by lia.
  destruct (Z.ltb_spec i (Z.rem size0 total)); nia.
Qed.

Section SrcExtremes.
Variables (c : SrcC.Config) (global_data : rows) (t : Z).
Hypothesis HPX : 0 < SrcC.PX c.
Hypothesis HPY : 0 < SrcC.PY c.
Hypothesis HPZ : 0 < SrcC.PZ c.
Hypothesis HNX : 0 < SrcC.NX c.
Hypothesis HNY : 0 < SrcC.NY c.
Hypothesis HNZ : 0 < SrcC.NZ c.
Hypothesis Ht : 0 <= t < SrcC.NC c.
Hypothesis Hprocs : SrcC.nprocs c = SrcC.PX c * SrcC.PY c * SrcC.PZ c.

(** The block of a worker of the grid lies inside the domain. *)
Lemma block_within (rank x y z lx ly lz : Z) :
  0 <= rank < SrcC.nprocs c ->
  owns c rank x y z lx ly lz -> in_domain c x y z.
Proof.
  intros Hr (Hlx & Hly & Hlz & -> & -> & ->).
  pose proof (cart_rank_coords (SrcC.PY c) (SrcC.PZ c) rank HPY HPZ
                ltac:(lia)) as Hc.
  unfold SrcC.x_local, SrcC.y_local, SrcC.z_local,
    SrcC.x_range, SrcC.y_range, SrcC.z_range in *.
  assert (Hcx : Z.quot rank (SrcC.PY c * SrcC.PZ c) < SrcC.PX c).
  { apply Z.quot_lt_upper_bound; nia. }
  unfold SrcC.cart_coords in *. destruct Hc as (Hx0 & Hy & Hz & _).
  pose proof (range_within (SrcC.PX c) (SrcC.NX c) _ HPX ltac:(lia)
                (conj Hx0 Hcx)).
  pose proof (range_within (SrcC.PY c) (SrcC.NY c) _ HPY ltac:(lia) Hy).
  pose proof (range_within (SrcC.PZ c) (SrcC.NZ c) _ HPZ ltac:(lia) Hz).
  unfold in_domain. lia.
Qed.

(** When the classification starts, the owned cells of a worker hold the
    values of timestep [t] of its [local_data], in the order of the fill
    loop. *)
Lemma owned_cell_value (rank : Z) (h : SrcC.halo3) (local_data : rows)
      (i j k : Z) :
  0 <= rank ->
  SrcC.distribute c global_data rank = Some local_data ->
  SrcC.halo_of c global_data rank t = Some h ->
  1 <= i <= SrcC.x_local c rank -> 1 <= j <= SrcC.y_local c rank ->
  1 <= k <= SrcC.z_local c rank ->
  h i j k
  = local_data
      (count3 1 1 1 (SrcC.y_local c rank) (SrcC.z_local c rank) i j k) t.
Proof.
  intros Hr Hd Hh Hi Hj Hk.
  destruct (local_sizes_nonneg c HPX HPY HPZ ltac:(lia) ltac:(lia) ltac:(lia)
              rank) as (Sx & Sy & Sz).
  unfold SrcC.halo_of in Hh. rewrite Hd in Hh.
  rewrite (exchange_other _ _ _ _ HPY HPZ Hr Hh i j k) by lia.
  unfold SrcC.built_halos. rewrite Hd. unfold SrcC.build_halo.
  destruct (halo_fill_spec (SrcC.x_local c rank) (SrcC.y_local c rank)
              (SrcC.z_local c rank)
              (SrcC.sub_data_of (SrcC.x_local c rank) (SrcC.y_local c rank)
                 (SrcC.z_local c rank) local_data t)
              (SrcC.halo_alloc (SrcC.x_local c rank) (SrcC.y_local c rank)
                 (SrcC.z_local c rank)) Sx Sy Sz) as [_ Hown].
  rewrite Hown by assumption.
  apply sub_data_spec; try assumption.
  pose proof (count3_bounds 1 1 1 (SrcC.x_local c rank) (SrcC.y_local c rank)
                (SrcC.z_local c rank) i j k ltac:(lia) ltac:(lia) ltac:(lia)).
  lia.
Qed.

(** The extremes of a worker bound every value of its block. *)
Lemma worker_extremes_bound (rank : Z) (p : SrcC.Partial)
      (x y z lx ly lz : Z) :
  0 <= rank ->
  SrcC.partial_of c global_data rank t = Some p ->
  owns c rank x y z lx ly lz ->
  SrcC.lmin p <= value_at c global_data x y z t <= SrcC.lmax p.
Proof.
  intros Hr Hp Hown.
  destruct (local_sizes_nonneg c HPX HPY HPZ ltac:(lia) ltac:(lia) ltac:(lia)
              rank) as (Sx & Sy & Sz).
  destruct (scatter_faithful c global_data HPX HPY HPZ
              ltac:(lia) ltac:(lia) ltac:(lia) ltac:(lia) rank)
    as (ld & Hd & Hld).
  unfold SrcC.partial_of in Hp.
  destruct (SrcC.halo_of c global_data rank t) as [h|] eqn:Hh; [|discriminate].
  inversion Hp as [Hp']. clear Hp.
  destruct Hown as (Hlx & Hly & Hlz & -> & -> & ->).
  set (m := (lz * SrcC.y_local c rank + ly) * SrcC.x_local c rank + lx).
  assert (Hm : 0 <= m < SrcC.x_local c rank * SrcC.y_local c rank
                         * SrcC.z_local c rank).
  { pose proof (count3_bounds 0 0 0 (SrcC.z_local c rank) (SrcC.y_local c rank)
                  (SrcC.x_local c rank) lz ly lx ltac:(lia) ltac:(lia)
                  ltac:(lia)) as Hb.
    unfold count3 in Hb. subst m.
    replace (((lz - 0) * SrcC.y_local c rank + (ly - 0)) * SrcC.x_local c rank
             + (lx - 0))
      with ((lz * SrcC.y_local c rank + ly) * SrcC.x_local c rank + lx)
      in Hb by ring.
    nia. }
  destruct (decode3 _ _ _ m Hm Sx Sy Sz) as (a & b & d & Ha & Hb & Hd' & E).
  pose proof (owned_cell_value rank h ld (a + 1) (b + 1) (d + 1) Hr Hd Hh
                ltac:(lia) ltac:(lia) ltac:(lia)) as Hcell.
  replace (count3 1 1 1 (SrcC.y_local c rank) (SrcC.z_local c rank)
             (a + 1) (b + 1) (d + 1)) with m in Hcell
    by (rewrite <- E; unfold count3; ring).
  unfold m in Hcell at 1. rewrite Hld in Hcell by assumption.
  destruct (classify_extremes (SrcC.x_local c rank) (SrcC.y_local c rank)
              (SrcC.z_local c rank) (SrcC.x_range c rank)
              (SrcC.y_range c rank) (SrcC.z_range c rank)
              (SrcC.NX c) (SrcC.NY c) (SrcC.NZ c) h Sx Sy Sz) as [Hbound _].
  specialize (Hbound (a + 1) (b + 1) (d + 1)
                ltac:(lia) ltac:(lia) ltac:(lia)).
  rewrite Hcell in Hbound. unfold value_at. exact Hbound.
Qed.

(** A value a worker's scan has met is the value of a point of its
    block. *)
Lemma owned_cell_is_point (rank : Z) (h : SrcC.halo3) (i j k : Z) :
  0 <= rank < SrcC.nprocs c ->
  SrcC.halo_of c global_data rank t = Some h ->
  1 <= i <= SrcC.x_local c rank -> 1 <= j <= SrcC.y_local c rank ->
  1 <= k <= SrcC.z_local c rank ->
  exists x y z, in_domain c x y z /\ h i j k = value_at c global_data x y z t.
Proof.
  intros Hr Hh Hi Hj Hk.
  destruct (local_sizes_nonneg c HPX HPY HPZ ltac:(lia) ltac:(lia) ltac:(lia)
              rank) as (Sx & Sy & Sz).
  destruct (scatter_faithful c global_data HPX HPY HPZ
              ltac:(lia) ltac:(lia) ltac:(lia) ltac:(lia) rank)
    as (ld & Hd & Hld).
  rewrite (owned_cell_value rank h ld i j k ltac:(lia) Hd Hh Hi Hj Hk).
  pose proof (count3_bounds 1 1 1 (SrcC.x_local c rank) (SrcC.y_local c rank)
                (SrcC.z_local c rank) i j k ltac:(lia) ltac:(lia) ltac:(lia))
    as Hm.
  set (m := count3 1 1 1 (SrcC.y_local c rank) (SrcC.z_local c rank) i j k)
    in *.
  destruct (decode3 (SrcC.z_local c rank) (SrcC.y_local c rank)
              (SrcC.x_local c rank) m ltac:(nia) Sz Sy Sx)
    as (lz & ly & lx & Hlz & Hly & Hlx & E).
  exists (SrcC.start (SrcC.x_range c rank) + lx),
         (SrcC.start (SrcC.y_range c rank) + ly),
         (SrcC.start (SrcC.z_range c rank) + lz).
  split.
  - apply (block_within rank _ _ _ lx ly lz Hr). unfold owns. lia.
  - rewrite <- E. rewrite Hld by assumption. reflexivity.
Qed.

Hypothesis Hfinite :
  forall x y z, in_domain c x y z ->
                - FLT_MAX <= value_at c global_data x y z t <= FLT_MAX.

(** In src.c, whenever the run is defined, the extremes the coordinating
    worker writes for timestep [t] are the least and the greatest value of
    the field at [t], and the counts are the sums of the workers'
    counts. *)
Lemma src_global_result (g : SrcC.GlobalResult) :
  SrcC.global_result c global_data t = Some g ->
  (forall x y z, in_domain c x y z ->
     SrcC.global_min g <= value_at c global_data x y z t <= SrcC.global_max g)
  /\
  (exists x y z, in_domain c x y z /\
                 SrcC.global_min g = value_at c global_data x y z t)
  /\
  (exists x y z, in_domain c x y z /\
                 SrcC.global_max g = value_at c global_data x y z t)
  /\
  (exists ps,
      map Some ps
      = map (fun r => SrcC.partial_of c global_data r t)
            (ranks (SrcC.nprocs c)) /\
      SrcC.total_mins g = reduce_sum (map SrcC.cnt_min ps) /\
      SrcC.total_maxs g = reduce_sum (map SrcC.cnt_max ps)).
Proof.
  intros Hg. unfold SrcC.global_result in Hg.
  destruct (all_some _) as [ps|] eqn:Hps; [|discriminate].
  apply all_some_spec in Hps. inversion Hg as [Hg']. clear Hg.
  cbn [SrcC.global_min SrcC.global_max SrcC.total_mins SrcC.total_maxs].
  assert (HA : forall rank, 0 <= rank < SrcC.nprocs c ->
             exists p, In p ps /\
                       SrcC.partial_of c global_data rank t = Some p).
  { intros rank Hr.
    assert (Hin : In (SrcC.partial_of c global_data rank t) (map Some ps)).
    { rewrite <- Hps.
      apply (in_map (fun r => SrcC.partial_of c global_data r t)).
      now apply In_ranks. }
    apply in_map_iff in Hin. destruct Hin as (p & Hp & Hin).
    exists p. auto. }
  assert (HB : forall p, In p ps ->
             exists rank, 0 <= rank < SrcC.nprocs c /\
                          SrcC.partial_of c global_data rank t = Some p).
  { intros p Hp. apply (in_map Some) in Hp. rewrite <- Hps in Hp.
    apply in_map_iff in Hp. destruct Hp as (rank & Hp & Hr).
    exists rank. split; [now apply In_ranks | exact Hp]. }
  assert (Hne : ps <> []).
  { destruct (HA 0 ltac:(nia)) as (p & Hp & _). intros ->. destruct Hp. }
  assert (Hbound : forall x y z, in_domain c x y z ->
             reduce_min (map SrcC.lmin ps) <= value_at c global_data x y z t
             <= reduce_max (map SrcC.lmax ps)).
  { intros x y z Hd.
    destruct (block_cover c HPX HPY HPZ x y z Hd)
      as (rank & lx & ly & lz & Hr & Hown).
    rewrite <- Hprocs in Hr. destruct (HA rank Hr) as (p & Hp & Hpart).
    pose proof (worker_extremes_bound rank p x y z lx ly lz
                  ltac:(lia) Hpart Hown) as Hb.
    assert (Hnm : map SrcC.lmin ps <> []) by (destruct ps; [congruence | discriminate]).
    assert (HnM : map SrcC.lmax ps <> []) by (destruct ps; [congruence | discriminate]).
    destruct (reduce_min_spec _ Hnm) as [Hlow _].
    destruct (reduce_max_spec _ HnM) as [Hup _].
    specialize (Hlow _ (in_map SrcC.lmin _ _ Hp)).
    specialize (Hup _ (in_map SrcC.lmax _ _ Hp)). lia. }
  assert (Horigin : in_domain c 0 0 0) by (unfold in_domain; lia).
  split; [exact Hbound|]. split; [|split].
  - assert (Hnm : map SrcC.lmin ps <> []) by (destruct ps; [congruence | discriminate]).
    destruct (reduce_min_spec _ Hnm) as [_ Hin].
    apply in_map_iff in Hin. destruct Hin as (p & Hp & Hin).
    destruct (HB p Hin) as (rank & Hr & Hpart).
    unfold SrcC.partial_of in Hpart.
    destruct (SrcC.halo_of c global_data rank t) as [h|] eqn:Hh;
      [|discriminate].
    destruct (local_sizes_nonneg c HPX HPY HPZ ltac:(lia) ltac:(lia)
                ltac:(lia) rank) as (Sx & Sy & Sz).
    destruct (classify_extremes (SrcC.x_local c rank) (SrcC.y_local c rank)
                (SrcC.z_local c rank) (SrcC.x_range c rank)
                (SrcC.y_range c rank) (SrcC.z_range c rank)
                (SrcC.NX c) (SrcC.NY c) (SrcC.NZ c) h Sx Sy Sz)
      as (_ & [Hmax|(i & j & k & Hi & Hj & Hk & Hval)] & _).
    + exists 0, 0, 0. split; [exact Horigin|].
      inversion Hpart as [Hp']. rewrite Hp' in Hmax.
      specialize (Hbound 0 0 0 Horigin). specialize (Hfinite 0 0 0 Horigin).
      lia.
    + destruct (owned_cell_is_point rank h i j k Hr Hh Hi Hj Hk)
        as (x & y & z & Hd & Hcell).
      exists x, y, z. split; [exact Hd|].
      inversion Hpart as [Hp']. rewrite Hp' in Hval. congruence.
  - assert (HnM : map SrcC.lmax ps <> []) by (destruct ps; [congruence | discriminate]).
    destruct (reduce_max_spec _ HnM) as [_ Hin].
    apply in_map_iff in Hin. destruct Hin as (p & Hp & Hin).
    destruct (HB p Hin) as (rank & Hr & Hpart).
    unfold SrcC.partial_of in Hpart.
    destruct (SrcC.halo_of c global_data rank t) as [h|] eqn:Hh;
      [|discriminate].
    destruct (local_sizes_nonneg c HPX HPY HPZ ltac:(lia) ltac:(lia)
                ltac:(lia) rank) as (Sx & Sy & Sz).
    destruct (classify_extremes (SrcC.x_local c rank) (SrcC.y_local c rank)
                (SrcC.z_local c rank) (SrcC.x_range c rank)
                (SrcC.y_range c rank) (SrcC.z_range c rank)
                (SrcC.NX c) (SrcC.NY c) (SrcC.NZ c) h Sx Sy Sz)
      as (_ & _ & [Hmin|(i & j & k & Hi & Hj & Hk & Hval)]).
    + exists 0, 0, 0. split; [exact Horigin|].
      inversion Hpart as [Hp']. rewrite Hp' in Hmin.
      specialize (Hbound 0 0 0 Horigin). specialize (Hfinite 0 0 0 Horigin).
      lia.
    + destruct (owned_cell_is_point rank h i j k Hr Hh Hi Hj Hk)
        as (x & y & z & Hd & Hcell).
      exists x, y, z. split; [exact Hd|].
      inversion Hpart as [Hp']. rewrite Hp' in Hval. congruence.
  - exists ps. auto.
Qed.
End SrcExtremes.

Lemma all_some_total {A B : Type} (f : A -> option B) (l : list A) :
  (forall a, In a l -> exists b, f a = Some b) ->
  exists r, all_some (map f l) = Some r.
Proof.
  induction l as [|a l IH]; intros H; cbn [map all_some].
  - eexists. reflexivity.
  - destruct (H a (or_introl eq_refl)) as [b ->].
    destruct IH as [r ->]; [intros a' Ha'; apply H; now right|].
    eexists. reflexivity.
Qed.

(** With a single worker along x nothing is exchanged. *)
Lemma exchange_single_column (c : SrcC.Config) (halos : Z -> SrcC.halo3)
      (rank : Z) :
  SrcC.PX c = 1 -> 0 < SrcC.PY c -> 0 < SrcC.PZ c ->
  0 <= rank < SrcC.PY c * SrcC.PZ c ->
  SrcC.exchange c halos rank = Some (halos rank).
Proof.
  intros HPX HPY HPZ Hr. unfold SrcC.exchange, SrcC.cart_shift.
  pose proof (cart_rank_coords (SrcC.PY c) (SrcC.PZ c) rank HPY HPZ
                ltac:(lia)) as Hc.
  unfold SrcC.cart_coords in *.
  rewrite (Z.quot_small rank (SrcC.PY c * SrcC.PZ c)) in * by lia.
  destruct Hc as (_ & _ & _ & Hrank).
  cbn [Z.to_nat SrcC.after_left Z.of_nat]. rewrite Hrank.
  cbn [Z.eqb snd]. rewrite HPX. reflexivity.
Qed.

(** The run of src.c is defined on every grid with one worker along x. *)
Lemma global_result_defined (c : SrcC.Config) (global_data : rows) (t : Z) :
  SrcC.PX c = 1 -> 0 < SrcC.PY c -> 0 < SrcC.PZ c ->
  0 <= SrcC.NX c -> 0 <= SrcC.NY c -> 0 <= SrcC.NZ c -> 0 <= SrcC.NC c ->
  SrcC.nprocs c = SrcC.PX c * SrcC.PY c * SrcC.PZ c ->
  exists g, SrcC.global_result c global_data t = Some g.
Proof.
  intros HPX HPY HPZ HNX HNY HNZ HNC Hprocs. unfold SrcC.global_result.
  destruct (all_some_total
              (fun r => SrcC.partial_of c global_data r t)
              (ranks (SrcC.nprocs c))) as [ps ->].
  - intros rank Hr. apply In_ranks in Hr.
    unfold SrcC.partial_of, SrcC.halo_of.
    destruct (scatter_faithful c global_data ltac:(lia) HPY HPZ
                HNX HNY HNZ HNC rank) as (ld & -> & _).
    rewrite exchange_single_column by (try assumption; nia).
    eexists. reflexivity.
  - eexists. reflexivity.
Qed.

(** The only worker of an axis owns the whole axis. *)
Lemma get_range_single (n : Z) :
  SrcC.get_range 0 1 n = SrcC.mkRange 0 (n - 1) n.
Proof.
  unfold SrcC.get_range. rewrite Z.quot_1_r, Z.rem_1_r.
  rewrite for_range_skip by lia. cbn. f_equal; lia.
Qed.

(** src.c on one worker: a field that holds one value at timestep [t], on a
    domain with more than one point, has no local minimum and no local
    maximum counted. *)
Lemma flat_field_single_worker
      (c : SrcC.Config) (global_data : rows) (t v : Z) :
  SrcC.PX c = 1 -> SrcC.PY c = 1 -> SrcC.PZ c = 1 -> SrcC.nprocs c = 1 ->
  0 < SrcC.NX c -> 0 < SrcC.NY c -> 0 < SrcC.NZ c ->
  1 < SrcC.NX c \/ 1 < SrcC.NY c \/ 1 < SrcC.NZ c ->
  0 <= t < SrcC.NC c ->
  (forall x y z, in_domain c x y z -> value_at c global_data x y z t = v) ->
  exists g, SrcC.global_result c global_data t = Some g /\
            SrcC.total_mins g = 0 /\ SrcC.total_maxs g = 0.
Proof.
  intros HPX HPY HPZ Hprocs HNX HNY HNZ Hmany Ht Hflat.
  assert (Hx : SrcC.x_range c 0 = SrcC.mkRange 0 (SrcC.NX c - 1) (SrcC.NX c)).
  { unfold SrcC.x_range. rewrite HPX, HPY, HPZ. apply get_range_single. }
  assert (Hy : SrcC.y_range c 0 = SrcC.mkRange 0 (SrcC.NY c - 1) (SrcC.NY c)).
  { unfold SrcC.y_range. rewrite HPY, HPZ. apply get_range_single. }
  assert (Hz : SrcC.z_range c 0 = SrcC.mkRange 0 (SrcC.NZ c - 1) (SrcC.NZ c)).
  { unfold SrcC.z_range. rewrite HPY, HPZ. apply get_range_single. }
  destruct (global_result_defined c global_data t HPX ltac:(lia) ltac:(lia)
              ltac:(lia) ltac:(lia) ltac:(lia) ltac:(lia) ltac:(lia))
    as [g Hg].
  exists g. split; [exact Hg|].
  unfold SrcC.global_result in Hg. rewrite Hprocs in Hg.
  change (ranks 1) with [0] in Hg. cbn [map all_some] in Hg.
  destruct (SrcC.partial_of c global_data 0 t) as [p|] eqn:Hp;
    [|discriminate].
  inversion Hg as [Hg']. cbn [SrcC.total_mins SrcC.total_maxs map].
  unfold reduce_sum. cbn [fold_left].
  unfold SrcC.partial_of in Hp.
  destruct (SrcC.halo_of c global_data 0 t) as [h|] eqn:Hh; [|discriminate].
  inversion Hp as [Hp']. 
  assert (Hxl : SrcC.x_local c 0 = SrcC.NX c)
    by (unfold SrcC.x_local; now rewrite Hx).
  assert (Hyl : SrcC.y_local c 0 = SrcC.NY c)
    by (unfold SrcC.y_local; now rewrite Hy).
  assert (Hzl : SrcC.z_local c 0 = SrcC.NZ c)
    by (unfold SrcC.z_local; now rewrite Hz).
  assert (Hfl : forall n,
             present (SrcC.x_range c 0) (SrcC.y_range c 0) (SrcC.z_range c 0)
                     (SrcC.NX c) (SrcC.NY c) (SrcC.NZ c) n ->
             halo_at h n = v).
  { intros [[i j] k] Hpres. unfold present in Hpres.
    rewrite Hx, Hy, Hz in Hpres. cbn [SrcC.start] in Hpres.
    destruct (owned_cell_is_point c global_data t ltac:(lia) ltac:(lia)
                ltac:(lia) HNX HNY HNZ Ht ltac:(lia) 0 h i j k
                ltac:(lia) Hh ltac:(lia) ltac:(lia) ltac:(lia))
      as (x & y & z & Hd & Hcell).
    unfold halo_at. rewrite Hcell. now apply Hflat. }
  assert (Hs : SrcC.start (SrcC.x_range c 0) = 0 /\
               SrcC.start (SrcC.y_range c 0) = 0 /\
               SrcC.start (SrcC.z_range c 0) = 0)
    by (rewrite Hx, Hy, Hz; auto).
  destruct Hs as (Hsx & Hsy & Hsz).
  destruct (flat_classify (SrcC.x_local c 0) (SrcC.y_local c 0)
              (SrcC.z_local c 0) (SrcC.x_range c 0) (SrcC.y_range c 0)
              (SrcC.z_range c 0) (SrcC.NX c) (SrcC.NY c) (SrcC.NZ c) h v
              ltac:(lia) ltac:(lia) ltac:(lia) ltac:(lia) ltac:(lia)
              ltac:(lia) Hmany Hfl)
    as [Hmin Hmax].
  rewrite Hmin, Hmax. auto.
Qed.

(** * Further properties of the programs *)

(** ** src.c: the partitioner *)

(** Cut points that never decrease keep the segments in order. *)
Lemma chain_monotone (f : Z -> Z) :
  (forall i, 0 <= i -> f i <= f (i + 1)) ->
  forall i j, 0 <= i -> i <= j -> f i <= f j.
Proof.
  intros Hstep i j Hi Hij.
  replace j with (i + Z.of_nat (Z.to_nat (j - i))) by lia.
  induction (Z.to_nat (j - i)) as [|k IH].
  - replace (i + Z.of_nat 0) with i by lia. lia.
  - specialize (Hstep (i + Z.of_nat k) ltac:(lia)).
    replace (i + Z.of_nat (S k)) with (i + Z.of_nat k + 1) by lia. lia.
Qed.

Lemma balanced_cut_step (total size0 i : Z) :
  0 < total -> 0 <= size0 -> 0 <= i ->
  balanced_cut total size0 i <= balanced_cut total size0 (i + 1).
Proof.
  intros Ht Hs Hi. unfold balanced_cut.
  pose proof (Z.rem_bound_pos size0 total Hs Ht).
  assert (0 <= Z.quot size0 total) by (apply Z.quot_pos; lia).
  lia.
Qed.

Lemma get_range_cuts (total size0 i : Z) :
  0 < total -> 0 <= size0 -> 0 <= i ->
  SrcC.start (SrcC.get_range i total size0) = balanced_cut total size0 i /\
  SrcC.start (SrcC.get_range i total size0)
  + SrcC.size (SrcC.get_range i total size0)
  = balanced_cut total size0 (i + 1).
Proof.
  intros Ht Hs Hi.
  pose proof (Z.rem_bound_pos size0 total Hs Ht).
  rewrite get_range_start, get_range_size by lia. unfold balanced_cut.
  destruct (Z.ltb_spec i (Z.rem size0 total)); lia.
Qed.



(** Two workers of an axis never own the same index. *)
Lemma axis_owner_unique (total size0 g i i' : Z) :
  0 < total -> 0 <= size0 -> 0 <= i -> 0 <= i' ->
  SrcC.start (SrcC.get_range i total size0) <= g
  < SrcC.start (SrcC.get_range i total size0)
    + SrcC.size (SrcC.get_range i total size0) ->
  SrcC.start (SrcC.get_range i' total size0) <= g
  < SrcC.start (SrcC.get_range i' total size0)
    + SrcC.size (SrcC.get_range i' total size0) ->
  i = i'.
Proof.
  intros Ht Hs Hi Hi' Hg Hg'.
  destruct (get_range_cuts total size0 i Ht Hs Hi) as [E1 E2].
  destruct (get_range_cuts total size0 i' Ht Hs Hi') as [E1' E2'].
  rewrite E2, E1 in Hg. rewrite E2', E1' in Hg'.
  pose proof (chain_monotone (balanced_cut total size0)
                (fun k Hk => balanced_cut_step total size0 k Ht Hs Hk)) as Hm.
  destruct (Z.lt_trichotomy i i') as [Hlt|[Heq|Hgt]]; [|exact Heq|].
  - pose proof (Hm (i + 1) i' ltac:(lia) ltac:(lia)). lia.
  - pose proof (Hm (i' + 1) i ltac:(lia) ltac:(lia)). lia.
Qed.

(** X2.  [get_range] on an axis of any extent, also one shorter than the number
    of workers: every index of the axis lies in the range of exactly one
    worker (the ranges of the other workers may be empty). *)
Theorem get_range_one_owner_per_index (total size0 g : Z) :
  0 < total -> 0 <= g < size0 ->
  exists i,
    0 <= i < total /\
    SrcC.start (SrcC.get_range i total size0) <= g
    <= SrcC.end_ (SrcC.get_range i total size0) /\
    forall i', 0 <= i' < total ->
      SrcC.start (SrcC.get_range i' total size0) <= g
      <= SrcC.end_ (SrcC.get_range i' total size0) ->
      i' = i.
Proof.
  intros Ht Hg.
  destruct (axis_cover total size0 g Ht Hg) as (i & Hi & Hin).
  exists i. split; [exact Hi|]. split.
  - rewrite get_range_end. lia.
  - intros i' Hi' Hin'. rewrite get_range_end in Hin'.
    apply (axis_owner_unique total size0 g i' i); lia.
Qed.

Lemma get_range_one_owner_per_index_witness :
  exists i,
    0 <= i < 4 /\
    SrcC.start (SrcC.get_range i 4 2) <= 1
    <= SrcC.end_ (SrcC.get_range i 4 2) /\
    forall i', 0 <= i' < 4 ->
      SrcC.start (SrcC.get_range i' 4 2) <= 1
      <= SrcC.end_ (SrcC.get_range i' 4 2) ->
      i' = i.
Proof. apply (get_range_one_owner_per_index 4 2 1); lia. Defined.

(** ** src.c: the distribution *)

(** X3.  After the distribution of src.c every worker holds, for each point of
    its block and each timestep, the value the field has there:
    [local_data[z * y_local * x_local + y * x_local + x][t]] is the value of
    the global point [(start_x + x, start_y + y, start_z + z)]. *)
Theorem distribution_delivers_blocks
        (c : SrcC.Config) (global_data : rows) (rank : Z) :
  0 < SrcC.PX c -> 0 < SrcC.PY c -> 0 < SrcC.PZ c ->
  0 <= SrcC.NX c -> 0 <= SrcC.NY c -> 0 <= SrcC.NZ c -> 0 <= SrcC.NC c ->
  exists local_data,
    SrcC.distribute c global_data rank = Some local_data /\
    forall x y z t,
      0 <= x < SrcC.x_local c rank -> 0 <= y < SrcC.y_local c rank ->
      0 <= z < SrcC.z_local c rank -> 0 <= t < SrcC.NC c ->
      local_data (z * SrcC.y_local c rank * SrcC.x_local c rank
                  + y * SrcC.x_local c rank + x) t
      = value_at c global_data
          (SrcC.start (SrcC.x_range c rank) + x)
          (SrcC.start (SrcC.y_range c rank) + y)
          (SrcC.start (SrcC.z_range c rank) + z) t.
Proof.
  intros HPX HPY HPZ HNX HNY HNZ HNC.
  destruct (scatter_faithful c global_data HPX HPY HPZ HNX HNY HNZ HNC rank)
    as (ld & Hd & Hld).
  exists ld. split; [exact Hd|]. intros x y z t Hx Hy Hz Ht.
  replace (z * SrcC.y_local c rank * SrcC.x_local c rank
           + y * SrcC.x_local c rank + x)
    with ((z * SrcC.y_local c rank + y) * SrcC.x_local c rank + x) by ring.
  rewrite Hld by assumption. reflexivity.
Qed.

Lemma distribution_delivers_blocks_witness :
  let c := SrcC.mkConfig 2 1 1 4 1 1 2 2 in
  let global_data : rows := fun p t => 10 * p + t in
  exists local_data,
    SrcC.distribute c global_data 1 = Some local_data /\
    forall x y z t,
      0 <= x < SrcC.x_local c 1 -> 0 <= y < SrcC.y_local c 1 ->
      0 <= z < SrcC.z_local c 1 -> 0 <= t < SrcC.NC c ->
      local_data (z * SrcC.y_local c 1 * SrcC.x_local c 1
                  + y * SrcC.x_local c 1 + x) t
      = value_at c global_data
          (SrcC.start (SrcC.x_range c 1) + x)
          (SrcC.start (SrcC.y_range c 1) + y)
          (SrcC.start (SrcC.z_range c 1) + z) t.
Proof.
  intros c global_data.
  apply (distribution_delivers_blocks c global_data 1); cbn; lia.
Defined.

(** A point of the domain has one owner among the workers of the grid. *)
Lemma block_owner_unique (c : SrcC.Config) (rank rank' x y z : Z)
      (lx ly lz lx' ly' lz' : Z) :
  0 < SrcC.PX c -> 0 < SrcC.PY c -> 0 < SrcC.PZ c ->
  0 <= SrcC.NX c -> 0 <= SrcC.NY c -> 0 <= SrcC.NZ c ->
  0 <= rank -> 0 <= rank' ->
  owns c rank x y z lx ly lz -> owns c rank' x y z lx' ly' lz' ->
  rank = rank'.
Proof.
  intros HPX HPY HPZ HNX HNY HNZ Hr Hr'
         (Hlx & Hly & Hlz & Ex & Ey & Ez) (Hlx' & Hly' & Hlz' & Ex' & Ey' & Ez').
  pose proof (cart_rank_coords (SrcC.PY c) (SrcC.PZ c) rank HPY HPZ Hr) as Hc.
  pose proof (cart_rank_coords (SrcC.PY c) (SrcC.PZ c) rank' HPY HPZ Hr') as Hc'.
  unfold SrcC.x_local, SrcC.y_local, SrcC.z_local,
    SrcC.x_range, SrcC.y_range, SrcC.z_range in *.
  destruct (SrcC.cart_coords (SrcC.PY c) (SrcC.PZ c) rank) as [[cx cy] cz].
  destruct (SrcC.cart_coords (SrcC.PY c) (SrcC.PZ c) rank') as [[cx' cy'] cz'].
  destruct Hc as (Hcx & Hcy & Hcz & <-). destruct Hc' as (Hcx' & Hcy' & Hcz' & <-).
  assert (cx = cx')
    by (apply (axis_owner_unique (SrcC.PX c) (SrcC.NX c) x); lia).
  assert (cy = cy')
    by (apply (axis_owner_unique (SrcC.PY c) (SrcC.NY c) y); lia).
  assert (cz = cz')
    by (apply (axis_owner_unique (SrcC.PZ c) (SrcC.NZ c) z); lia).
  congruence.
Qed.

(** X4.  Round trip of the distribution of src.c: every value of the global
    field is held after the distribution by exactly one worker of the grid,
    the owner of its point, at the place of the point in the owner's
    block. *)
Theorem every_value_has_one_holder
        (c : SrcC.Config) (global_data : rows) (x y z t : Z) :
  0 < SrcC.PX c -> 0 < SrcC.PY c -> 0 < SrcC.PZ c ->
  in_domain c x y z -> 0 <= t < SrcC.NC c ->
  exists rank lx ly lz local_data,
    (0 <= rank < SrcC.PX c * SrcC.PY c * SrcC.PZ c /\
     owns c rank x y z lx ly lz /\
     SrcC.distribute c global_data rank = Some local_data /\
     local_data (lz * SrcC.y_local c rank * SrcC.x_local c rank
                 + ly * SrcC.x_local c rank + lx) t
     = value_at c global_data x y z t) /\
    forall rank' lx' ly' lz',
      0 <= rank' < SrcC.PX c * SrcC.PY c * SrcC.PZ c ->
      owns c rank' x y z lx' ly' lz' -> rank' = rank.
Proof.
  intros HPX HPY HPZ Hd Ht.
  destruct (scatter_round_trip c global_data HPX HPY HPZ ltac:(lia) x y z t
              Hd Ht) as (rank & lx & ly & lz & ld & Hr & Hown & Hdist & Hval).
  exists rank, lx, ly, lz, ld. split.
  - repeat (split; [assumption|]).
    replace (lz * SrcC.y_local c rank * SrcC.x_local c rank
             + ly * SrcC.x_local c rank + lx)
      with ((lz * SrcC.y_local c rank + ly) * SrcC.x_local c rank + lx) by ring.
    exact Hval.
  - intros rank' lx' ly' lz' Hr' Hown'. destruct Hd as (Hx & Hy & Hz).
    apply (block_owner_unique c rank' rank x y z lx' ly' lz' lx ly lz);
      try assumption; lia.
Qed.

Lemma every_value_has_one_holder_witness :
  let c := SrcC.mkConfig 2 1 1 4 1 1 2 2 in
  let global_data : rows := fun p t => 10 * p + t in
  exists rank lx ly lz local_data,
    (0 <= rank < SrcC.PX c * SrcC.PY c * SrcC.PZ c /\
     owns c rank 3 0 0 lx ly lz /\
     SrcC.distribute c global_data rank = Some local_data /\
     local_data (lz * SrcC.y_local c rank * SrcC.x_local c rank
                 + ly * SrcC.x_local c rank + lx) 1
     = value_at c global_data 3 0 0 1) /\
    forall rank' lx' ly' lz',
      0 <= rank' < SrcC.PX c * SrcC.PY c * SrcC.PZ c ->
      owns c rank' 3 0 0 lx' ly' lz' -> rank' = rank.
Proof.
  intros c global_data.
  apply (every_value_has_one_holder c global_data 3 0 0 1);
    try (cbn; lia).
  unfold in_domain. cbn. lia.
Defined.

(** ** src.c: the halo block *)

(** X5.  The halo block a worker builds for a timestep: the owned cell
    [(i, j, k)] holds the value of [local_data] number
    [((i - 1) * y_local + (j - 1)) * z_local + (k - 1)], the index running
    in the order of the fill loop, and every ghost cell holds [FLT_MAX]. *)
Theorem halo_block_layout
        (c : SrcC.Config) (local_data : rows) (rank t i j k : Z) :
  0 < SrcC.PX c -> 0 < SrcC.PY c -> 0 < SrcC.PZ c ->
  0 <= SrcC.NX c -> 0 <= SrcC.NY c -> 0 <= SrcC.NZ c ->
  0 <= i <= SrcC.x_local c rank + 1 ->
  0 <= j <= SrcC.y_local c rank + 1 ->
  0 <= k <= SrcC.z_local c rank + 1 ->
  (1 <= i <= SrcC.x_local c rank /\ 1 <= j <= SrcC.y_local c rank /\
   1 <= k <= SrcC.z_local c rank ->
   SrcC.build_halo c local_data rank t i j k
   = local_data (((i - 1) * SrcC.y_local c rank + (j - 1)) * SrcC.z_local c rank
                 + (k - 1)) t)
  /\
  (~ (1 <= i <= SrcC.x_local c rank /\ 1 <= j <= SrcC.y_local c rank /\
      1 <= k <= SrcC.z_local c rank) ->
   SrcC.build_halo c local_data rank t i j k = FLT_MAX).
Proof.
  intros HPX HPY HPZ HNX HNY HNZ Hi Hj Hk.
  destruct (local_sizes_nonneg c HPX HPY HPZ HNX HNY HNZ rank) as (Sx & Sy & Sz).
  unfold SrcC.build_halo.
  destruct (halo_fill_spec (SrcC.x_local c rank) (SrcC.y_local c rank)
              (SrcC.z_local c rank)
              (SrcC.sub_data_of (SrcC.x_local c rank) (SrcC.y_local c rank)
                 (SrcC.z_local c rank) local_data t)
              (SrcC.halo_alloc (SrcC.x_local c rank) (SrcC.y_local c rank)
                 (SrcC.z_local c rank)) Sx Sy Sz) as [Hghost Hown].
  split.
  - intros (Oi & Oj & Ok). rewrite Hown by assumption.
    pose proof (count3_bounds 1 1 1 (SrcC.x_local c rank) (SrcC.y_local c rank)
                  (SrcC.z_local c rank) i j k ltac:(lia) ltac:(lia) ltac:(lia)).
    rewrite sub_data_spec by (try assumption; lia).
    reflexivity.
  - intros Hno. rewrite Hghost by assumption. apply halo_alloc_spec; lia.
Qed.

Lemma halo_block_layout_witness :
  let c := SrcC.mkConfig 1 1 1 3 1 2 1 1 in
  let local_data : rows := fun p _ => p in
  (1 <= 2 <= SrcC.x_local c 0 /\ 1 <= 1 <= SrcC.y_local c 0 /\
   1 <= 2 <= SrcC.z_local c 0 ->
   SrcC.build_halo c local_data 0 0 2 1 2
   = local_data (((2 - 1) * SrcC.y_local c 0 + (1 - 1)) * SrcC.z_local c 0
                 + (2 - 1)) 0)
  /\
  (~ (1 <= 2 <= SrcC.x_local c 0 /\ 1 <= 1 <= SrcC.y_local c 0 /\
      1 <= 2 <= SrcC.z_local c 0) ->
   SrcC.build_halo c local_data 0 0 2 1 2 = FLT_MAX).
Proof.
  intros c local_data.
  apply (halo_block_layout c local_data 0 0 2 1 2); cbn; lia.
Defined.

(** X6.  In src.c the ghost layers of the y and z faces of every worker still
    hold [FLT_MAX] when the classification starts: no exchange fills
    them, whether or not a neighbour lives behind the face. *)
Theorem y_z_faces_never_filled
        (c : SrcC.Config) (global_data : rows) (rank t i j k : Z) :
  0 < SrcC.PX c -> 0 < SrcC.PY c -> 0 < SrcC.PZ c ->
  0 <= SrcC.NX c -> 0 <= SrcC.NY c -> 0 <= SrcC.NZ c ->
  0 <= rank ->
  1 <= i <= SrcC.x_local c rank ->
  0 <= j <= SrcC.y_local c rank + 1 ->
  0 <= k <= SrcC.z_local c rank + 1 ->
  j = 0 \/ j = SrcC.y_local c rank + 1 \/
  k = 0 \/ k = SrcC.z_local c rank + 1 ->
  match SrcC.halo_of c global_data rank t with
  | Some h => h i j k = FLT_MAX
  | None => True
  end.
Proof.
  intros HPX HPY HPZ HNX HNY HNZ Hr Hi Hj Hk Hface.
  destruct (local_sizes_nonneg c HPX HPY HPZ HNX HNY HNZ rank) as (Sx & Sy & Sz).
  destruct (SrcC.halo_of c global_data rank t) as [h|] eqn:Hh; [|exact I].
  apply (y_z_ghost_layers_keep_sentinel c global_data rank t h); assumption.
Qed.

Lemma y_z_faces_never_filled_witness :
  let c := SrcC.mkConfig 1 2 1 1 2 1 1 2 in
  let global_data : rows := fun p _ => p in
  match SrcC.halo_of c global_data 0 0 with
  | Some h => h 1 2 1 = FLT_MAX
  | None => True
  end.
Proof.
  intros c global_data.
  apply (y_z_faces_never_filled c global_data 0 0 1 2 1); cbn; lia.
Defined.

(** ** src.c: the exchange of the x faces *)

(** The extents of the block of the worker at the coordinates
    [(cx, cy, cz)]. *)
Lemma local_sizes_at (c : SrcC.Config) (cx cy cz : Z) :
  0 <= cx < SrcC.PX c -> 0 <= cy < SrcC.PY c -> 0 <= cz < SrcC.PZ c ->
  let rank := SrcC.cart_rank (SrcC.PY c) (SrcC.PZ c) (cx, cy, cz) in
  SrcC.x_local c rank = SrcC.size (SrcC.get_range cx (SrcC.PX c) (SrcC.NX c)) /\
  SrcC.y_local c rank = SrcC.size (SrcC.get_range cy (SrcC.PY c) (SrcC.NY c)) /\
  SrcC.z_local c rank = SrcC.size (SrcC.get_range cz (SrcC.PZ c) (SrcC.NZ c)).
Proof.
  intros Hx Hy Hz rank. subst rank.
  unfold SrcC.x_local, SrcC.y_local, SrcC.z_local,
    SrcC.x_range, SrcC.y_range, SrcC.z_range.
  destruct (cart_coords_rank (SrcC.PX c) (SrcC.PY c) (SrcC.PZ c) cx cy cz
              Hx Hy Hz) as [-> _].
  repeat split.
Qed.

Lemma exchange_at_coords (c : SrcC.Config) (halos : Z -> SrcC.halo3)
      (cx cy cz : Z) :
  0 <= cx < SrcC.PX c -> 0 <= cy < SrcC.PY c -> 0 <= cz < SrcC.PZ c ->
  let rank := SrcC.cart_rank (SrcC.PY c) (SrcC.PZ c) (cx, cy, cz) in
  let right_ := SrcC.cart_rank (SrcC.PY c) (SrcC.PZ c) (cx + 1, cy, cz) in
  SrcC.exchange c halos rank
  = match SrcC.after_left c halos (Z.to_nat cx) cy cz with
    | Some halo =>
        if cx + 1 <? SrcC.PX c
        then SrcC.sendrecv (SrcC.z_local c rank) halo (SrcC.x_local c rank)
               (SrcC.x_local c rank + 1)
               (SrcC.y_local c rank * SrcC.z_local c rank)
               (SrcC.row_run (SrcC.z_local c right_) (halos right_) 1 1 1
                  (SrcC.y_local c right_ * SrcC.z_local c right_))
        else Some halo
    | None => None
    end.
Proof.
  intros Hx Hy Hz rank right_. subst rank right_.
  unfold SrcC.exchange, SrcC.cart_shift.
  destruct (cart_coords_rank (SrcC.PX c) (SrcC.PY c) (SrcC.PZ c) cx cy cz
              Hx Hy Hz) as [-> _].
  cbn [Z.eqb snd].
  destruct (SrcC.after_left c halos (Z.to_nat cx) cy cz); [|reflexivity].
  destruct (cx + 1 <? SrcC.PX c); reflexivity.
Qed.

Lemma after_left_step (c : SrcC.Config) (halos : Z -> SrcC.halo3)
      (cx cy cz : Z) :
  1 <= cx ->
  let rank := SrcC.cart_rank (SrcC.PY c) (SrcC.PZ c) (cx, cy, cz) in
  let left_ := SrcC.cart_rank (SrcC.PY c) (SrcC.PZ c) (cx - 1, cy, cz) in
  SrcC.after_left c halos (Z.to_nat cx) cy cz
  = match SrcC.after_left c halos (Z.to_nat (cx - 1)) cy cz with
    | Some halo_l =>
        SrcC.sendrecv (SrcC.z_local c rank) (halos rank) 1 0
          (SrcC.y_local c rank * SrcC.z_local c rank)
          (SrcC.row_run (SrcC.z_local c left_) halo_l (SrcC.x_local c left_)
             1 1 (SrcC.y_local c left_ * SrcC.z_local c left_))
    | None => None
    end.
Proof.
  intros Hcx rank left_. subst rank left_.
  replace (Z.to_nat cx) with (S (Z.to_nat (cx - 1))) by lia.
  change (SrcC.after_left c halos (S (Z.to_nat (cx - 1))) cy cz)
    with (let rank := SrcC.cart_rank (SrcC.PY c) (SrcC.PZ c)
                        (Z.of_nat (S (Z.to_nat (cx - 1))), cy, cz) in
          let left_ := SrcC.cart_rank (SrcC.PY c) (SrcC.PZ c)
                         (Z.of_nat (Z.to_nat (cx - 1)), cy, cz) in
          match SrcC.after_left c halos (Z.to_nat (cx - 1)) cy cz with
          | Some halo_l =>
              SrcC.sendrecv (SrcC.z_local c rank) (halos rank) 1 0
                (SrcC.y_local c rank * SrcC.z_local c rank)
                (SrcC.row_run (SrcC.z_local c left_) halo_l
                   (SrcC.x_local c left_) 1 1
                   (SrcC.y_local c left_ * SrcC.z_local c left_))
          | None => None
          end).
  cbv zeta.
  replace (Z.of_nat (S (Z.to_nat (cx - 1)))) with cx by lia.
  replace (Z.of_nat (Z.to_nat (cx - 1))) with (cx - 1) by lia.
  reflexivity.
Qed.

Lemma nth_map_seq (f : nat -> Z) (N m : nat) :
  (m < N)%nat -> nth m (map f (seq 0 N)) 0 = f m.
Proof.
  intros H.
  rewrite (nth_indep _ 0 (f 0%nat)) by (rewrite length_map, length_seq; lia).
  rewrite map_nth, seq_nth by lia. reflexivity.
Qed.

(** What a defined [MPI_Sendrecv] leaves in the receiving row: the
    partner's row, float by float. *)
Lemma sendrecv_row (zl : Z) (h : SrcC.halo3) (si ri n : Z)
      (zl' : Z) (h' : SrcC.halo3) (i' n' : Z) (hres : SrcC.halo3) :
  SrcC.sendrecv zl h si ri n (SrcC.row_run zl' h' i' 1 1 n') = Some hres ->
  forall m, 0 <= m < n' -> hres ri 1 (1 + m) = h' i' 1 (1 + m).
Proof.
  unfold SrcC.sendrecv, SrcC.row_run. intros H m Hm.
  destruct (1 + n <=? zl + 2); [|discriminate].
  destruct (1 + n' <=? zl' + 2); [|discriminate].
  destruct (_ && _); [|discriminate].
  assert (E : hres = SrcC.row_store h ri 1 1
                      (map (fun m : nat => h' i' 1 (1 + Z.of_nat m))
                           (seq 0 (Z.to_nat n')))) by congruence.
  rewrite E. unfold SrcC.row_store.
  rewrite length_map, length_seq, !Z.eqb_refl.
  replace (1 <=? 1 + m) with true by (symmetry; apply Z.leb_le; lia).
  replace (1 + m <? 1 + Z.of_nat (Z.to_nat n')) with true
    by (symmetry; apply Z.ltb_lt; lia).
  cbn [andb]. rewrite nth_map_seq by lia. f_equal. lia.
Qed.

(** A [MPI_Sendrecv] of [n] floats between two rows of [zl + 2] floats is
    defined when the [n] floats after the first one fit into the row. *)
Lemma sendrecv_defined (zl : Z) (h : SrcC.halo3) (si ri n : Z)
      (h' : SrcC.halo3) (i' : Z) :
  0 <= n -> n <= zl + 1 ->
  exists hres,
    SrcC.sendrecv zl h si ri n (SrcC.row_run zl h' i' 1 1 n) = Some hres.
Proof.
  intros H0 Hn. unfold SrcC.sendrecv, SrcC.row_run.
  replace (1 + n <=? zl + 2) with true by (symmetry; apply Z.leb_le; lia).
  rewrite length_map, length_seq.
  replace (Z.of_nat (Z.to_nat n) <=? n) with true
    by (symmetry; apply Z.leb_le; lia).
  replace (1 + Z.of_nat (Z.to_nat n) <=? zl + 2) with true
    by (symmetry; apply Z.leb_le; lia).
  eexists. reflexivity.
Qed.

(** A [MPI_Sendrecv] whose [n] floats do not fit into the row is
    undefined. *)
Lemma sendrecv_overrun (zl : Z) (h : SrcC.halo3) (si ri n : Z) incoming :
  zl + 1 < n -> SrcC.sendrecv zl h si ri n incoming = None.
Proof.
  intros Hn. unfold SrcC.sendrecv, SrcC.row_run.
  replace (1 + n <=? zl + 2) with false by (symmetry; apply Z.leb_gt; lia).
  reflexivity.
Qed.

Lemma after_left_defined (c : SrcC.Config) (halos : Z -> SrcC.halo3)
      (cy cz : Z) (cl : nat) :
  0 <= cy < SrcC.PY c -> 0 <= cz < SrcC.PZ c ->
  0 <= SrcC.NY c -> 0 <= SrcC.NZ c ->
  Z.of_nat cl < SrcC.PX c ->
  SrcC.size (SrcC.get_range cy (SrcC.PY c) (SrcC.NY c))
  * SrcC.size (SrcC.get_range cz (SrcC.PZ c) (SrcC.NZ c))
  <= SrcC.size (SrcC.get_range cz (SrcC.PZ c) (SrcC.NZ c)) + 1 ->
  exists h, SrcC.after_left c halos cl cy cz = Some h.
Proof.
  intros Hy Hz HNY HNZ Hcl Hfit.
  pose proof (get_range_size_nonneg cy (SrcC.PY c) (SrcC.NY c)
                ltac:(lia) HNY) as Sy.
  pose proof (get_range_size_nonneg cz (SrcC.PZ c) (SrcC.NZ c)
                ltac:(lia) HNZ) as Sz.
  induction cl as [|cl IH].
  - eexists. reflexivity.
  - destruct IH as [hl Hl]; [lia|].
    pose proof (after_left_step c halos (Z.of_nat (S cl)) cy cz ltac:(lia))
      as E.
    cbv zeta in E. rewrite Nat2Z.id in E.
    replace (Z.to_nat (Z.of_nat (S cl) - 1)) with cl in E by lia.
    rewrite E, Hl.
    destruct (local_sizes_at c (Z.of_nat (S cl)) cy cz ltac:(lia) Hy Hz)
      as (_ & -> & ->).
    destruct (local_sizes_at c (Z.of_nat (S cl) - 1) cy cz ltac:(lia) Hy Hz)
      as (_ & -> & ->).
    apply sendrecv_defined; nia.
Qed.

(** X7.  In src.c a worker with a neighbour along x hands
    [y_local * z_local] floats starting at [halo[.][1][1]] to
    [MPI_Sendrecv], while the row [halo[.][1]] it points into was
    allocated with [z_local + 2] floats.  The exchange stays inside the
    row, and so is defined, exactly when
    [y_local * z_local <= z_local + 1]; on every thicker block it reads
    and writes past the end of the row. *)
Theorem x_exchange_overruns_row
        (c : SrcC.Config) (halos : Z -> SrcC.halo3) (cx cy cz : Z) :
  0 <= cx < SrcC.PX c -> 0 <= cy < SrcC.PY c -> 0 <= cz < SrcC.PZ c ->
  0 <= SrcC.NY c -> 0 <= SrcC.NZ c ->
  1 <= cx \/ cx + 1 < SrcC.PX c ->
  let rank := SrcC.cart_rank (SrcC.PY c) (SrcC.PZ c) (cx, cy, cz) in
  SrcC.exchange c halos rank = None <->
  SrcC.z_local c rank + 1 < SrcC.y_local c rank * SrcC.z_local c rank.
Proof.
  intros Hx Hy Hz HNY HNZ Hnb rank.
  pose proof (exchange_at_coords c halos cx cy cz Hx Hy Hz) as E.
  cbv zeta in E. fold rank in E. rewrite E. clear E.
  destruct (local_sizes_at c cx cy cz Hx Hy Hz) as (_ & Ey & Ez).
  fold rank in Ey, Ez.
  pose proof (get_range_size_nonneg cy (SrcC.PY c) (SrcC.NY c)
                ltac:(lia) HNY) as Sy.
  pose proof (get_range_size_nonneg cz (SrcC.PZ c) (SrcC.NZ c)
                ltac:(lia) HNZ) as Sz.
  split.
  - intros Hnone.
    destruct (Z.lt_ge_cases (SrcC.z_local c rank + 1)
                (SrcC.y_local c rank * SrcC.z_local c rank)) as [|Hfit];
      [assumption | exfalso].
    destruct (after_left_defined c halos cy cz (Z.to_nat cx) Hy Hz HNY HNZ
                ltac:(lia) ltac:(lia)) as [h Hh].
    rewrite Hh in Hnone.
    destruct (Z.ltb_spec (cx + 1) (SrcC.PX c)); [|discriminate].
    destruct (local_sizes_at c (cx + 1) cy cz ltac:(lia) Hy Hz)
      as (_ & Ey' & Ez').
    cbv zeta in Ey', Ez'. rewrite Ey', Ez', <- Ey, <- Ez in Hnone.
    destruct (sendrecv_defined (SrcC.z_local c rank) h (SrcC.x_local c rank)
                (SrcC.x_local c rank + 1)
                (SrcC.y_local c rank * SrcC.z_local c rank)
                (halos (SrcC.cart_rank (SrcC.PY c) (SrcC.PZ c)
                          (cx + 1, cy, cz))) 1 ltac:(nia) Hfit)
      as [hres Hres].
    congruence.
  - intros Hover.
    destruct (Z.le_gt_cases 1 cx) as [Hl|Hl].
    + pose proof (after_left_step c halos cx cy cz Hl) as E.
      cbv zeta in E. fold rank in E. rewrite E.
      destruct (SrcC.after_left c halos (Z.to_nat (cx - 1)) cy cz);
        [|reflexivity].
      rewrite sendrecv_overrun by assumption. reflexivity.
    + replace cx with 0 by lia. cbn [Z.to_nat SrcC.after_left].
      replace (0 + 1 <? SrcC.PX c) with true
        by (symmetry; apply Z.ltb_lt; lia).
      apply sendrecv_overrun.
      replace cx with 0 in Hover by lia. exact Hover.
Qed.

Lemma x_exchange_overruns_row_witness :
  let c := SrcC.mkConfig 2 1 1 2 2 2 1 2 in
  let halos : Z -> SrcC.halo3 := fun _ _ _ _ => 0 in
  let rank := SrcC.cart_rank (SrcC.PY c) (SrcC.PZ c) (0, 0, 0) in
  SrcC.exchange c halos rank = None <->
  SrcC.z_local c rank + 1 < SrcC.y_local c rank * SrcC.z_local c rank.
Proof.
  intros c halos.
  apply (x_exchange_overruns_row c halos 0 0 0); cbn; lia.
Defined.

(** X8.  In src.c, whenever the exchange of a worker is defined, its two x ghost
    rows [halo[0][1]] and [halo[x_local + 1][1]] hold, float by float, the
    boundary rows [halo[x_local][1]] of the left and [halo[1][1]] of the
    right neighbour, and every cell between the two ghost layers is as
    the worker built it. *)
Theorem x_ghost_rows_after_exchange
        (c : SrcC.Config) (halos : Z -> SrcC.halo3) (cx cy cz : Z) :
  0 <= cx < SrcC.PX c -> 0 <= cy < SrcC.PY c -> 0 <= cz < SrcC.PZ c ->
  0 <= SrcC.NX c ->
  let rank := SrcC.cart_rank (SrcC.PY c) (SrcC.PZ c) (cx, cy, cz) in
  let left_ := SrcC.cart_rank (SrcC.PY c) (SrcC.PZ c) (cx - 1, cy, cz) in
  let right_ := SrcC.cart_rank (SrcC.PY c) (SrcC.PZ c) (cx + 1, cy, cz) in
  match SrcC.exchange c halos rank with
  | Some h =>
      (1 <= cx -> 1 <= SrcC.x_local c left_ ->
       forall m, 0 <= m < SrcC.y_local c rank * SrcC.z_local c rank ->
                 h 0 1 (1 + m) = halos left_ (SrcC.x_local c left_) 1 (1 + m))
      /\
      (cx + 1 < SrcC.PX c ->
       forall m, 0 <= m < SrcC.y_local c rank * SrcC.z_local c rank ->
                 h (SrcC.x_local c rank + 1) 1 (1 + m)
                 = halos right_ 1 1 (1 + m))
      /\
      (forall i j k, i <> 0 -> i <> SrcC.x_local c rank + 1 ->
                     h i j k = halos rank i j k)
  | None => True
  end.
Proof.
  intros Hx Hy Hz HNX rank left_ right_.
  destruct (SrcC.exchange c halos rank) as [h|] eqn:Hex; [|exact I].
  destruct (cart_coords_rank (SrcC.PX c) (SrcC.PY c) (SrcC.PZ c) cx cy cz
              Hx Hy Hz) as [_ Hrank]. fold rank in Hrank.
  split; [|split].
  - intros Hl Hxl m Hm.
    pose proof (exchange_at_coords c halos cx cy cz Hx Hy Hz) as E.
    cbv zeta in E. fold rank right_ in E. rewrite E in Hex. clear E.
    pose proof (after_left_step c halos cx cy cz Hl) as E.
    cbv zeta in E. fold rank left_ in E. rewrite E in Hex. clear E.
    destruct (SrcC.after_left c halos (Z.to_nat (cx - 1)) cy cz)
      as [halo_l|] eqn:Hal; [|discriminate].
    destruct (local_sizes_at c cx cy cz Hx Hy Hz) as (Ex & Ey & Ez).
    destruct (local_sizes_at c (cx - 1) cy cz ltac:(lia) Hy Hz)
      as (_ & Ey' & Ez').
    cbv zeta in Ex, Ey, Ez, Ey', Ez'. fold rank in Ex, Ey, Ez.
    fold left_ in Ey', Ez'.
    pose proof (get_range_size_nonneg cx (SrcC.PX c) (SrcC.NX c)
                  ltac:(lia) HNX) as Sx.
    destruct (SrcC.sendrecv (SrcC.z_local c rank) (halos rank) 1 0
                (SrcC.y_local c rank * SrcC.z_local c rank)
                (SrcC.row_run (SrcC.z_local c left_) halo_l
                   (SrcC.x_local c left_) 1 1
                   (SrcC.y_local c left_ * SrcC.z_local c left_)))
      as [halo|] eqn:Hsr; [|discriminate].
    assert (Hh : h 0 1 (1 + m) = halo 0 1 (1 + m)).
    { destruct (cx + 1 <? SrcC.PX c).
      - apply (sendrecv_other _ _ _ _ _ _ _ Hex). lia.
      - inversion Hex. reflexivity. }
    rewrite Hh, (sendrecv_row _ _ _ _ _ _ _ _ _ _ Hsr) by (rewrite Ey', Ez', <- Ey, <- Ez; exact Hm).
    pose proof (after_left_other c halos (Z.to_nat (cx - 1)) cy cz halo_l Hal
                  (SrcC.x_local c left_) 1 (1 + m) ltac:(lia)) as Ho.
    replace (Z.of_nat (Z.to_nat (cx - 1))) with (cx - 1) in Ho by lia.
    exact Ho.
  - intros Hr m Hm.
    pose proof (exchange_at_coords c halos cx cy cz Hx Hy Hz) as E.
    cbv zeta in E. fold rank right_ in E. rewrite E in Hex. clear E.
    destruct (SrcC.after_left c halos (Z.to_nat cx) cy cz) as [halo|];
      [|discriminate].
    replace (cx + 1 <? SrcC.PX c) with true in Hex
      by (symmetry; apply Z.ltb_lt; lia).
    destruct (local_sizes_at c cx cy cz Hx Hy Hz) as (_ & Ey & Ez).
    destruct (local_sizes_at c (cx + 1) cy cz ltac:(lia) Hy Hz)
      as (_ & Ey' & Ez').
    cbv zeta in Ey, Ez, Ey', Ez'. fold rank in Ey, Ez.
    fold right_ in Ey', Ez'.
    apply (sendrecv_row _ _ _ _ _ _ _ _ _ _ Hex).
    rewrite Ey', Ez', <- Ey, <- Ez. exact Hm.
  - intros i j k Hi0 Hi1.
    apply (exchange_other c halos rank h); try assumption; lia.
Qed.

Lemma x_ghost_rows_after_exchange_witness :
  let c := SrcC.mkConfig 2 1 1 4 1 2 1 2 in
  let halos : Z -> SrcC.halo3 := fun r i j k => 100 * r + 10 * i + k in
  let rank := SrcC.cart_rank (SrcC.PY c) (SrcC.PZ c) (1, 0, 0) in
  let left_ := SrcC.cart_rank (SrcC.PY c) (SrcC.PZ c) (1 - 1, 0, 0) in
  let right_ := SrcC.cart_rank (SrcC.PY c) (SrcC.PZ c) (1 + 1, 0, 0) in
  match SrcC.exchange c halos rank with
  | Some h =>
      (1 <= 1 -> 1 <= SrcC.x_local c left_ ->
       forall m, 0 <= m < SrcC.y_local c rank * SrcC.z_local c rank ->
                 h 0 1 (1 + m) = halos left_ (SrcC.x_local c left_) 1 (1 + m))
      /\
      (1 + 1 < SrcC.PX c ->
       forall m, 0 <= m < SrcC.y_local c rank * SrcC.z_local c rank ->
                 h (SrcC.x_local c rank + 1) 1 (1 + m)
                 = halos right_ 1 1 (1 + m))
      /\
      (forall i j k, i <> 0 -> i <> SrcC.x_local c rank + 1 ->
                     h i j k = halos rank i j k)
  | None => True
  end.
Proof.
  intros c halos.
  apply (x_ghost_rows_after_exchange c halos 1 0 0); cbn; lia.
Defined.

(** ** src.c: the classification and the reductions *)

(** A cell with a neighbour inside the domain is not counted twice. *)
Lemma flags_exclusive
      (xl yl zl : Z) (xr yr zr : SrcC.Range) (NX NY NZ : Z)
      (halo : SrcC.halo3) (i j k : Z) (n : Z * Z * Z) :
  1 <= i <= xl -> 1 <= j <= yl -> 1 <= k <= zl ->
  In n (SrcC.neighbors i j k) -> present xr yr zr NX NY NZ n ->
  SrcC.point_flags xl yl zl xr yr zr NX NY NZ halo i j k <> (true, true).
Proof.
  intros Hi Hj Hk Hn Hp E.
  pose proof (proj1 (point_flags_min xl yl zl xr yr zr NX NY NZ halo i j k
                       Hi Hj Hk)) as Hmin.
  pose proof (proj1 (point_flags_max xl yl zl xr yr zr NX NY NZ halo i j k
                       Hi Hj Hk)) as Hmax.
  rewrite E in Hmin, Hmax.
  specialize (Hmin eq_refl n Hn Hp). specialize (Hmax eq_refl n Hn Hp). lia.
Qed.

(** X9.  The scan of src.c on a block that lies inside a domain with more than
    one point: no owned cell is counted both as a minimum and as a maximum,
    so the two counters are not negative and together do not exceed the
    number of owned cells. *)
Theorem scan_counts_bounded
        (xl yl zl : Z) (xr yr zr : SrcC.Range) (NX NY NZ : Z)
        (halo : SrcC.halo3) :
  0 <= xl -> 0 <= yl -> 0 <= zl ->
  0 <= SrcC.start xr -> SrcC.start xr + xl <= NX ->
  0 <= SrcC.start yr -> SrcC.start yr + yl <= NY ->
  0 <= SrcC.start zr -> SrcC.start zr + zl <= NZ ->
  1 < NX \/ 1 < NY \/ 1 < NZ ->
  let p := SrcC.classify xl yl zl xr yr zr NX NY NZ halo in
  0 <= SrcC.cnt_min p /\ 0 <= SrcC.cnt_max p /\
  SrcC.cnt_min p + SrcC.cnt_max p <= xl * yl * zl.
Proof.
  intros Hx Hy Hz Hx0 Hx1 Hy0 Hy1 Hz0 Hz1 Hmany p. subst p.
  unfold SrcC.classify.
  pose (I := fun (n : Z) (acc : SrcC.Partial) =>
     0 <= SrcC.cnt_min acc /\ 0 <= SrcC.cnt_max acc /\
     SrcC.cnt_min acc + SrcC.cnt_max acc <= n).
  match goal with
  | |- context [for_range 1 ?h1 (fun i => for_range 1 ?h2 (fun j =>
                  for_range 1 ?h3 (@?f i j))) ?s0] =>
      assert (H : I ((h1 - 1) * (h2 - 1) * (h3 - 1))
                    (for_range 1 h1 (fun i => for_range 1 h2 (fun j =>
                       for_range 1 h3 (f i j))) s0))
  end.
  { apply (for3_ind 1 (xl + 1) 1 (yl + 1) 1 (zl + 1) _ I); try lia.
    - unfold I. cbn [SrcC.cnt_min SrcC.cnt_max]. lia.
    - intros a b d acc Ha Hb Hd (Hmin & Hmax & Hsum).
      destruct (some_neighbor_present xl yl zl xr yr zr NX NY NZ
                  Hx0 Hx1 Hy0 Hy1 Hz0 Hz1 Hmany a b d
                  ltac:(lia) ltac:(lia) ltac:(lia)) as (n & Hn & Hp).
      pose proof (flags_exclusive xl yl zl xr yr zr NX NY NZ halo a b d n
                    ltac:(lia) ltac:(lia) ltac:(lia) Hn Hp) as Hex.
      destruct (SrcC.point_flags xl yl zl xr yr zr NX NY NZ halo a b d)
        as [[|] [|]]; unfold I; cbn [SrcC.cnt_min SrcC.cnt_max];
        try lia.
      congruence. }
  destruct H as (Hmin & Hmax & Hsum).
  repeat (split; [assumption|]). nia.
Qed.

Lemma scan_counts_bounded_witness :
  let xr := SrcC.mkRange 0 1 2 in
  let yr := SrcC.mkRange 0 0 1 in
  let halo : SrcC.halo3 := fun i _ _ => i * i in
  let p := SrcC.classify 2 1 1 xr yr yr 2 1 1 halo in
  0 <= SrcC.cnt_min p /\ 0 <= SrcC.cnt_max p /\
  SrcC.cnt_min p + SrcC.cnt_max p <= 2 * 1 * 1.
Proof.
  intros xr yr halo.
  apply (scan_counts_bounded 2 1 1 xr yr yr 2 1 1 halo); cbn; lia.
Defined.

(** X10.  In src.c, whenever the run of a timestep is defined, the two extremes
    the coordinating worker writes are values of the field at that
    timestep and bound every value of the field: they are its least and
    its greatest value. *)
Theorem written_extremes_are_field_extremes
        (c : SrcC.Config) (global_data : rows) (t : Z) :
  0 < SrcC.PX c -> 0 < SrcC.PY c -> 0 < SrcC.PZ c ->
  0 < SrcC.NX c -> 0 < SrcC.NY c -> 0 < SrcC.NZ c ->
  0 <= t < SrcC.NC c ->
  SrcC.nprocs c = SrcC.PX c * SrcC.PY c * SrcC.PZ c ->
  (forall x y z, in_domain c x y z ->
     - FLT_MAX <= value_at c global_data x y z t <= FLT_MAX) ->
  match SrcC.global_result c global_data t with
  | Some g =>
      (forall x y z, in_domain c x y z ->
         SrcC.global_min g <= value_at c global_data x y z t
         <= SrcC.global_max g) /\
      (exists x y z, in_domain c x y z /\
                     SrcC.global_min g = value_at c global_data x y z t) /\
      (exists x y z, in_domain c x y z /\
                     SrcC.global_max g = value_at c global_data x y z t)
  | None => True
  end.
Proof.
  intros HPX HPY HPZ HNX HNY HNZ Ht Hprocs Hfinite.
  destruct (SrcC.global_result c global_data t) as [g|] eqn:Hg; [|exact I].
  destruct (src_global_result c global_data t HPX HPY HPZ HNX HNY HNZ Ht
              Hprocs Hfinite g Hg) as (Hb & Hmin & Hmax & _).
  auto.
Qed.

Lemma written_extremes_are_field_extremes_witness :
  let c := SrcC.mkConfig 1 2 1 1 2 1 1 2 in
  let global_data : rows := fun p _ => 3 + 2 * p in
  match SrcC.global_result c global_data 0 with
  | Some g =>
      (forall x y z, in_domain c x y z ->
         SrcC.global_min g <= value_at c global_data x y z 0
         <= SrcC.global_max g) /\
      (exists x y z, in_domain c x y z /\
                     SrcC.global_min g = value_at c global_data x y z 0) /\
      (exists x y z, in_domain c x y z /\
                     SrcC.global_max g = value_at c global_data x y z 0)
  | None => True
  end.
Proof.
  intros c global_data.
  apply (written_extremes_are_field_extremes c global_data 0);
    try (cbn; lia).
  intros x y z (Hx & Hy & Hz). unfold value_at, global_data, FLT_MAX.
  unfold c in *. cbn [SrcC.NX SrcC.NY SrcC.NZ] in *. lia.
Defined.

(** X11.  With a single worker along x nothing is exchanged in src.c, and the
    run of every timestep delivers a result, on every grid of workers
    along y and z and for every field. *)
Theorem single_column_run_is_defined
        (c : SrcC.Config) (global_data : rows) (t : Z) :
  SrcC.PX c = 1 -> 0 < SrcC.PY c -> 0 < SrcC.PZ c ->
  0 <= SrcC.NX c -> 0 <= SrcC.NY c -> 0 <= SrcC.NZ c -> 0 <= SrcC.NC c ->
  SrcC.nprocs c = SrcC.PX c * SrcC.PY c * SrcC.PZ c ->
  (forall rank, 0 <= rank < SrcC.nprocs c ->
     SrcC.exchange c (SrcC.built_halos c global_data t) rank
     = Some (SrcC.built_halos c global_data t rank)) /\
  exists g, SrcC.global_result c global_data t = Some g.
Proof.
  intros HPX HPY HPZ HNX HNY HNZ HNC Hprocs. split.
  - intros rank Hr. apply exchange_single_column; try assumption.
    rewrite Hprocs, HPX in Hr. lia.
  - apply global_result_defined; assumption.
Qed.

Lemma single_column_run_is_defined_witness :
  let c := SrcC.mkConfig 1 2 2 3 4 5 2 4 in
  let global_data : rows := fun p t => p + t in
  (forall rank, 0 <= rank < SrcC.nprocs c ->
     SrcC.exchange c (SrcC.built_halos c global_data 1) rank
     = Some (SrcC.built_halos c global_data 1 rank)) /\
  exists g, SrcC.global_result c global_data 1 = Some g.
Proof.
  intros c global_data.
  apply (single_column_run_is_defined c global_data 1); cbn; lia.
Defined.

(** ** 1.c: start-up and computation *)

(** X12.  1.c leaves its start-up checks with exit code 1 exactly when the
    argument count is not 10 or the process grid does not multiply to the
    number of workers; in that case the coordinating worker alone prints
    one line and every other worker prints nothing.  The extents are not
    looked at. *)
Theorem one_c_startup_checks
        (argv0 : string) (argc : Z) (c : OneC.Config) (rank : Z) :
  (OneC.startup argv0 argc c rank = OneC.Proceeds <->
   argc = 10 /\ OneC.px c * OneC.py c * OneC.pz c = OneC.nprocs c) /\
  (forall code out,
     OneC.startup argv0 argc c rank = OneC.Returned code out ->
     code = 1 /\ (rank <> 0 -> out = []) /\ (rank = 0 -> length out = 1%nat)).
Proof.
  unfold OneC.startup.
  destruct (Z.eqb_spec argc 10) as [Ha|Ha]; cbn [negb].
  - destruct (Z.eqb_spec (OneC.px c * OneC.py c * OneC.pz c) (OneC.nprocs c))
      as [Hg|Hg]; cbn [negb].
    + split; [tauto | discriminate].
    + split; [split; [discriminate | tauto]|].
      intros code out H. injection H as <- <-.
      destruct (Z.eqb_spec rank 0); repeat split; intros; try reflexivity;
        contradiction.
  - split; [split; [discriminate | tauto]|].
    intros code out H. injection H as <- <-.
    destruct (Z.eqb_spec rank 0); repeat split; intros; try reflexivity;
      contradiction.
Qed.

Lemma is_min_max_one (data : buf) (x y z nx ny nz t nt : Z) :
  OneC.is_min data x y z nx ny nz t nt = 1 /\
  OneC.is_max data x y z nx ny nz t nt = 1.
Proof.
  unfold OneC.is_min, OneC.is_max, OneC.nbrs.
  split; repeat rewrite self_bounded_guard; reflexivity.
Qed.

Lemma one_c_init_results (nt t : Z) :
  0 <= nt ->
  OneC.min_counts (OneC.init_results nt) t = 0 /\
  OneC.max_counts (OneC.init_results nt) t = 0 /\
  (0 <= t < nt ->
   OneC.min_values (OneC.init_results nt) t = DBL_MAX /\
   OneC.max_values (OneC.init_results nt) t = - DBL_MAX).
Proof.
  intros Hnt. unfold OneC.init_results.
  apply (for_range_ind
           (fun j r =>
              OneC.min_counts r t = 0 /\ OneC.max_counts r t = 0 /\
              (0 <= t < j ->
               OneC.min_values r t = DBL_MAX /\
               OneC.max_values r t = - DBL_MAX))); [exact Hnt | |].
  - cbn. repeat split; lia.
  - intros j r Hj (H1 & H2 & H3).
    cbn [OneC.min_counts OneC.max_counts OneC.min_values OneC.max_values].
    repeat (split; [assumption|]). intros Ht.
    destruct (Z.eq_dec t j) as [->|Hne].
    + now rewrite !upd_same.
    + rewrite !upd_other by assumption. apply H3. lia.
Qed.

(** X13.  The computation phase of 1.c, for every content of [local_data]: at
    every timestep both counters end at the number of owned points, so
    every owned point is counted as a local minimum and as a local
    maximum; the two value extremes bound the owned cells of the timestep
    and each is the value of one of them unless it never moved. *)
Theorem every_owned_point_counted_twice
        (local_nx local_ny local_nz nt : Z) (local_data : buf) (t : Z) :
  0 <= local_nx -> 0 <= local_ny -> 0 <= local_nz -> 0 <= t < nt ->
  let r := OneC.compute local_nx local_ny local_nz nt local_data in
  let cell x y z :=
    local_data (OneC.idx3d (x + 1) (y + 1) (z + 1)
                  (local_nx + 2) (local_ny + 2) * nt + t) in
  OneC.min_counts r t = local_nx * local_ny * local_nz /\
  OneC.max_counts r t = local_nx * local_ny * local_nz /\
  (forall x y z,
     0 <= x < local_nx -> 0 <= y < local_ny -> 0 <= z < local_nz ->
     OneC.min_values r t <= cell x y z <= OneC.max_values r t) /\
  (OneC.min_values r t = DBL_MAX \/
   exists x y z, 0 <= x < local_nx /\ 0 <= y < local_ny /\
                 0 <= z < local_nz /\ OneC.min_values r t = cell x y z) /\
  (OneC.max_values r t = - DBL_MAX \/
   exists x y z, 0 <= x < local_nx /\ 0 <= y < local_ny /\
                 0 <= z < local_nz /\ OneC.max_values r t = cell x y z).
Proof.
  intros Hx Hy Hz Ht r cell0. subst r cell0.
  pose (cell := fun x y z u =>
    local_data (OneC.idx3d (x + 1) (y + 1) (z + 1)
                  (local_nx + 2) (local_ny + 2) * nt + u)).
  pose (P := fun (n : Z) (r : OneC.Results) (u : Z) =>
    OneC.min_counts r u = n /\ OneC.max_counts r u = n /\
    (forall x y z,
       0 <= x < local_nx -> 0 <= y < local_ny -> 0 <= z < local_nz ->
       count3 0 0 0 (local_ny - 0) (local_nx - 0) z y x < n ->
       OneC.min_values r u <= cell x y z u <= OneC.max_values r u) /\
    (OneC.min_values r u = DBL_MAX \/
     exists x y z, 0 <= x < local_nx /\ 0 <= y < local_ny /\
                   0 <= z < local_nz /\ OneC.min_values r u = cell x y z u) /\
    (OneC.max_values r u = - DBL_MAX \/
     exists x y z, 0 <= x < local_nx /\ 0 <= y < local_ny /\
                   0 <= z < local_nz /\ OneC.max_values r u = cell x y z u)).
  assert (H : forall u, 0 <= u < nt ->
                P ((local_nz - 0) * (local_ny - 0) * (local_nx - 0))
                  (OneC.compute local_nx local_ny local_nz nt local_data) u).
  { unfold OneC.compute. cbv zeta.
    apply (for3_ind 0 local_nz 0 local_ny 0 local_nx _
             (fun n r => forall u, 0 <= u < nt -> P n r u)); try lia.
    - intros u Hu.
      destruct (one_c_init_results nt u ltac:(lia)) as (H1 & H2 & H3).
      destruct (H3 Hu) as [H4 H5]. unfold P.
      repeat (split; [assumption|]). split; [|auto].
      intros x y z Hx' Hy' Hz' Hc.
      pose proof (count3_bounds 0 0 0 local_nz (local_ny - 0) (local_nx - 0)
                    z y x ltac:(lia) ltac:(lia) ltac:(lia)).
      lia.
    - intros a b d r Ha Hb Hd HI.
      set (n := count3 0 0 0 (local_ny - 0) (local_nx - 0) a b d) in *.
      intros u Hu.
      refine (proj1 (for_range_ind
                (fun t' r' => forall u, 0 <= u < nt ->
                   (u < t' -> P (n + 1) r' u) /\ (t' <= u -> P n r' u))
                0 nt _ r ltac:(lia) _ _ u Hu) ltac:(lia)).
      + intros v Hv. split; [lia|]. intros _. apply HI, Hv.
      + intros j r' Hj HJ v Hv.
        destruct (is_min_max_one local_data (d + 1) (b + 1) (a + 1)
                    (local_nx + 2) (local_ny + 2) (local_nz + 2) j nt)
          as [-> ->].
        cbn [Z.eqb negb].
        fold (cell d b a j).
        destruct (Z.eq_dec v j) as [->|Hne].
        * split; [intros _ | lia].
          destruct (proj2 (HJ j Hv) ltac:(lia))
            as (C1 & C2 & Hb' & Hmin & Hmax).
          unfold P.
          cbn [OneC.min_counts OneC.max_counts OneC.min_values
               OneC.max_values].
          rewrite !upd_same, C1, C2, Z.gtb_ltb.
          split; [reflexivity|]. split; [reflexivity|].
          assert (Hnew :
            (if cell d b a j <? OneC.min_values r' j
             then upd (OneC.min_values r') j (cell d b a j)
             else OneC.min_values r') j
            = Z.min (cell d b a j) (OneC.min_values r' j) /\
            (if OneC.max_values r' j <? cell d b a j
             then upd (OneC.max_values r') j (cell d b a j)
             else OneC.max_values r') j
            = Z.max (cell d b a j) (OneC.max_values r' j)).
          { destruct (Z.ltb_spec (cell d b a j) (OneC.min_values r' j)),
              (Z.ltb_spec (OneC.max_values r' j) (cell d b a j));
              rewrite ?upd_same; lia. }
          destruct Hnew as [-> ->].
          split; [|split].
          -- intros x y z Hx' Hy' Hz' Hc.
             destruct (Z.eq_dec (count3 0 0 0 (local_ny - 0) (local_nx - 0)
                                   z y x) n) as [E|Hn].
             ++ apply count3_inj in E; try lia.
                destruct E as (-> & -> & ->). lia.
             ++ specialize (Hb' x y z Hx' Hy' Hz' ltac:(lia)). lia.
          -- destruct (Z.min_spec (cell d b a j) (OneC.min_values r' j))
               as [[_ ->]|[_ ->]]; [|exact Hmin].
             right. exists d, b, a. repeat split; lia.
          -- destruct (Z.max_spec (cell d b a j) (OneC.max_values r' j))
               as [[_ ->]|[_ ->]]; [exact Hmax|].
             right. exists d, b, a. repeat split; lia.
        * assert (Hsame : forall n',
                    P n' r' v ->
                    P n' (OneC.mkResults
                            (upd (OneC.min_counts r') j
                               (OneC.min_counts r' j + 1))
                            (upd (OneC.max_counts r') j
                               (OneC.max_counts r' j + 1))
                            (if cell d b a j <? OneC.min_values r' j
                             then upd (OneC.min_values r') j (cell d b a j)
                             else OneC.min_values r')
                            (if cell d b a j >? OneC.max_values r' j
                             then upd (OneC.max_values r') j (cell d b a j)
                             else OneC.max_values r')) v).
          { intros n'. unfold P.
            cbn [OneC.min_counts OneC.max_counts OneC.min_values
                 OneC.max_values].
            destruct (cell d b a j <? OneC.min_values r' j),
              (cell d b a j >? OneC.max_values r' j);
              rewrite ?upd_other by assumption; auto. }
          split; intros Hlt; apply Hsame, (HJ v Hv); lia. }
  destruct (H t Ht) as (C1 & C2 & Hb & Hmin & Hmax).
  fold (cell 0 0 0 t) in *.
  split; [rewrite C1; ring|]. split; [rewrite C2; ring|].
  split; [|split].
  - intros x y z Hx' Hy' Hz'. apply (Hb x y z Hx' Hy' Hz').
    pose proof (count3_bounds 0 0 0 local_nz (local_ny - 0) (local_nx - 0)
                  z y x ltac:(lia) ltac:(lia) ltac:(lia)).
    lia.
  - exact Hmin.
  - exact Hmax.
Qed.

Lemma every_owned_point_counted_twice_witness :
  let local_data : buf := fun i => i * i in
  let r := OneC.compute 2 1 1 1 local_data in
  let cell x y z :=
    local_data (OneC.idx3d (x + 1) (y + 1) (z + 1) (2 + 2) (1 + 2) * 1 + 0) in
  OneC.min_counts r 0 = 2 * 1 * 1 /\
  OneC.max_counts r 0 = 2 * 1 * 1 /\
  (forall x y z,
     0 <= x < 2 -> 0 <= y < 1 -> 0 <= z < 1 ->
     OneC.min_values r 0 <= cell x y z <= OneC.max_values r 0) /\
  (OneC.min_values r 0 = DBL_MAX \/
   exists x y z, 0 <= x < 2 /\ 0 <= y < 1 /\
                 0 <= z < 1 /\ OneC.min_values r 0 = cell x y z) /\
  (OneC.max_values r 0 = - DBL_MAX \/
   exists x y z, 0 <= x < 2 /\ 0 <= y < 1 /\
                 0 <= z < 1 /\ OneC.max_values r 0 = cell x y z).
Proof.
  intros local_data.
  apply (every_owned_point_counted_twice 2 1 1 1 local_data 0); lia.
Defined.

(** ** 1.c: the distribution *)

Lemma idx3d_count3 (x y z nx ny : Z) :
  OneC.idx3d x y z nx ny = count3 0 0 0 ny nx z y x.
Proof. unfold OneC.idx3d, count3. ring. Qed.

Lemma idx3d_inj (x y z x' y' z' nx ny : Z) :
  0 <= x < nx -> 0 <= y < ny -> 0 <= x' < nx -> 0 <= y' < ny ->
  OneC.idx3d x y z nx ny = OneC.idx3d x' y' z' nx ny ->
  x = x' /\ y = y' /\ z = z'.
Proof.
  intros Hx Hy Hx' Hy' E. rewrite !idx3d_count3 in E.
  apply count3_inj in E; try lia.
Qed.

Lemma idx3d_range (x y z nx ny nz : Z) :
  0 <= x < nx -> 0 <= y < ny -> 0 <= z < nz ->
  0 <= OneC.idx3d x y z nx ny < nx * ny * nz.
Proof.
  intros Hx Hy Hz. rewrite idx3d_count3.
  pose proof (count3_bounds 0 0 0 nz ny nx z y x ltac:(lia) ltac:(lia)
                ltac:(lia)).
  lia.
Qed.

(** X14.  [idx3d] numbers the points of a box of extents [nx], [ny], [nz]: it
    maps the box one-to-one onto the indices [0 .. nx * ny * nz - 1]. *)
Theorem idx3d_numbers_the_box (nx ny nz : Z) :
  0 <= nx -> 0 <= ny -> 0 <= nz ->
  (forall x y z, 0 <= x < nx -> 0 <= y < ny -> 0 <= z < nz ->
     0 <= OneC.idx3d x y z nx ny < nx * ny * nz) /\
  (forall x y z x' y' z',
     0 <= x < nx -> 0 <= y < ny -> 0 <= x' < nx -> 0 <= y' < ny ->
     OneC.idx3d x y z nx ny = OneC.idx3d x' y' z' nx ny ->
     x = x' /\ y = y' /\ z = z') /\
  (forall i, 0 <= i < nx * ny * nz ->
     exists x y z, 0 <= x < nx /\ 0 <= y < ny /\ 0 <= z < nz /\
                   OneC.idx3d x y z nx ny = i).
Proof.
  intros Hnx Hny Hnz. split; [|split].
  - intros x y z. apply idx3d_range.
  - intros x y z x' y' z'. apply idx3d_inj.
  - intros i Hi.
    destruct (decode3 nz ny nx i ltac:(lia) Hnz Hny Hnx)
      as (z & y & x & Hz & Hy & Hx & E).
    exists x, y, z. repeat (split; [lia|]). exact E.
Qed.

Lemma idx3d_numbers_the_box_witness :
  (forall x y z, 0 <= x < 4 -> 0 <= y < 3 -> 0 <= z < 2 ->
     0 <= OneC.idx3d x y z 4 3 < 4 * 3 * 2) /\
  (forall x y z x' y' z',
     0 <= x < 4 -> 0 <= y < 3 -> 0 <= x' < 4 -> 0 <= y' < 3 ->
     OneC.idx3d x y z 4 3 = OneC.idx3d x' y' z' 4 3 ->
     x = x' /\ y = y' /\ z = z') /\
  (forall i, 0 <= i < 4 * 3 * 2 ->
     exists x y z, 0 <= x < 4 /\ 0 <= y < 3 /\ 0 <= z < 2 /\
                   OneC.idx3d x y z 4 3 = i).
Proof. apply (idx3d_numbers_the_box 4 3 2); lia. Defined.

(** The cells of two points at two timesteps are different cells. *)
Lemma cell_index_inj (nt p t p' t' : Z) :
  0 <= t < nt -> 0 <= t' < nt -> p * nt + t = p' * nt + t' ->
  p = p' /\ t = t'.
Proof.
  intros Ht Ht' E.
  destruct (Z.div_mod_unique nt p p' t t') as [H1 H2]; lia.
Qed.

Lemma local_alloc_spec (c : OneC.Config) (rank i : Z) :
  OneC.local_alloc c rank i
  = if (0 <=? i)
       && (i <? (OneC.local_nx c rank + 2) * (OneC.local_ny c rank + 2)
                * (OneC.local_nz c rank + 2) * OneC.nt c)
    then Some DBL_MAX else None.
Proof.
  unfold OneC.local_alloc. cbv zeta.
  set (n := (OneC.local_nx c rank + 2) * (OneC.local_ny c rank + 2)
            * (OneC.local_nz c rank + 2) * OneC.nt c).
  destruct (Z_le_gt_dec 0 n) as [Hn|Hn].
  - assert (H : forall j, 0 <= j <= n ->
               for_range 0 j (fun i local_data => oupd local_data i DBL_MAX)
                 uninit i
               = if (0 <=? i) && (i <? j) then Some DBL_MAX else None).
    { intros j Hj.
      apply (for_range_ind
               (fun j (b : obuf) =>
                  b i = if (0 <=? i) && (i <? j) then Some DBL_MAX else None));
        [lia | |].
      - unfold uninit.
        destruct (Z.leb_spec 0 i), (Z.ltb_spec i 0); cbn [andb];
          try reflexivity; lia.
      - intros k b Hk Hb. unfold oupd.
        destruct (Z.eqb_spec i k) as [->|Hne].
        + replace (0 <=? k) with true by (symmetry; apply Z.leb_le; lia).
          replace (k <? k + 1) with true by (symmetry; apply Z.ltb_lt; lia).
          reflexivity.
        + rewrite Hb.
          destruct (Z.leb_spec 0 i), (Z.ltb_spec i k), (Z.ltb_spec i (k + 1));
            cbn [andb]; try reflexivity; lia. }
    apply H. lia.
  - rewrite for_range_skip by lia. unfold uninit.
    destruct (Z.leb_spec 0 i), (Z.ltb_spec i n); cbn [andb];
      try reflexivity; lia.
Qed.

Section BlockCopy.
Variables (lnx lny lnz nt : Z) (val : Z -> Z -> Z -> Z -> option Z).
Variable init : obuf.
Hypothesis Hx : 0 <= lnx.
Hypothesis Hy : 0 <= lny.
Hypothesis Hz : 0 <= lnz.
Hypothesis Hnt : 0 <= nt.

(** The copy of a block into the interior of a buffer with ghost cells:
    every owned cell receives its value, every other cell is left as it
    was. *)
Lemma block_copy_spec :
  let r :=
    for_range 0 lnz (fun z =>
    for_range 0 lny (fun y =>
    for_range 0 lnx (fun x (local_data : obuf) =>
      for_range 0 nt
        (fun t (local_data : obuf) =>
           (fun j =>
              if j =? OneC.idx3d (x + 1) (y + 1) (z + 1) (lnx + 2) (lny + 2)
                      * nt + t
              then val x y z t else local_data j) : obuf)
        local_data))) init in
  (forall x y z t,
     0 <= x < lnx -> 0 <= y < lny -> 0 <= z < lnz -> 0 <= t < nt ->
     r (OneC.idx3d (x + 1) (y + 1) (z + 1) (lnx + 2) (lny + 2) * nt + t)
     = val x y z t) /\
  (forall i,
     (forall x y z t,
        0 <= x < lnx -> 0 <= y < lny -> 0 <= z < lnz -> 0 <= t < nt ->
        i <> OneC.idx3d (x + 1) (y + 1) (z + 1) (lnx + 2) (lny + 2) * nt + t) ->
     r i = init i).
Proof.
  intros r. subst r.
  pose (dst := fun x y z t =>
    OneC.idx3d (x + 1) (y + 1) (z + 1) (lnx + 2) (lny + 2) * nt + t).
  assert (Hinj : forall x y z t x' y' z' t',
             0 <= x < lnx -> 0 <= y < lny -> 0 <= t < nt ->
             0 <= x' < lnx -> 0 <= y' < lny -> 0 <= t' < nt ->
             dst x y z t = dst x' y' z' t' ->
             x = x' /\ y = y' /\ z = z' /\ t = t').
  { intros x y z t x' y' z' t' Hx0 Hy0 Ht0 Hx1 Hy1 Ht1 E. unfold dst in E.
    apply cell_index_inj in E; try assumption. destruct E as [E ->].
    apply idx3d_inj in E; lia. }
  pose (done := fun (n t' x y z t : Z) =>
    count3 0 0 0 (lny - 0) (lnx - 0) z y x < n \/
    (count3 0 0 0 (lny - 0) (lnx - 0) z y x = n /\ t < t')).
  pose (J := fun (n t' : Z) (ld : obuf) =>
    (forall x y z t,
       0 <= x < lnx -> 0 <= y < lny -> 0 <= z < lnz -> 0 <= t < nt ->
       done n t' x y z t -> ld (dst x y z t) = val x y z t) /\
    (forall i,
       (forall x y z t,
          0 <= x < lnx -> 0 <= y < lny -> 0 <= z < lnz -> 0 <= t < nt ->
          done n t' x y z t -> i <> dst x y z t) ->
       ld i = init i)).
  match goal with
  | |- context [for_range 0 lnz ?body init] =>
      assert (H : J ((lnz - 0) * (lny - 0) * (lnx - 0)) 0
                    (for_range 0 lnz body init))
  end.
  { apply (for3_ind 0 lnz 0 lny 0 lnx _ (fun n ld => J n 0 ld)); try lia.
    - split.
      + intros x y z t Hx0 Hy0 Hz0 Ht0 [Hd|[_ Hd]]; [|lia].
        pose proof (count3_bounds 0 0 0 lnz (lny - 0) (lnx - 0) z y x
                      ltac:(lia) ltac:(lia) ltac:(lia)).
        lia.
      + intros i _. reflexivity.
    - intros a b d ld Ha Hb Hd HJ.
      set (n := count3 0 0 0 (lny - 0) (lnx - 0) a b d) in *.
      assert (Hend : J n nt
                (for_range 0 nt
                   (fun t (local_data : obuf) =>
                      (fun j =>
                         if j =? OneC.idx3d (d + 1) (b + 1) (a + 1)
                                   (lnx + 2) (lny + 2) * nt + t
                         then val d b a t else local_data j) : obuf) ld)).
      { apply (for_range_ind (fun t' ld' => J n t' ld')); [exact Hnt | exact HJ |].
        intros j ld' Hj (H1 & H2). fold (dst d b a j). split.
        - intros x y z t Hx0 Hy0 Hz0 Ht0 Hdone.
          destruct (Z.eqb_spec (dst x y z t) (dst d b a j)) as [E|Hne].
          + apply Hinj in E; try lia. destruct E as (-> & -> & -> & ->).
            reflexivity.
          + apply H1; try assumption.
            destruct Hdone as [Hd'|[Hd' Hlt]]; [left; exact Hd'|].
            right. split; [exact Hd'|].
            destruct (Z.eq_dec t j) as [->|]; [|lia].
            exfalso. apply Hne. unfold n in Hd'.
            apply count3_inj in Hd'; try lia.
            destruct Hd' as (-> & -> & ->). reflexivity.
        - intros i Hi.
          destruct (Z.eqb_spec i (dst d b a j)) as [E|Hne].
          + exfalso. apply (Hi d b a j); try lia.
            right. split; [reflexivity | lia].
          + apply H2. intros x y z t Hx0 Hy0 Hz0 Ht0 Hdone.
            apply Hi; try assumption.
            destruct Hdone as [Hd'|[Hd' Hlt]]; [left; exact Hd'|].
            right. split; [exact Hd' | lia]. }
      destruct Hend as [H1 H2]. split.
      + intros x y z t Hx0 Hy0 Hz0 Ht0 Hdone. apply H1; try assumption.
        destruct Hdone as [Hd'|[_ Hd']]; [|lia].
        destruct (Z.eq_dec (count3 0 0 0 (lny - 0) (lnx - 0) z y x) n);
          [right | left]; lia.
      + intros i Hi. apply H2.
        intros x y z t Hx0 Hy0 Hz0 Ht0 Hdone. apply Hi; try assumption.
        left. destruct Hdone as [Hd'|[Hd' _]]; lia. }
  destruct H as [H1 H2]. split.
  - intros x y z t Hx0 Hy0 Hz0 Ht0. apply (H1 x y z t); try assumption.
    left.
    pose proof (count3_bounds 0 0 0 lnz (lny - 0) (lnx - 0) z y x
                  ltac:(lia) ltac:(lia) ltac:(lia)).
    lia.
  - intros i Hi. apply H2.
    intros x y z t Hx0 Hy0 Hz0 Ht0 _. apply Hi; assumption.
Qed.
End BlockCopy.

(** X15.  In 1.c the coordinating worker's own [local_data] after the copy of
    its block: the owned cell of the point [(x, y, z)] at timestep [t]
    holds the value of the field there, and every ghost cell still holds
    the [DBL_MAX] of the initialisation. *)
Theorem root_block_layout (c : OneC.Config) (full_data : buf) :
  0 <= OneC.local_nx c 0 -> 0 <= OneC.local_ny c 0 ->
  0 <= OneC.local_nz c 0 -> 0 <= OneC.nt c ->
  let ghost_nx := OneC.local_nx c 0 + 2 in
  let ghost_ny := OneC.local_ny c 0 + 2 in
  let ghost_nz := OneC.local_nz c 0 + 2 in
  let local_data := OneC.root_copy c full_data in
  (forall x y z t,
     0 <= x < OneC.local_nx c 0 -> 0 <= y < OneC.local_ny c 0 ->
     0 <= z < OneC.local_nz c 0 -> 0 <= t < OneC.nt c ->
     local_data (OneC.idx3d (x + 1) (y + 1) (z + 1) ghost_nx ghost_ny
                 * OneC.nt c + t)
     = Some (full_data
               (OneC.idx3d (OneC.start_x c 0 + x) (OneC.start_y c 0 + y)
                  (OneC.start_z c 0 + z) (OneC.nx c) (OneC.ny c)
                * OneC.nt c + t))) /\
  (forall gx gy gz t,
     0 <= gx < ghost_nx -> 0 <= gy < ghost_ny -> 0 <= gz < ghost_nz ->
     0 <= t < OneC.nt c ->
     ~ (1 <= gx <= OneC.local_nx c 0 /\ 1 <= gy <= OneC.local_ny c 0 /\
        1 <= gz <= OneC.local_nz c 0) ->
     local_data (OneC.idx3d gx gy gz ghost_nx ghost_ny * OneC.nt c + t)
     = Some DBL_MAX).
Proof.
  intros Hx Hy Hz Hnt ghost_nx ghost_ny ghost_nz local_data.
  subst local_data ghost_nx ghost_ny ghost_nz.
  destruct (block_copy_spec (OneC.local_nx c 0) (OneC.local_ny c 0)
              (OneC.local_nz c 0) (OneC.nt c)
              (fun x y z t =>
                 Some (full_data
                         (OneC.idx3d (OneC.start_x c 0 + x)
                            (OneC.start_y c 0 + y) (OneC.start_z c 0 + z)
                            (OneC.nx c) (OneC.ny c) * OneC.nt c + t)))
              (OneC.local_alloc c 0) Hx Hy Hz Hnt) as [H1 H2].
  split.
  - intros x y z t Hx0 Hy0 Hz0 Ht0. exact (H1 x y z t Hx0 Hy0 Hz0 Ht0).
  - intros gx gy gz t Hgx Hgy Hgz Ht0 Hghost.
    unfold OneC.root_copy. cbv zeta. unfold oupd.
    etransitivity; [apply H2|].
    + intros x y z t' Hx0 Hy0 Hz0 Ht' E.
      apply cell_index_inj in E; try assumption. destruct E as [E _].
      apply idx3d_inj in E; lia.
    + rewrite local_alloc_spec.
      pose proof (idx3d_range gx gy gz _ _ _ Hgx Hgy Hgz) as Hr.
      set (p := OneC.idx3d gx gy gz (OneC.local_nx c 0 + 2)
                  (OneC.local_ny c 0 + 2)) in *.
      set (G := (OneC.local_nx c 0 + 2) * (OneC.local_ny c 0 + 2)
                * (OneC.local_nz c 0 + 2)) in *.
      replace (0 <=? p * OneC.nt c + t) with true
        by (symmetry; apply Z.leb_le; nia).
      replace (p * OneC.nt c + t <? G * OneC.nt c) with true
        by (symmetry; apply Z.ltb_lt; nia).
      reflexivity.
Qed.

Lemma root_block_layout_witness :
  let c := OneC.mkConfig 1 1 1 2 1 1 1 1 in
  let full_data := of_list [10; 20] in
  let ghost_nx := OneC.local_nx c 0 + 2 in
  let ghost_ny := OneC.local_ny c 0 + 2 in
  let ghost_nz := OneC.local_nz c 0 + 2 in
  let local_data := OneC.root_copy c full_data in
  (forall x y z t,
     0 <= x < OneC.local_nx c 0 -> 0 <= y < OneC.local_ny c 0 ->
     0 <= z < OneC.local_nz c 0 -> 0 <= t < OneC.nt c ->
     local_data (OneC.idx3d (x + 1) (y + 1) (z + 1) ghost_nx ghost_ny
                 * OneC.nt c + t)
     = Some (full_data
               (OneC.idx3d (OneC.start_x c 0 + x) (OneC.start_y c 0 + y)
                  (OneC.start_z c 0 + z) (OneC.nx c) (OneC.ny c)
                * OneC.nt c + t))) /\
  (forall gx gy gz t,
     0 <= gx < ghost_nx -> 0 <= gy < ghost_ny -> 0 <= gz < ghost_nz ->
     0 <= t < OneC.nt c ->
     ~ (1 <= gx <= OneC.local_nx c 0 /\ 1 <= gy <= OneC.local_ny c 0 /\
        1 <= gz <= OneC.local_nz c 0) ->
     local_data (OneC.idx3d gx gy gz ghost_nx ghost_ny * OneC.nt c + t)
     = Some DBL_MAX).
Proof.
  intros c full_data.
  apply (root_block_layout c full_data); cbn; lia.
Defined.

Lemma oto_list_length (b : obuf) (n : Z) :
  length (oto_list b n) = Z.to_nat n.
Proof. unfold oto_list. now rewrite length_map, length_seq. Qed.

Lemma oto_list_nth (b : obuf) (n i : Z) :
  0 <= i < n -> nth (Z.to_nat i) (oto_list b n) None = b i.
Proof.
  intros Hi. unfold oto_list.
  rewrite (nth_indep _ None (b (Z.of_nat 0)))
    by (rewrite length_map, length_seq; lia).
  rewrite (map_nth (fun k => b (Z.of_nat k))), seq_nth by lia.
  f_equal. lia.
Qed.

(** The buffer of one send of 1.c: newly allocated, with the [nt] values
    of one point written at the place of that point. *)
Lemma point_buffer_spec (nt base : Z) (f : Z -> Z) (i : Z) :
  0 <= nt ->
  for_range 0 nt (fun t send_buf => oupd send_buf (base + t) (f t)) uninit i
  = if (base <=? i) && (i <? base + nt) then Some (f (i - base)) else None.
Proof.
  intros Hnt.
  apply (for_range_ind
           (fun j (b : obuf) =>
              b i = if (base <=? i) && (i <? base + j)
                    then Some (f (i - base)) else None)); [exact Hnt | |].
  - unfold uninit.
    destruct (Z.leb_spec base i), (Z.ltb_spec i (base + 0)); cbn [andb];
      try reflexivity; lia.
  - intros k b Hk Hb. unfold oupd.
    destruct (Z.eqb_spec i (base + k)) as [->|Hne].
    + replace (base <=? base + k) with true by (symmetry; apply Z.leb_le; lia).
      replace (base + k <? base + (k + 1)) with true
        by (symmetry; apply Z.ltb_lt; lia).
      cbn [andb]. do 2 f_equal. lia.
    + rewrite Hb.
      destruct (Z.leb_spec base i), (Z.ltb_spec i (base + k)),
        (Z.ltb_spec i (base + (k + 1))); cbn [andb]; try reflexivity; lia.
Qed.

(** The sends to worker [r] in 1.c, message by message. *)
Lemma sends_to_spec (c : OneC.Config) (full_data : buf) (r : Z) :
  0 <= OneC.local_nx c r -> 0 <= OneC.local_ny c r ->
  0 <= OneC.local_nz c r ->
  Z.of_nat (length (OneC.sends_to c full_data r))
  = OneC.local_nz c r * OneC.local_ny c r * OneC.local_nx c r /\
  forall x y z,
    0 <= x < OneC.local_nx c r -> 0 <= y < OneC.local_ny c r ->
    0 <= z < OneC.local_nz c r ->
    nth (Z.to_nat ((z * OneC.local_ny c r + y) * OneC.local_nx c r + x))
        (OneC.sends_to c full_data r) []
    = oto_list
        (for_range 0 (OneC.nt c)
           (fun t send_buf =>
              oupd send_buf
                (((z * OneC.local_ny c r + y) * OneC.local_nx c r + x)
                 * OneC.nt c + t)
                (full_data
                   (OneC.idx3d (OneC.start_x c r + x) (OneC.start_y c r + y)
                      (OneC.start_z c r + z) (OneC.nx c) (OneC.ny c)
                    * OneC.nt c + t)))
           uninit)
        (OneC.local_nx c r * OneC.local_ny c r * OneC.local_nz c r
         * OneC.nt c).
Proof.
  intros Hx Hy Hz. unfold OneC.sends_to. cbv zeta.
  set (lnx := OneC.local_nx c r) in *. set (lny := OneC.local_ny c r) in *.
  set (lnz := OneC.local_nz c r) in *.
  pose (msg := fun x y z =>
    oto_list
      (for_range 0 (OneC.nt c)
         (fun t send_buf =>
            oupd send_buf (((z * lny + y) * lnx + x) * OneC.nt c + t)
              (full_data
                 (OneC.idx3d (OneC.start_x c r + x) (OneC.start_y c r + y)
                    (OneC.start_z c r + z) (OneC.nx c) (OneC.ny c)
                  * OneC.nt c + t)))
         uninit)
      (lnx * lny * lnz * OneC.nt c)).
  pose (I := fun (n : Z) (sent : list (list (option Z))) =>
    Z.of_nat (length sent) = n /\
    forall x y z, 0 <= x < lnx -> 0 <= y < lny -> 0 <= z < lnz ->
      count3 0 0 0 (lny - 0) (lnx - 0) z y x < n ->
      nth (Z.to_nat (count3 0 0 0 (lny - 0) (lnx - 0) z y x)) sent []
      = msg x y z).
  match goal with
  | |- context [for_range 0 lnz ?body []] =>
      assert (H : I ((lnz - 0) * (lny - 0) * (lnx - 0))
                    (for_range 0 lnz body []))
  end.
  { apply (for3_ind 0 lnz 0 lny 0 lnx _ I); try lia.
    - split; [reflexivity|]. intros x y z Hx0 Hy0 Hz0 Hc.
      pose proof (count3_bounds 0 0 0 lnz (lny - 0) (lnx - 0) z y x
                    ltac:(lia) ltac:(lia) ltac:(lia)).
      lia.
    - intros a b d sent Ha Hb Hd (Hlen & Hnth). fold (msg d b a). split.
      + rewrite length_app. cbn [length]. lia.
      + intros x y z Hx0 Hy0 Hz0 Hc.
        pose proof (count3_bounds 0 0 0 lnz (lny - 0) (lnx - 0) z y x
                      ltac:(lia) ltac:(lia) ltac:(lia)) as Hb0.
        destruct (Z.eq_dec (count3 0 0 0 (lny - 0) (lnx - 0) z y x)
                           (count3 0 0 0 (lny - 0) (lnx - 0) a b d))
          as [E|Hne].
        * rewrite E, app_nth2 by lia.
          replace (Z.to_nat (count3 0 0 0 (lny - 0) (lnx - 0) a b d)
                   - length sent)%nat with O by lia.
          apply count3_inj in E; try lia. destruct E as (-> & -> & ->).
          reflexivity.
        * rewrite app_nth1 by lia. apply Hnth; try assumption. lia. }
  destruct H as [Hlen Hnth]. split; [rewrite Hlen; ring|].
  intros x y z Hx0 Hy0 Hz0.
  pose proof (count3_bounds 0 0 0 lnz (lny - 0) (lnx - 0) z y x
                ltac:(lia) ltac:(lia) ltac:(lia)) as Hb0.
  specialize (Hnth x y z Hx0 Hy0 Hz0 ltac:(lia)).
  replace (count3 0 0 0 (lny - 0) (lnx - 0) z y x)
    with ((z * lny + y) * lnx + x) in Hnth by (unfold count3; ring).
  exact Hnth.
Qed.

(** X16.  In 1.c every message to worker [r] has the length of the whole block,
    but only the values of one point are written in it: the message
    number [(z * r_ny + y) * r_nx + x] carries the [nt] values of the
    point [(x, y, z)] of the block at their place and indeterminate
    content everywhere else.  There is one message per point. *)
Theorem each_send_carries_one_point
        (c : OneC.Config) (full_data : buf) (r x y z : Z) :
  0 <= OneC.nt c ->
  0 <= x < OneC.local_nx c r -> 0 <= y < OneC.local_ny c r ->
  0 <= z < OneC.local_nz c r ->
  let points :=
    OneC.local_nx c r * OneC.local_ny c r * OneC.local_nz c r in
  let m := (z * OneC.local_ny c r + y) * OneC.local_nx c r + x in
  let msg := nth (Z.to_nat m) (OneC.sends_to c full_data r) [] in
  Z.of_nat (length (OneC.sends_to c full_data r)) = points /\
  Z.of_nat (length msg) = points * OneC.nt c /\
  forall i, 0 <= i < points * OneC.nt c ->
    nth (Z.to_nat i) msg None
    = if (m * OneC.nt c <=? i) && (i <? m * OneC.nt c + OneC.nt c)
      then Some (full_data
                   (OneC.idx3d (OneC.start_x c r + x) (OneC.start_y c r + y)
                      (OneC.start_z c r + z) (OneC.nx c) (OneC.ny c)
                    * OneC.nt c + (i - m * OneC.nt c)))
      else None.
Proof.
  intros Hnt Hx Hy Hz points m msg.
  destruct (sends_to_spec c full_data r ltac:(lia) ltac:(lia) ltac:(lia))
    as [Hlen Hnth].
  specialize (Hnth x y z Hx Hy Hz). fold m in Hnth.
  assert (Hp : 0 <= points) by (unfold points; nia).
  subst msg. rewrite Hnth. split; [rewrite Hlen; unfold points; ring|].
  split.
  - rewrite oto_list_length. fold points. nia.
  - intros i Hi. fold points. rewrite oto_list_nth by exact Hi.
    apply (point_buffer_spec (OneC.nt c) (m * OneC.nt c)
             (fun t => full_data
                         (OneC.idx3d (OneC.start_x c r + x)
                            (OneC.start_y c r + y) (OneC.start_z c r + z)
                            (OneC.nx c) (OneC.ny c) * OneC.nt c + t))
             i Hnt).
Qed.

Lemma each_send_carries_one_point_witness :
  let c := OneC.mkConfig 2 1 1 4 1 1 1 2 in
  let full_data := of_list [10; 20; 30; 40] in
  let points :=
    OneC.local_nx c 1 * OneC.local_ny c 1 * OneC.local_nz c 1 in
  let m := (0 * OneC.local_ny c 1 + 0) * OneC.local_nx c 1 + 1 in
  let msg := nth (Z.to_nat m) (OneC.sends_to c full_data 1) [] in
  Z.of_nat (length (OneC.sends_to c full_data 1)) = points /\
  Z.of_nat (length msg) = points * OneC.nt c /\
  forall i, 0 <= i < points * OneC.nt c ->
    nth (Z.to_nat i) msg None
    = if (m * OneC.nt c <=? i) && (i <? m * OneC.nt c + OneC.nt c)
      then Some (full_data
                   (OneC.idx3d (OneC.start_x c 1 + 1) (OneC.start_y c 1 + 0)
                      (OneC.start_z c 1 + 0) (OneC.nx c) (OneC.ny c)
                    * OneC.nt c + (i - m * OneC.nt c)))
      else None.
Proof.
  intros c full_data.
  apply (each_send_carries_one_point c full_data 1 1 0 0); cbn; lia.
Defined.

(** X17.  In 1.c a worker other than the coordinating one posts one receive and
    so takes the first message only: when the computation starts, of all
    the points of its block only the first, [(0, 0, 0)], holds the values
    of the field; the cells of every other owned point hold indeterminate
    content. *)
Theorem receiver_holds_first_point_only
        (c : OneC.Config) (full_data : buf) (rank : Z) :
  rank <> 0 ->
  1 <= OneC.local_nx c rank -> 1 <= OneC.local_ny c rank ->
  1 <= OneC.local_nz c rank -> 0 <= OneC.nt c ->
  exists local_data,
    OneC.local_data_of c full_data rank = Some local_data /\
    forall x y z t,
      0 <= x < OneC.local_nx c rank -> 0 <= y < OneC.local_ny c rank ->
      0 <= z < OneC.local_nz c rank -> 0 <= t < OneC.nt c ->
      local_data (OneC.idx3d (x + 1) (y + 1) (z + 1)
                    (OneC.local_nx c rank + 2) (OneC.local_ny c rank + 2)
                  * OneC.nt c + t)
      = if (x =? 0) && (y =? 0) && (z =? 0)
        then Some (full_data
                     (OneC.idx3d (OneC.start_x c rank) (OneC.start_y c rank)
                        (OneC.start_z c rank) (OneC.nx c) (OneC.ny c)
                      * OneC.nt c + t))
        else None.
Proof.
  intros Hrank Hx Hy Hz Hnt.
  destruct (sends_to_spec c full_data rank ltac:(lia) ltac:(lia) ltac:(lia))
    as [Hlen Hnth].
  specialize (Hnth 0 0 0 ltac:(lia) ltac:(lia) ltac:(lia)).
  unfold OneC.local_data_of, OneC.recv_buf.
  replace (rank =? 0) with false by (symmetry; apply Z.eqb_neq; exact Hrank).
  set (lnx := OneC.local_nx c rank) in *.
  set (lny := OneC.local_ny c rank) in *.
  set (lnz := OneC.local_nz c rank) in *.
  assert (Hp : 1 <= lnz * lny * lnx) by nia.
  destruct (OneC.sends_to c full_data rank) as [|msg rest];
    [cbn [length] in Hlen; lia|].
  replace ((0 * lny + 0) * lnx + 0) with 0 in Hnth by ring.
  cbn [Z.to_nat nth] in Hnth. subst msg.
  rewrite oto_list_length.
  replace (Z.of_nat (Z.to_nat (lnx * lny * lnz * OneC.nt c))
           <=? lnx * lny * lnz * OneC.nt c)
    with true by (symmetry; apply Z.leb_le; nia).
  eexists. split; [reflexivity|].
  intros x y z t Hx0 Hy0 Hz0 Ht0.
  match goal with
  | |- context [ostore ?m uninit] => set (recv := ostore m uninit)
  end.
  destruct (block_copy_spec lnx lny lnz (OneC.nt c)
              (fun x y z t => recv (((z * lny + y) * lnx + x) * OneC.nt c + t))
              (OneC.local_alloc c rank) ltac:(lia) ltac:(lia) ltac:(lia) Hnt)
    as [H1 _].
  etransitivity; [exact (H1 x y z t Hx0 Hy0 Hz0 Ht0)|].
  cbv beta. unfold recv, ostore. rewrite oto_list_length.
  pose proof (count3_bounds 0 0 0 lnz lny lnx z y x ltac:(lia) ltac:(lia)
                ltac:(lia)) as Hm.
  replace (count3 0 0 0 lny lnx z y x) with ((z * lny + y) * lnx + x) in Hm
    by (unfold count3; ring).
  set (m := (z * lny + y) * lnx + x) in *.
  replace (0 <=? m * OneC.nt c + t) with true
    by (symmetry; apply Z.leb_le; nia).
  replace (m * OneC.nt c + t
           <? Z.of_nat (Z.to_nat (lnx * lny * lnz * OneC.nt c)))
    with true by (symmetry; apply Z.ltb_lt; nia).
  cbn [andb]. rewrite oto_list_nth by nia.
  rewrite (point_buffer_spec (OneC.nt c) (0 * OneC.nt c)
             (fun t => full_data
                         (OneC.idx3d (OneC.start_x c rank + 0)
                            (OneC.start_y c rank + 0)
                            (OneC.start_z c rank + 0)
                            (OneC.nx c) (OneC.ny c) * OneC.nt c + t))
             _ Hnt).
  rewrite !Z.add_0_r.
  destruct (Z.eq_dec m 0) as [E|Hne].
  - assert (x = 0 /\ y = 0 /\ z = 0) as (-> & -> & ->).
    { assert (E' : count3 0 0 0 lny lnx z y x = count3 0 0 0 lny lnx 0 0 0)
        by (unfold count3; unfold m in E; lia).
      apply count3_inj in E'; lia. }
    cbn [Z.eqb andb].
    replace (0 * OneC.nt c <=? m * OneC.nt c + t) with true
      by (symmetry; apply Z.leb_le; lia).
    replace (m * OneC.nt c + t <? 0 * OneC.nt c + OneC.nt c) with true
      by (symmetry; apply Z.ltb_lt; lia).
    cbn [andb]. do 2 f_equal. lia.
  - replace (m * OneC.nt c + t <? 0 * OneC.nt c + OneC.nt c) with false
      by (symmetry; apply Z.ltb_ge; nia).
    rewrite andb_false_r.
    destruct (Z.eqb_spec x 0), (Z.eqb_spec y 0), (Z.eqb_spec z 0);
      cbn [andb]; try reflexivity.
    exfalso. apply Hne. unfold m. subst. ring.
Qed.

Lemma receiver_holds_first_point_only_witness :
  let c := OneC.mkConfig 2 1 1 4 1 1 1 2 in
  let full_data := of_list [10; 20; 30; 40] in
  exists local_data,
    OneC.local_data_of c full_data 1 = Some local_data /\
    forall x y z t,
      0 <= x < OneC.local_nx c 1 -> 0 <= y < OneC.local_ny c 1 ->
      0 <= z < OneC.local_nz c 1 -> 0 <= t < OneC.nt c ->
      local_data (OneC.idx3d (x + 1) (y + 1) (z + 1)
                    (OneC.local_nx c 1 + 2) (OneC.local_ny c 1 + 2)
                  * OneC.nt c + t)
      = if (x =? 0) && (y =? 0) && (z =? 0)
        then Some (full_data
                     (OneC.idx3d (OneC.start_x c 1) (OneC.start_y c 1)
                        (OneC.start_z c 1) (OneC.nx c) (OneC.ny c)
                      * OneC.nt c + t))
        else None.
Proof.
  intros c full_data.
  apply (receiver_holds_first_point_only c full_data 1); cbn; lia.
Defined.

(** ** pankaj_code.c and pankaj_code2.c: blocks copied with a running index *)

Section CounterCopy.
Context {B R : Type}.
Variables (store : B -> Z -> Z -> B) (look : B -> Z -> R) (inj : Z -> R).
Hypothesis look_same : forall b i v, look (store b i v) i = inj v.
Hypothesis look_other :
  forall b i v j, j <> i -> look (store b i v) j = look b j.
Variables (lo1 hi1 lo2 hi2 lo3 hi3 nt : Z).
Variable src : Z -> Z -> Z -> Z -> Z.
Variable init : B.
Hypothesis H1 : lo1 <= hi1.
Hypothesis H2 : lo2 <= hi2.
Hypothesis H3 : lo3 <= hi3.
Hypothesis Hnt : 0 <= nt.

(** A block copied point by point, each point with its [nt] values, to
    the cells [buffer[idx++]]: the point number [n] of the loop nest lands
    in the cells [n * nt .. n * nt + nt - 1], and the cells from the final
    index on are untouched. *)
Lemma counter_copy_spec :
  let s :=
    for_range lo1 hi1 (fun a =>
    for_range lo2 hi2 (fun b =>
    for_range lo3 hi3 (fun c =>
      for_range 0 nt (fun t '(buffer, idx) =>
        (store buffer idx (src a b c t), idx + 1)))))
    (init, 0) in
  snd s = (hi1 - lo1) * (hi2 - lo2) * (hi3 - lo3) * nt /\
  (forall a b c t,
     lo1 <= a < hi1 -> lo2 <= b < hi2 -> lo3 <= c < hi3 -> 0 <= t < nt ->
     look (fst s)
          (count3 lo1 lo2 lo3 (hi2 - lo2) (hi3 - lo3) a b c * nt + t)
     = inj (src a b c t)) /\
  (forall i, i < 0 \/ snd s <= i -> look (fst s) i = look init i).
Proof.
  intros s. subst s.
  pose (J := fun (k : Z) (s : B * Z) =>
    snd s = k /\
    (forall a b c t,
       lo1 <= a < hi1 -> lo2 <= b < hi2 -> lo3 <= c < hi3 -> 0 <= t < nt ->
       count3 lo1 lo2 lo3 (hi2 - lo2) (hi3 - lo3) a b c * nt + t < k ->
       look (fst s)
            (count3 lo1 lo2 lo3 (hi2 - lo2) (hi3 - lo3) a b c * nt + t)
       = inj (src a b c t)) /\
    (forall i, i < 0 \/ k <= i -> look (fst s) i = look init i)).
  match goal with
  | |- context [for_range lo1 hi1 ?body (init, 0)] =>
      assert (H : J ((hi1 - lo1) * (hi2 - lo2) * (hi3 - lo3) * nt)
                    (for_range lo1 hi1 body (init, 0)))
  end.
  { apply (for3_ind lo1 hi1 lo2 hi2 lo3 hi3 _ (fun n s => J (n * nt) s));
      try assumption.
    - unfold J. cbn [fst snd]. split; [ring|]. split; [|reflexivity].
      intros a b c t Ha Hb Hc Ht Hlt.
      pose proof (count3_bounds lo1 lo2 lo3 (hi1 - lo1) (hi2 - lo2)
                    (hi3 - lo3) a b c ltac:(lia) ltac:(lia) ltac:(lia)).
      nia.
    - intros a b c s Ha Hb Hc HJ.
      pose proof (count3_bounds lo1 lo2 lo3 (hi1 - lo1) (hi2 - lo2)
                    (hi3 - lo3) a b c ltac:(lia) ltac:(lia) ltac:(lia)) as Hn.
      set (n := count3 lo1 lo2 lo3 (hi2 - lo2) (hi3 - lo3) a b c) in *.
      replace ((n + 1) * nt) with (n * nt + nt) by ring.
      apply (for_range_ind (fun t' s' => J (n * nt + t') s'));
        [exact Hnt | rewrite Z.add_0_r; exact HJ |].
      intros j [b' idx] Hj (Hidx & Hin & Hout). cbn [fst snd] in *.
      subst idx. unfold J. cbn [fst snd].
      split; [ring|]. split.
      + intros a' b0 c' t Ha' Hb' Hc' Ht Hlt.
        destruct (Z.eq_dec
                    (count3 lo1 lo2 lo3 (hi2 - lo2) (hi3 - lo3) a' b0 c' * nt
                     + t) (n * nt + j)) as [E|Hne].
        * rewrite E, look_same.
          apply cell_index_inj in E; try lia. destruct E as [E ->].
          unfold n in E. apply count3_inj in E; try lia.
          destruct E as (-> & -> & ->). reflexivity.
        * rewrite look_other by exact Hne. apply Hin; try assumption. lia.
      + intros i Hi. rewrite look_other by nia. apply Hout. lia. }
  destruct H as (Hidx & Hin & Hout). split; [exact Hidx|]. split.
  - intros a b c t Ha Hb Hc Ht. apply Hin; try assumption.
    pose proof (count3_bounds lo1 lo2 lo3 (hi1 - lo1) (hi2 - lo2)
                  (hi3 - lo3) a b c ltac:(lia) ltac:(lia) ltac:(lia)).
    nia.
  - intros i Hi. apply Hout. rewrite Hidx in Hi. exact Hi.
Qed.
End CounterCopy.

(** ** pankaj_code.c: the distribution *)

(** The buffer the copy loops of pankaj_code.c fill for the block that
    starts at [(sx, sy, sz)]. *)
Lemma copy_block_cells (c : PankajC.Config) (globalData : buf) (sx sy sz : Z) :
  0 <= PankajC.subDomainSizeX c -> 0 <= PankajC.subDomainSizeY c ->
  0 <= PankajC.subDomainSizeZ c -> 0 <= PankajC.timeSteps c ->
  (forall x y z t,
     0 <= x < PankajC.subDomainSizeX c -> 0 <= y < PankajC.subDomainSizeY c ->
     0 <= z < PankajC.subDomainSizeZ c -> 0 <= t < PankajC.timeSteps c ->
     PankajC.copy_block c globalData sx sy sz
       (((z * PankajC.subDomainSizeY c + y) * PankajC.subDomainSizeX c + x)
        * PankajC.timeSteps c + t)
     = Some (globalData
               (((sz + z) * PankajC.nX c * PankajC.nY c
                 + (sy + y) * PankajC.nX c + (sx + x))
                * PankajC.timeSteps c + t))) /\
  (forall i,
     i < 0 \/ PankajC.subDomainSize c * PankajC.timeSteps c <= i ->
     PankajC.copy_block c globalData sx sy sz i = None).
Proof.
  intros Hx Hy Hz Hnt. unfold PankajC.copy_block. cbv zeta.
  destruct (counter_copy_spec oupd (fun (b : obuf) i => b i) Some
              ltac:(intros; unfold oupd; now rewrite Z.eqb_refl)
              ltac:(intros b i v j Hne; unfold oupd;
                    destruct (Z.eqb_spec j i); [contradiction | reflexivity])
              sz (sz + PankajC.subDomainSizeZ c)
              sy (sy + PankajC.subDomainSizeY c)
              sx (sx + PankajC.subDomainSizeX c)
              (PankajC.timeSteps c)
              (fun z y x t =>
                 globalData ((z * PankajC.nX c * PankajC.nY c
                              + y * PankajC.nX c + x)
                             * PankajC.timeSteps c + t))
              uninit ltac:(lia) ltac:(lia) ltac:(lia) Hnt)
    as (Hidx & Hin & Hout).
  split.
  - intros x y z t Hx0 Hy0 Hz0 Ht0.
    specialize (Hin (sz + z) (sy + y) (sx + x) t ltac:(lia) ltac:(lia)
                    ltac:(lia) Ht0).
    replace (count3 sz sy sx (sy + PankajC.subDomainSizeY c - sy)
               (sx + PankajC.subDomainSizeX c - sx) (sz + z) (sy + y) (sx + x))
      with ((z * PankajC.subDomainSizeY c + y) * PankajC.subDomainSizeX c + x)
      in Hin by (unfold count3; ring).
    exact Hin.
  - intros i Hi. rewrite Hout; [reflexivity|].
    rewrite Hidx. unfold PankajC.subDomainSize in Hi.
    destruct Hi as [Hi|Hi]; [left; exact Hi | right].
    replace ((sz + PankajC.subDomainSizeZ c - sz)
             * (sy + PankajC.subDomainSizeY c - sy)
             * (sx + PankajC.subDomainSizeX c - sx) * PankajC.timeSteps c)
      with (PankajC.subDomainSizeX c * PankajC.subDomainSizeY c
            * PankajC.subDomainSizeZ c * PankajC.timeSteps c) by ring.
    exact Hi.
Qed.

(** X18.  In pankaj_code.c the coordinating worker's [localData] holds its
    block point by point, x fastest, each point with its [timeSteps]
    values in a row: the cell
    [((z * subDomainSizeY + y) * subDomainSizeX + x) * timeSteps + t] is
    the field value of the point [(x, y, z)] at timestep [t], and no cell
    outside [0 .. subDomainSize * timeSteps - 1] is written. *)
Theorem pankaj_root_block_layout (c : PankajC.Config) (globalData : buf) :
  0 < PankajC.pX c -> 0 < PankajC.pY c ->
  0 <= PankajC.subDomainSizeX c -> 0 <= PankajC.subDomainSizeY c ->
  0 <= PankajC.subDomainSizeZ c -> 0 <= PankajC.timeSteps c ->
  exists localData,
    PankajC.localData_of c globalData 0 = Some localData /\
    (forall x y z t,
       0 <= x < PankajC.subDomainSizeX c ->
       0 <= y < PankajC.subDomainSizeY c ->
       0 <= z < PankajC.subDomainSizeZ c -> 0 <= t < PankajC.timeSteps c ->
       localData
         (((z * PankajC.subDomainSizeY c + y) * PankajC.subDomainSizeX c + x)
          * PankajC.timeSteps c + t)
       = Some (globalData
                 ((z * PankajC.nX c * PankajC.nY c + y * PankajC.nX c + x)
                  * PankajC.timeSteps c + t))) /\
    (forall i,
       i < 0 \/ PankajC.subDomainSize c * PankajC.timeSteps c <= i ->
       localData i = None).
Proof.
  intros HpX HpY Hx Hy Hz Hnt.
  unfold PankajC.localData_of. cbn [Z.eqb].
  eexists. split; [reflexivity|].
  destruct (copy_block_cells c globalData (PankajC.startX c 0)
              (PankajC.startY c 0) (PankajC.startZ c 0) Hx Hy Hz Hnt)
    as [Hin Hout].
  split; [|exact Hout].
  intros x y z t Hx0 Hy0 Hz0 Ht0. rewrite Hin by assumption.
  unfold PankajC.startX, PankajC.startY, PankajC.startZ,
    PankajC.subDomainX, PankajC.subDomainY, PankajC.subDomainZ.
  rewrite !Z.rem_0_l by nia. rewrite !Z.quot_0_l by nia.
  do 2 f_equal; ring.
Qed.

Lemma pankaj_root_block_layout_witness :
  let c := PankajC.mkConfig 1 1 1 2 1 1 2 1 in
  let globalData := of_list [1; 5; 0; 7] in
  exists localData,
    PankajC.localData_of c globalData 0 = Some localData /\
    (forall x y z t,
       0 <= x < PankajC.subDomainSizeX c ->
       0 <= y < PankajC.subDomainSizeY c ->
       0 <= z < PankajC.subDomainSizeZ c -> 0 <= t < PankajC.timeSteps c ->
       localData
         (((z * PankajC.subDomainSizeY c + y) * PankajC.subDomainSizeX c + x)
          * PankajC.timeSteps c + t)
       = Some (globalData
                 ((z * PankajC.nX c * PankajC.nY c + y * PankajC.nX c + x)
                  * PankajC.timeSteps c + t))) /\
    (forall i,
       i < 0 \/ PankajC.subDomainSize c * PankajC.timeSteps c <= i ->
       localData i = None).
Proof.
  intros c globalData.
  apply (pankaj_root_block_layout c globalData); cbn; lia.
Defined.

(** X19.  In pankaj_code.c the message to a worker counts [subDomainSize]
    doubles, while the block was packed with [subDomainSize * timeSteps]
    of them: after the receive the cells [0 .. subDomainSize - 1] of
    [localData] hold the start of the packed block (the first
    [subDomainSize / timeSteps] points), and every cell from
    [subDomainSize] on holds indeterminate content. *)
Theorem pankaj_receiver_gets_first_cells
        (c : PankajC.Config) (globalData : buf) (p : Z) :
  p <> 0 ->
  0 <= PankajC.subDomainSizeX c -> 0 <= PankajC.subDomainSizeY c ->
  0 <= PankajC.subDomainSizeZ c -> 0 <= PankajC.timeSteps c ->
  let pStartX := Z.rem p (PankajC.pX c) * PankajC.subDomainSizeX c in
  let pStartY :=
    Z.quot (Z.rem p (PankajC.pX c * PankajC.pY c)) (PankajC.pX c)
    * PankajC.subDomainSizeY c in
  let pStartZ :=
    Z.quot p (PankajC.pX c * PankajC.pY c) * PankajC.subDomainSizeZ c in
  exists localData,
    PankajC.localData_of c globalData p = Some localData /\
    (forall x y z t,
       0 <= x < PankajC.subDomainSizeX c ->
       0 <= y < PankajC.subDomainSizeY c ->
       0 <= z < PankajC.subDomainSizeZ c -> 0 <= t < PankajC.timeSteps c ->
       let k :=
         ((z * PankajC.subDomainSizeY c + y) * PankajC.subDomainSizeX c + x)
         * PankajC.timeSteps c + t in
       localData k
       = if k <? PankajC.subDomainSize c
         then Some (globalData
                      (((pStartZ + z) * PankajC.nX c * PankajC.nY c
                        + (pStartY + y) * PankajC.nX c + (pStartX + x))
                       * PankajC.timeSteps c + t))
         else None) /\
    (forall i, i < 0 \/ PankajC.subDomainSize c <= i -> localData i = None).
Proof.
  intros Hp Hx Hy Hz Hnt pStartX pStartY pStartZ.
  unfold PankajC.localData_of, PankajC.message_to. cbv zeta.
  fold pStartX pStartY pStartZ.
  replace (p =? 0) with false by (symmetry; apply Z.eqb_neq; exact Hp).
  assert (HS : 0 <= PankajC.subDomainSize c)
    by (unfold PankajC.subDomainSize; nia).
  rewrite oto_list_length.
  replace (Z.of_nat (Z.to_nat (PankajC.subDomainSize c))
           <=? PankajC.subDomainSize c)
    with true by (symmetry; apply Z.leb_le; lia).
  eexists. split; [reflexivity|].
  destruct (copy_block_cells c globalData pStartX pStartY pStartZ
              Hx Hy Hz Hnt) as [Hin Hout].
  assert (Hcell : forall i,
            ostore (oto_list (PankajC.copy_block c globalData pStartX pStartY
                                pStartZ) (PankajC.subDomainSize c)) uninit i
            = if (0 <=? i) && (i <? PankajC.subDomainSize c)
              then PankajC.copy_block c globalData pStartX pStartY pStartZ i
              else None).
  { intros i. unfold ostore. rewrite oto_list_length.
    replace (Z.of_nat (Z.to_nat (PankajC.subDomainSize c)))
      with (PankajC.subDomainSize c) by lia.
    destruct (Z.leb_spec 0 i), (Z.ltb_spec i (PankajC.subDomainSize c));
      cbn [andb]; try reflexivity.
    apply oto_list_nth. lia. }
  split.
  - intros x y z t Hx0 Hy0 Hz0 Ht0. cbv zeta.
    set (k := ((z * PankajC.subDomainSizeY c + y) * PankajC.subDomainSizeX c
               + x) * PankajC.timeSteps c + t).
    rewrite Hcell.
    pose proof (count3_bounds 0 0 0 (PankajC.subDomainSizeZ c)
                  (PankajC.subDomainSizeY c) (PankajC.subDomainSizeX c)
                  z y x ltac:(lia) ltac:(lia) ltac:(lia)) as Hm.
    replace (count3 0 0 0 (PankajC.subDomainSizeY c)
               (PankajC.subDomainSizeX c) z y x)
      with ((z * PankajC.subDomainSizeY c + y) * PankajC.subDomainSizeX c + x)
      in Hm by (unfold count3; ring).
    replace (0 <=? k) with true by (symmetry; apply Z.leb_le; unfold k; nia).
    cbn [andb]. destruct (k <? PankajC.subDomainSize c); [|reflexivity].
    unfold k. apply Hin; assumption.
  - intros i Hi. rewrite Hcell.
    destruct (Z.leb_spec 0 i), (Z.ltb_spec i (PankajC.subDomainSize c));
      cbn [andb]; try reflexivity; lia.
Qed.

Lemma pankaj_receiver_gets_first_cells_witness :
  let c := PankajC.mkConfig 2 1 1 4 1 1 2 2 in
  let globalData := of_list [1; 2; 3; 4; 5; 6; 7; 8] in
  let pStartX := Z.rem 1 (PankajC.pX c) * PankajC.subDomainSizeX c in
  let pStartY :=
    Z.quot (Z.rem 1 (PankajC.pX c * PankajC.pY c)) (PankajC.pX c)
    * PankajC.subDomainSizeY c in
  let pStartZ :=
    Z.quot 1 (PankajC.pX c * PankajC.pY c) * PankajC.subDomainSizeZ c in
  exists localData,
    PankajC.localData_of c globalData 1 = Some localData /\
    (forall x y z t,
       0 <= x < PankajC.subDomainSizeX c ->
       0 <= y < PankajC.subDomainSizeY c ->
       0 <= z < PankajC.subDomainSizeZ c -> 0 <= t < PankajC.timeSteps c ->
       let k :=
         ((z * PankajC.subDomainSizeY c + y) * PankajC.subDomainSizeX c + x)
         * PankajC.timeSteps c + t in
       localData k
       = if k <? PankajC.subDomainSize c
         then Some (globalData
                      (((pStartZ + z) * PankajC.nX c * PankajC.nY c
                        + (pStartY + y) * PankajC.nX c + (pStartX + x))
                       * PankajC.timeSteps c + t))
         else None) /\
    (forall i, i < 0 \/ PankajC.subDomainSize c <= i -> localData i = None).
Proof.
  intros c globalData.
  apply (pankaj_receiver_gets_first_cells c globalData 1); cbn; lia.
Defined.

(** ** pankaj_code.c: the scan *)

Lemma fold_flags_none {A : Type} (f : option (bool * bool) -> A -> option (bool * bool)) (l : list A) :
  (forall a, f None a = None) -> fold_left f l None = None.
Proof.
  intros Hf. induction l as [|a l IH]; cbn [fold_left]; [reflexivity|].
  rewrite Hf. exact IH.
Qed.

(** The loop over the six neighbours never leaves both flags set. *)
Lemma neighbor_flags_exclusive (c : PankajC.Config) (localData : obuf)
      (x y z t value : Z) (isMin isMax : bool) :
  PankajC.neighbor_flags c localData x y z t value = Some (isMin, isMax) ->
  isMin && isMax = false.
Proof.
  unfold PankajC.neighbor_flags.
  match goal with
  | |- fold_left ?f _ _ = _ -> _ => set (F := f)
  end.
  assert (HF : forall off, F None off = None) by reflexivity.
  assert (Hkeep : forall l a0 b0 a b,
            a0 && b0 = false ->
            fold_left F l (Some (a0, b0)) = Some (a, b) -> a && b = false).
  { induction l as [|off l IH]; intros a0 b0 a b H0 H; cbn [fold_left] in H.
    - injection H as <- <-. exact H0.
    - destruct (F (Some (a0, b0)) off) as [[a1 b1]|] eqn:E.
      + apply (IH a1 b1); [|exact H].
        unfold F in E. destruct off as [[o0 o1] o2].
        destruct (localData _); [|discriminate].
        injection E as <- <-.
        destruct (value >=? _), (value <=? _), a0, b0;
          try reflexivity; discriminate.
      + rewrite (fold_flags_none F l HF) in H. discriminate. }
  assert (Hfirst : forall off l a b,
            fold_left F (off :: l) (Some (true, true)) = Some (a, b) ->
            a && b = false).
  { intros off l a b H. cbn [fold_left] in H.
    destruct (F (Some (true, true)) off) as [[a1 b1]|] eqn:E.
    - apply (Hkeep l a1 b1); [|exact H].
      unfold F in E. destruct off as [[o0 o1] o2].
      destruct (localData _) as [nv|]; [|discriminate].
      injection E as <- <-.
      destruct (Z.geb_spec value nv), (Z.leb_spec value nv);
        try reflexivity; lia.
    - rewrite (fold_flags_none F l HF) in H. discriminate. }
  unfold PankajC.neighborOffsets. apply Hfirst.
Qed.

(** One step of the scan of pankaj_code.c that does not read
    indeterminate content: what it does to the four arrays. *)
Lemma process_point_some (c : PankajC.Config) (localData : obuf)
      (x y z t : Z) (r r' : PankajC.Results) :
  PankajC.process_point c localData x y z t (Some r) = Some r' ->
  exists value dmin dmax,
    localData ((z * PankajC.subDomainSizeY c + y) * PankajC.subDomainSizeX c
               + x + t) = Some value /\
    0 <= dmin /\ 0 <= dmax /\ dmin + dmax <= 1 /\
    (~ (0 < x < PankajC.subDomainSizeX c - 1 /\
        0 < y < PankajC.subDomainSizeY c - 1 /\
        0 < z < PankajC.subDomainSizeZ c - 1) -> dmin = 0 /\ dmax = 0) /\
    (forall u, PankajC.localMinimaCount r' u
               = if u =? t then PankajC.localMinimaCount r t + dmin
                 else PankajC.localMinimaCount r u) /\
    (forall u, PankajC.localMaximaCount r' u
               = if u =? t then PankajC.localMaximaCount r t + dmax
                 else PankajC.localMaximaCount r u) /\
    (forall u, PankajC.subDomainMinValues r' u
               = if u =? t then Z.min value (PankajC.subDomainMinValues r t)
                 else PankajC.subDomainMinValues r u) /\
    (forall u, PankajC.subDomainMaxValues r' u
               = if u =? t then Z.max value (PankajC.subDomainMaxValues r t)
                 else PankajC.subDomainMaxValues r u).
Proof.
  unfold PankajC.process_point. cbv zeta.
  destruct (localData _) as [value|]; [|discriminate].
  assert (Hminv : forall u,
            (if value <? PankajC.subDomainMinValues r t
             then upd (PankajC.subDomainMinValues r) t value
             else PankajC.subDomainMinValues r) u
            = if u =? t then Z.min value (PankajC.subDomainMinValues r t)
              else PankajC.subDomainMinValues r u).
  { intros u. destruct (Z.ltb_spec value (PankajC.subDomainMinValues r t)),
      (Z.eqb_spec u t); subst; rewrite ?upd_same, ?upd_other by assumption;
      try reflexivity; lia. }
  assert (Hmaxv : forall u,
            (if value >? PankajC.subDomainMaxValues r t
             then upd (PankajC.subDomainMaxValues r) t value
             else PankajC.subDomainMaxValues r) u
            = if u =? t then Z.max value (PankajC.subDomainMaxValues r t)
              else PankajC.subDomainMaxValues r u).
  { intros u. rewrite Z.gtb_ltb.
    destruct (Z.ltb_spec (PankajC.subDomainMaxValues r t) value),
      (Z.eqb_spec u t); subst; rewrite ?upd_same, ?upd_other by assumption;
      try reflexivity; lia. }
  assert (Hcount : forall (b : bool) (cnt : buf) u,
            (if b then upd cnt t (cnt t + 1) else cnt) u
            = if u =? t then cnt t + (if b then 1 else 0) else cnt u).
  { intros b cnt u. destruct b, (Z.eqb_spec u t); subst;
      rewrite ?upd_same, ?upd_other by assumption; lia. }
  destruct ((x >? 0) && (x <? PankajC.subDomainSizeX c - 1)
            && (y >? 0) && (y <? PankajC.subDomainSizeY c - 1)
            && (z >? 0) && (z <? PankajC.subDomainSizeZ c - 1)) eqn:Hg.
  - destruct (PankajC.neighbor_flags c localData x y z t value)
      as [[isMin isMax]|] eqn:Hf; [|discriminate].
    intros H. injection H as <-.
    apply neighbor_flags_exclusive in Hf.
    exists value, (if isMin then 1 else 0), (if isMax then 1 else 0).
    cbn [PankajC.localMinimaCount PankajC.localMaximaCount
         PankajC.subDomainMinValues PankajC.subDomainMaxValues].
    split; [reflexivity|].
    split; [destruct isMin; lia|]. split; [destruct isMax; lia|].
    split; [destruct isMin, isMax; try lia; discriminate|].
    split.
    + intros Hno. exfalso. apply Hno.
      rewrite !andb_true_iff, !Z.gtb_ltb, !Z.ltb_lt in Hg. lia.
    + repeat split; intros u; auto.
  - intros H. injection H as <-.
    exists value, 0, 0.
    cbn [PankajC.localMinimaCount PankajC.localMaximaCount
         PankajC.subDomainMinValues PankajC.subDomainMaxValues].
    split; [reflexivity|]. do 3 (split; [lia|]).
    split; [intros _; lia|].
    repeat split; intros u; auto;
      destruct (Z.eqb_spec u t); subst; lia.
Qed.

Lemma pankaj_init_results (c : PankajC.Config) (t : Z) :
  0 <= PankajC.timeSteps c ->
  PankajC.localMinimaCount (PankajC.init_results c) t = 0 /\
  PankajC.localMaximaCount (PankajC.init_results c) t = 0 /\
  (0 <= t < PankajC.timeSteps c ->
   PankajC.subDomainMinValues (PankajC.init_results c) t = DBL_MAX /\
   PankajC.subDomainMaxValues (PankajC.init_results c) t = - DBL_MAX).
Proof.
  intros Hnt. unfold PankajC.init_results.
  apply (for_range_ind
           (fun j r =>
              PankajC.localMinimaCount r t = 0 /\
              PankajC.localMaximaCount r t = 0 /\
              (0 <= t < j ->
               PankajC.subDomainMinValues r t = DBL_MAX /\
               PankajC.subDomainMaxValues r t = - DBL_MAX)));
    [exact Hnt | |].
  - cbn. repeat split; lia.
  - intros j r Hj (H1 & H2 & H3).
    cbn [PankajC.localMinimaCount PankajC.localMaximaCount
         PankajC.subDomainMinValues PankajC.subDomainMaxValues].
    repeat (split; [assumption|]). intros Ht.
    destruct (Z.eq_dec t j) as [->|Hne].
    + now rewrite !upd_same.
    + rewrite !upd_other by assumption. apply H3. lia.
Qed.

(** The scan of pankaj_code.c, whenever it reads no indeterminate cell. *)
Lemma process_spec (c : PankajC.Config) (localData : obuf)
      (r : PankajC.Results) (t : Z) :
  0 <= PankajC.subDomainSizeX c -> 0 <= PankajC.subDomainSizeY c ->
  0 <= PankajC.subDomainSizeZ c ->
  PankajC.process c localData = Some r -> 0 <= t < PankajC.timeSteps c ->
  0 <= PankajC.localMinimaCount r t /\ 0 <= PankajC.localMaximaCount r t /\
  PankajC.localMinimaCount r t + PankajC.localMaximaCount r t
  <= PankajC.subDomainSize c /\
  (PankajC.subDomainSizeX c <= 2 \/ PankajC.subDomainSizeY c <= 2 \/
   PankajC.subDomainSizeZ c <= 2 ->
   PankajC.localMinimaCount r t = 0 /\ PankajC.localMaximaCount r t = 0) /\
  (forall q, 0 <= q < PankajC.subDomainSize c ->
     exists v, localData (q + t) = Some v /\
               PankajC.subDomainMinValues r t <= v
               <= PankajC.subDomainMaxValues r t) /\
  (PankajC.subDomainMinValues r t = DBL_MAX \/
   exists q, 0 <= q < PankajC.subDomainSize c /\
             localData (q + t) = Some (PankajC.subDomainMinValues r t)) /\
  (PankajC.subDomainMaxValues r t = - DBL_MAX \/
   exists q, 0 <= q < PankajC.subDomainSize c /\
             localData (q + t) = Some (PankajC.subDomainMaxValues r t)).
Proof.
  intros Hx Hy Hz Hr Ht.
  set (sX := PankajC.subDomainSizeX c) in *.
  set (sY := PankajC.subDomainSizeY c) in *.
  set (sZ := PankajC.subDomainSizeZ c) in *.
  set (ts := PankajC.timeSteps c) in *.
  assert (HS : PankajC.subDomainSize c = sZ * sY * sX)
    by (unfold PankajC.subDomainSize; fold sX sY sZ; ring).
  rewrite HS.
  pose (P := fun (n : Z) (r : PankajC.Results) (u : Z) =>
    0 <= PankajC.localMinimaCount r u /\ 0 <= PankajC.localMaximaCount r u /\
    PankajC.localMinimaCount r u + PankajC.localMaximaCount r u <= n /\
    (sX <= 2 \/ sY <= 2 \/ sZ <= 2 ->
     PankajC.localMinimaCount r u = 0 /\ PankajC.localMaximaCount r u = 0) /\
    (forall q, 0 <= q < n ->
       exists v, localData (q + u) = Some v /\
                 PankajC.subDomainMinValues r u <= v
                 <= PankajC.subDomainMaxValues r u) /\
    (PankajC.subDomainMinValues r u = DBL_MAX \/
     exists q, 0 <= q < sZ * sY * sX /\
               localData (q + u) = Some (PankajC.subDomainMinValues r u)) /\
    (PankajC.subDomainMaxValues r u = - DBL_MAX \/
     exists q, 0 <= q < sZ * sY * sX /\
               localData (q + u) = Some (PankajC.subDomainMaxValues r u))).
  pose (I := fun (n : Z) (s : option PankajC.Results) =>
    match s with
    | Some r => forall u, 0 <= u < ts -> P n r u
    | None => True
    end).
  assert (H : I ((sZ - 0) * (sY - 0) * (sX - 0))
                (PankajC.process c localData)).
  { unfold PankajC.process. fold sX sY sZ ts.
    apply (for3_ind 0 sZ 0 sY 0 sX
             (fun z y x => for_range 0 ts
                             (PankajC.process_point c localData x y z)) I);
      try lia.
    - intros u Hu.
      destruct (pankaj_init_results c u ltac:(fold ts; lia)) as (C1 & C2 & C3).
      destruct (C3 Hu) as [C4 C5]. unfold P. rewrite C1, C2.
      do 3 (split; [lia|]). split; [intros _; lia|].
      split; [intros q Hq; lia|]. split; [left; exact C4 | left; exact C5].
    - intros a b d s Ha Hb Hd HI.
      pose proof (count3_bounds 0 0 0 sZ (sY - 0) (sX - 0) a b d
                    ltac:(lia) ltac:(lia) ltac:(lia)) as Hn.
      set (n := count3 0 0 0 (sY - 0) (sX - 0) a b d) in *.
      assert (En : n = (a * sY + b) * sX + d) by (unfold n, count3; ring).
      assert (HJ : match for_range 0 ts
                           (PankajC.process_point c localData d b a) s with
                   | Some r' =>
                       forall u, 0 <= u < ts ->
                         (u < ts -> P (n + 1) r' u) /\ (ts <= u -> P n r' u)
                   | None => True
                   end).
      { apply (for_range_ind
                 (fun t' (s' : option PankajC.Results) =>
                    match s' with
                    | Some r' =>
                        forall u, 0 <= u < ts ->
                          (u < t' -> P (n + 1) r' u) /\ (t' <= u -> P n r' u)
                    | None => True
                    end)); [lia | |].
        - destruct s as [r0|]; [|exact Logic.I]. intros u Hu.
          split; [lia|]. intros _. apply HI, Hu.
        - intros j [r0|] Hj HJ; [|exact Logic.I].
          destruct (PankajC.process_point c localData d b a j (Some r0))
            as [r1|] eqn:E; [|exact Logic.I].
          apply process_point_some in E. fold sX sY sZ in E.
          destruct E as (value & dmin & dmax & Hval & D1 & D2 & D3 & D4
                         & Cmin & Cmax & Vmin & Vmax).
          rewrite <- En in Hval.
          intros u Hu. unfold P.
          rewrite (Cmin u), (Cmax u), (Vmin u), (Vmax u).
          destruct (Z.eqb_spec u j) as [->|Hne].
          + split; [intros _ | lia].
            destruct (proj2 (HJ j Hu) ltac:(lia))
              as (P1 & P2 & P3 & P4 & P5 & P6 & P7).
            split; [lia|]. split; [lia|]. split; [lia|].
            split.
            * intros Hthin. destruct (P4 Hthin) as [-> ->].
              destruct D4 as [-> ->]; [lia | lia].
            * split; [|split].
              -- intros q Hq. destruct (Z.eq_dec q n) as [->|Hqn].
                 ++ exists value. split; [exact Hval | lia].
                 ++ destruct (P5 q ltac:(lia)) as (v & Hv & Hb'').
                    exists v. split; [exact Hv | lia].
              -- destruct (Z.min_spec value (PankajC.subDomainMinValues r0 j))
                   as [[_ ->]|[_ ->]]; [|exact P6].
                 right. exists n. split; [nia | exact Hval].
              -- destruct (Z.max_spec value (PankajC.subDomainMaxValues r0 j))
                   as [[_ ->]|[_ ->]]; [exact P7|].
                 right. exists n. split; [nia | exact Hval].
          + split; intros Hlt; apply (HJ u Hu); lia. }
      unfold I.
      destruct (for_range 0 ts (PankajC.process_point c localData d b a) s)
        as [r'|]; [|exact Logic.I].
      intros u Hu. apply (HJ u Hu). lia. }
  rewrite Hr in H. unfold I in H.
  replace ((sZ - 0) * (sY - 0) * (sX - 0)) with (sZ * sY * sX) in H by ring.
  exact (H t Ht).
Qed.

(** The loop over the six neighbours is defined when it reads no
    indeterminate cell. *)
Lemma neighbor_flags_defined (c : PankajC.Config) (localData : obuf)
      (x y z t value : Z) :
  (forall o0 o1 o2, In (o0, o1, o2) PankajC.neighborOffsets ->
     localData (((z + o2) * PankajC.subDomainSizeX c * PankajC.subDomainSizeY c
                 + (y + o1) * PankajC.subDomainSizeX c + (x + o0))
                * PankajC.timeSteps c + t) <> None) ->
  PankajC.neighbor_flags c localData x y z t value <> None.
Proof.
  unfold PankajC.neighbor_flags.
  match goal with
  | |- _ -> fold_left ?f _ _ <> _ => set (F := f)
  end.
  assert (H : forall l flags,
            flags <> None ->
            (forall o0 o1 o2, In (o0, o1, o2) l ->
               localData
                 (((z + o2) * PankajC.subDomainSizeX c
                   * PankajC.subDomainSizeY c
                   + (y + o1) * PankajC.subDomainSizeX c + (x + o0))
                  * PankajC.timeSteps c + t) <> None) ->
            fold_left F l flags <> None).
  { induction l as [|[[o0 o1] o2] l IH]; intros flags Hf Hl;
      cbn [fold_left]; [exact Hf|].
    apply IH.
    - unfold F. destruct flags as [[a b]|]; [|contradiction].
      specialize (Hl o0 o1 o2 (or_introl eq_refl)).
      destruct (localData _); [discriminate | contradiction].
    - intros p0 p1 p2 Hin. apply Hl. right. exact Hin. }
  intros Hl. apply H; [discriminate | exact Hl].
Qed.

(** The scan of pankaj_code.c reads no cell outside
    [0 .. subDomainSize * timeSteps - 1]: it is defined on every buffer
    whose cells in that range are determinate. *)
Lemma process_defined (c : PankajC.Config) (localData : obuf) :
  0 <= PankajC.subDomainSizeX c -> 0 <= PankajC.subDomainSizeY c ->
  0 <= PankajC.subDomainSizeZ c ->
  (forall i, 0 <= i < PankajC.subDomainSize c * PankajC.timeSteps c ->
             localData i <> None) ->
  PankajC.process c localData <> None.
Proof.
  intros Hx Hy Hz Hdet. unfold PankajC.process.
  unfold PankajC.subDomainSize in Hdet.
  set (sX := PankajC.subDomainSizeX c) in *.
  set (sY := PankajC.subDomainSizeY c) in *.
  set (sZ := PankajC.subDomainSizeZ c) in *.
  set (ts := PankajC.timeSteps c) in *.
  apply (for_range_inv (fun s : option PankajC.Results => s <> None));
    [discriminate|].
  intros z s0 Hz0 Hs0.
  apply (for_range_inv (fun s : option PankajC.Results => s <> None));
    [exact Hs0|].
  intros y s1 Hy0 Hs1.
  apply (for_range_inv (fun s : option PankajC.Results => s <> None));
    [exact Hs1|].
  intros x s2 Hx0 Hs2.
  apply (for_range_inv (fun s : option PankajC.Results => s <> None));
    [exact Hs2|].
  intros t [r|] Ht0 Hs3; [|contradiction].
  unfold PankajC.process_point. cbv zeta. fold sX sY sZ ts.
  pose proof (count3_bounds 0 0 0 sZ sY sX z y x ltac:(lia) ltac:(lia)
                ltac:(lia)) as Hm.
  replace (count3 0 0 0 sY sX z y x) with ((z * sY + y) * sX + x) in Hm
    by (unfold count3; ring).
  assert (Hcell : localData ((z * sY + y) * sX + x + t) <> None)
    by (apply Hdet; nia).
  destruct (localData ((z * sY + y) * sX + x + t)) as [value|];
    [|contradiction].
  destruct ((x >? 0) && (x <? sX - 1) && (y >? 0) && (y <? sY - 1)
            && (z >? 0) && (z <? sZ - 1)) eqn:Hg; [|discriminate].
  rewrite !andb_true_iff, !Z.gtb_ltb, !Z.ltb_lt in Hg.
  assert (Hn : PankajC.neighbor_flags c localData x y z t value <> None).
  { apply neighbor_flags_defined. fold sX sY sZ ts.
    intros o0 o1 o2 Hin. apply Hdet.
    assert (Ho : -1 <= o0 <= 1 /\ -1 <= o1 <= 1 /\ -1 <= o2 <= 1).
    { cbn in Hin.
      repeat (destruct Hin as [Hin|Hin]; [inversion Hin; lia|]).
      contradiction. }
    pose proof (count3_bounds 0 0 0 sZ sY sX (z + o2) (y + o1) (x + o0)
                  ltac:(lia) ltac:(lia) ltac:(lia)) as Hq.
    replace (count3 0 0 0 sY sX (z + o2) (y + o1) (x + o0))
      with ((z + o2) * sX * sY + (y + o1) * sX + (x + o0)) in Hq
      by (unfold count3; ring).
    nia. }
  destruct (PankajC.neighbor_flags c localData x y z t value) as [[a b]|];
    [discriminate | contradiction].
Qed.

(** X20.  pankaj_code.c tests only the points with all six neighbours inside
    the worker's own block.  Its scan reads no indeterminate cell on a
    buffer whose cells [0 .. subDomainSize * timeSteps - 1] are
    determinate; and whenever it reads no indeterminate cell, a worker
    whose block is at most two points thick along some axis counts no
    local minimum and no local maximum, at any timestep and whatever the
    values. *)
Theorem thin_block_counts_nothing
        (c : PankajC.Config) (localData : obuf) (t : Z) :
  0 <= PankajC.subDomainSizeX c -> 0 <= PankajC.subDomainSizeY c ->
  0 <= PankajC.subDomainSizeZ c -> 0 <= t < PankajC.timeSteps c ->
  PankajC.subDomainSizeX c <= 2 \/ PankajC.subDomainSizeY c <= 2 \/
  PankajC.subDomainSizeZ c <= 2 ->
  ((forall i, 0 <= i < PankajC.subDomainSize c * PankajC.timeSteps c ->
              localData i <> None) ->
   PankajC.process c localData <> None) /\
  match PankajC.process c localData with
  | Some r =>
      PankajC.localMinimaCount r t = 0 /\ PankajC.localMaximaCount r t = 0
  | None => True
  end.
Proof.
  intros Hx Hy Hz Ht Hthin. split.
  - apply process_defined; assumption.
  - destruct (PankajC.process c localData) as [r|] eqn:Hr; [|exact I].
    destruct (process_spec c localData r t Hx Hy Hz Hr Ht)
      as (_ & _ & _ & H & _).
    exact (H Hthin).
Qed.

Lemma thin_block_counts_nothing_witness :
  let c := PankajC.mkConfig 1 1 1 2 3 3 1 1 in
  let localData : obuf := fun i => Some (i * i) in
  ((forall i, 0 <= i < PankajC.subDomainSize c * PankajC.timeSteps c ->
              localData i <> None) ->
   PankajC.process c localData <> None) /\
  match PankajC.process c localData with
  | Some r =>
      PankajC.localMinimaCount r 0 = 0 /\ PankajC.localMaximaCount r 0 = 0
  | None => True
  end.
Proof.
  intros c localData.
  apply (thin_block_counts_nothing c localData 0); cbn; lia.
Defined.

(** X21.  The scan of pankaj_code.c reads no indeterminate cell on a buffer
    whose cells [0 .. subDomainSize * timeSteps - 1] are determinate; and
    whenever it reads no indeterminate cell, no point is counted both as
    a minimum and as a maximum: at every timestep the two counters are
    not negative and together do not exceed the number of points of the
    block. *)
Theorem pankaj_counts_bounded
        (c : PankajC.Config) (localData : obuf) (t : Z) :
  0 <= PankajC.subDomainSizeX c -> 0 <= PankajC.subDomainSizeY c ->
  0 <= PankajC.subDomainSizeZ c -> 0 <= t < PankajC.timeSteps c ->
  ((forall i, 0 <= i < PankajC.subDomainSize c * PankajC.timeSteps c ->
              localData i <> None) ->
   PankajC.process c localData <> None) /\
  match PankajC.process c localData with
  | Some r =>
      0 <= PankajC.localMinimaCount r t /\
      0 <= PankajC.localMaximaCount r t /\
      PankajC.localMinimaCount r t + PankajC.localMaximaCount r t
      <= PankajC.subDomainSize c
  | None => True
  end.
Proof.
  intros Hx Hy Hz Ht. split.
  - apply process_defined; assumption.
  - destruct (PankajC.process c localData) as [r|] eqn:Hr; [|exact I].
    destruct (process_spec c localData r t Hx Hy Hz Hr Ht)
      as (H1 & H2 & H3 & _).
    auto.
Qed.

Lemma pankaj_counts_bounded_witness :
  let c := PankajC.mkConfig 1 1 1 3 3 3 1 1 in
  let localData : obuf := fun i => Some ((i - 13) * (i - 13)) in
  ((forall i, 0 <= i < PankajC.subDomainSize c * PankajC.timeSteps c ->
              localData i <> None) ->
   PankajC.process c localData <> None) /\
  match PankajC.process c localData with
  | Some r =>
      0 <= PankajC.localMinimaCount r 0 /\
      0 <= PankajC.localMaximaCount r 0 /\
      PankajC.localMinimaCount r 0 + PankajC.localMaximaCount r 0
      <= PankajC.subDomainSize c
  | None => True
  end.
Proof.
  intros c localData.
  apply (pankaj_counts_bounded c localData 0); cbn; lia.
Defined.

(** X22.  The value extremes of pankaj_code.c for timestep [t] are taken over
    the cells [localData[localIdx + t]], [localIdx] running over the
    point numbers of the block: whenever the scan reads no indeterminate
    cell, they bound the [subDomainSize] consecutive cells that start at
    cell [t], and each is the value of one of these cells unless it never
    moved. *)
Theorem extremes_range_over_shifted_cells
        (c : PankajC.Config) (localData : obuf) (t : Z) :
  0 <= PankajC.subDomainSizeX c -> 0 <= PankajC.subDomainSizeY c ->
  0 <= PankajC.subDomainSizeZ c -> 0 <= t < PankajC.timeSteps c ->
  match PankajC.process c localData with
  | Some r =>
      (forall q, 0 <= q < PankajC.subDomainSize c ->
         exists v, localData (q + t) = Some v /\
                   PankajC.subDomainMinValues r t <= v
                   <= PankajC.subDomainMaxValues r t) /\
      (PankajC.subDomainMinValues r t = DBL_MAX \/
       exists q, 0 <= q < PankajC.subDomainSize c /\
                 localData (q + t) = Some (PankajC.subDomainMinValues r t)) /\
      (PankajC.subDomainMaxValues r t = - DBL_MAX \/
       exists q, 0 <= q < PankajC.subDomainSize c /\
                 localData (q + t) = Some (PankajC.subDomainMaxValues r t))
  | None => True
  end.
Proof.
  intros Hx Hy Hz Ht.
  destruct (PankajC.process c localData) as [r|] eqn:Hr; [|exact I].
  destruct (process_spec c localData r t Hx Hy Hz Hr Ht)
    as (_ & _ & _ & _ & H).
  exact H.
Qed.

Lemma extremes_range_over_shifted_cells_witness :
  let c := PankajC.mkConfig 1 1 1 2 1 1 2 1 in
  let localData : obuf := fun i => Some (nth (Z.to_nat i) [1; 5; 0; 7] 0) in
  match PankajC.process c localData with
  | Some r =>
      (forall q, 0 <= q < PankajC.subDomainSize c ->
         exists v, localData (q + 1) = Some v /\
                   PankajC.subDomainMinValues r 1 <= v
                   <= PankajC.subDomainMaxValues r 1) /\
      (PankajC.subDomainMinValues r 1 = DBL_MAX \/
       exists q, 0 <= q < PankajC.subDomainSize c /\
                 localData (q + 1) = Some (PankajC.subDomainMinValues r 1)) /\
      (PankajC.subDomainMaxValues r 1 = - DBL_MAX \/
       exists q, 0 <= q < PankajC.subDomainSize c /\
                 localData (q + 1) = Some (PankajC.subDomainMaxValues r 1))
  | None => True
  end.
Proof.
  intros c localData.
  apply (extremes_range_over_shifted_cells c localData 1); cbn; lia.
Defined.

(** ** pankaj_code2.c: blocks and distribution *)

(** One axis of the block computation of pankaj_code2.c, for the worker
    with coordinate [i] of [p] along an axis of extent [n]. *)
Lemma axis_block_facts (p n i : Z) :
  0 < p <= n -> 0 <= i < p ->
  let s := Z.quot n p in
  let start := i * s in
  let end_ := if i =? p - 1 then n - 1 else start + s - 1 in
  let tstart := if start - 1 >=? 0 then start - 1 else start in
  let tend := if end_ + 1 <=? n - 1 then end_ + 1 else end_ in
  1 <= s /\ start = tail_cut p n i /\ end_ + 1 = tail_cut p n (i + 1) /\
  0 <= tstart <= start /\ start + s - 1 <= end_ /\ end_ <= tend /\
  tend <= n - 1 /\
  (tstart = start - 1 <-> i <> 0) /\ (tstart = start <-> i = 0) /\
  (tend = end_ + 1 <-> i <> p - 1) /\ (tend = end_ <-> i = p - 1).
Proof.
  intros [Hp Hn] Hi. cbv zeta.
  pose proof (Z.rem_bound_pos n p ltac:(lia) Hp) as Hrem.
  pose proof (Z.quot_rem' n p) as Hqr.
  assert (Hs : 1 <= Z.quot n p) by (apply Z.quot_le_lower_bound; lia).
  set (s := Z.quot n p) in *.
  assert (Hstart : 0 <= i * s) by nia.
  assert (Hi0 : i = 0 \/ 1 <= i * s) by nia.
  assert (Hlast : i = p - 1 \/ (i + 1) * s + s <= p * s) by nia.
  unfold tail_cut.
  destruct (Z.eqb_spec i p); [lia|].
  destruct (Z.eqb_spec (i + 1) p), (Z.eqb_spec i (p - 1)); try lia.
  - rewrite Z.geb_leb.
    destruct (Z.leb_spec 0 (i * s - 1)), (Z.leb_spec (n - 1 + 1) (n - 1));
      repeat split; try lia; try nia.
  - rewrite Z.geb_leb.
    destruct (Z.leb_spec 0 (i * s - 1)),
      (Z.leb_spec (i * s + s - 1 + 1) (n - 1));
      repeat split; try lia; try nia.
Qed.

(** The coordinates pankaj_code2.c gives a worker of the grid. *)
Lemma pankaj2_coordinates (pX pY pZ rank : Z) :
  0 < pX -> 0 < pY -> 0 < pZ -> 0 <= rank < pX * pY * pZ ->
  0 <= Z.rem rank pX < pX /\
  0 <= Z.quot (Z.rem rank (pX * pY)) pX < pY /\
  0 <= Z.quot rank (pX * pY) < pZ.
Proof.
  intros HX HY HZ Hr.
  pose proof (Z.rem_bound_pos rank pX ltac:(lia) HX).
  pose proof (Z.rem_bound_pos rank (pX * pY) ltac:(lia) ltac:(nia)) as Hxy.
  split; [lia|]. split; [split|split].
  - apply Z.quot_pos; lia.
  - apply Z.quot_lt_upper_bound; lia.
  - apply Z.quot_pos; nia.
  - apply Z.quot_lt_upper_bound; nia.
Qed.

(** X23.  In pankaj_code2.c the blocks of the workers along each axis of the
    process grid are non-empty, contiguous and disjoint and cover the
    axis, the last worker taking the remainder. *)
Theorem pankaj2_blocks_partition_axes (c : Pankaj2C.Config) :
  0 < Pankaj2C.pX c <= Pankaj2C.nX c ->
  0 < Pankaj2C.pY c <= Pankaj2C.nY c ->
  0 < Pankaj2C.pZ c <= Pankaj2C.nZ c ->
  partitions (Pankaj2C.pX c) (Pankaj2C.nX c)
    (fun i => Pankaj2C.startX (Pankaj2C.geometry c i))
    (fun i => Pankaj2C.endX (Pankaj2C.geometry c i) + 1) /\
  partitions (Pankaj2C.pY c) (Pankaj2C.nY c)
    (fun i => Pankaj2C.startY (Pankaj2C.geometry c (i * Pankaj2C.pX c)))
    (fun i => Pankaj2C.endY (Pankaj2C.geometry c (i * Pankaj2C.pX c)) + 1) /\
  partitions (Pankaj2C.pZ c) (Pankaj2C.nZ c)
    (fun i => Pankaj2C.startZ
                (Pankaj2C.geometry c (i * (Pankaj2C.pX c * Pankaj2C.pY c))))
    (fun i => Pankaj2C.endZ
                (Pankaj2C.geometry c (i * (Pankaj2C.pX c * Pankaj2C.pY c)))
              + 1).
Proof.
  intros HX HY HZ.
  split; [|split].
  - destruct (tail_cut_facts (Pankaj2C.pX c) (Pankaj2C.nX c) HX)
      as (H0 & Hl & Hs & _).
    apply (partitions_of_cuts _ _ (tail_cut (Pankaj2C.pX c) (Pankaj2C.nX c)));
      auto; try lia.
    intros i Hi. unfold Pankaj2C.geometry.
    cbn [Pankaj2C.startX Pankaj2C.endX].
    rewrite Z.rem_small by lia.
    pose proof (axis_block_facts (Pankaj2C.pX c) (Pankaj2C.nX c) i HX Hi)
      as F. cbv zeta in F. tauto.
  - destruct (tail_cut_facts (Pankaj2C.pY c) (Pankaj2C.nY c) HY)
      as (H0 & Hl & Hs & _).
    apply (partitions_of_cuts _ _ (tail_cut (Pankaj2C.pY c) (Pankaj2C.nY c)));
      auto; try lia.
    intros i Hi. unfold Pankaj2C.geometry.
    cbn [Pankaj2C.startY Pankaj2C.endY].
    rewrite (Z.rem_small (i * Pankaj2C.pX c)) by nia.
    rewrite Z.quot_mul by lia.
    pose proof (axis_block_facts (Pankaj2C.pY c) (Pankaj2C.nY c) i HY Hi)
      as F. cbv zeta in F. tauto.
  - destruct (tail_cut_facts (Pankaj2C.pZ c) (Pankaj2C.nZ c) HZ)
      as (H0 & Hl & Hs & _).
    apply (partitions_of_cuts _ _ (tail_cut (Pankaj2C.pZ c) (Pankaj2C.nZ c)));
      auto; try lia.
    intros i Hi. unfold Pankaj2C.geometry.
    cbn [Pankaj2C.startZ Pankaj2C.endZ].
    rewrite Z.quot_mul by nia.
    pose proof (axis_block_facts (Pankaj2C.pZ c) (Pankaj2C.nZ c) i HZ Hi)
      as F. cbv zeta in F. tauto.
Qed.

Lemma pankaj2_blocks_partition_axes_witness :
  let c := Pankaj2C.mkConfig 2 2 1 5 4 3 1 4 in
  partitions (Pankaj2C.pX c) (Pankaj2C.nX c)
    (fun i => Pankaj2C.startX (Pankaj2C.geometry c i))
    (fun i => Pankaj2C.endX (Pankaj2C.geometry c i) + 1) /\
  partitions (Pankaj2C.pY c) (Pankaj2C.nY c)
    (fun i => Pankaj2C.startY (Pankaj2C.geometry c (i * Pankaj2C.pX c)))
    (fun i => Pankaj2C.endY (Pankaj2C.geometry c (i * Pankaj2C.pX c)) + 1) /\
  partitions (Pankaj2C.pZ c) (Pankaj2C.nZ c)
    (fun i => Pankaj2C.startZ
                (Pankaj2C.geometry c (i * (Pankaj2C.pX c * Pankaj2C.pY c))))
    (fun i => Pankaj2C.endZ
                (Pankaj2C.geometry c (i * (Pankaj2C.pX c * Pankaj2C.pY c)))
              + 1).
Proof.
  intros c. apply (pankaj2_blocks_partition_axes c); cbn; lia.
Defined.

(** The geometry of a worker of the grid of pankaj_code2.c, axis by
    axis. *)
Lemma geometry_facts (c : Pankaj2C.Config) (rank : Z) :
  0 < Pankaj2C.pX c <= Pankaj2C.nX c ->
  0 < Pankaj2C.pY c <= Pankaj2C.nY c ->
  0 < Pankaj2C.pZ c <= Pankaj2C.nZ c ->
  0 <= rank < Pankaj2C.pX c * Pankaj2C.pY c * Pankaj2C.pZ c ->
  let g := Pankaj2C.geometry c rank in
  (0 <= Pankaj2C.tempStartX g <= Pankaj2C.startX g /\
   Pankaj2C.startX g + Z.quot (Pankaj2C.nX c) (Pankaj2C.pX c) - 1
   <= Pankaj2C.endX g /\
   Pankaj2C.endX g <= Pankaj2C.tempEndX g <= Pankaj2C.nX c - 1 /\
   (Pankaj2C.tempStartX g = Pankaj2C.startX g - 1 <->
    Z.rem rank (Pankaj2C.pX c) <> 0) /\
   (Pankaj2C.tempStartX g = Pankaj2C.startX g <->
    Z.rem rank (Pankaj2C.pX c) = 0) /\
   (Pankaj2C.tempEndX g = Pankaj2C.endX g + 1 <->
    Z.rem rank (Pankaj2C.pX c) <> Pankaj2C.pX c - 1) /\
   (Pankaj2C.tempEndX g = Pankaj2C.endX g <->
    Z.rem rank (Pankaj2C.pX c) = Pankaj2C.pX c - 1)) /\
  (0 <= Pankaj2C.tempStartY g <= Pankaj2C.startY g /\
   Pankaj2C.startY g + Z.quot (Pankaj2C.nY c) (Pankaj2C.pY c) - 1
   <= Pankaj2C.endY g /\
   Pankaj2C.endY g <= Pankaj2C.tempEndY g <= Pankaj2C.nY c - 1) /\
  (0 <= Pankaj2C.tempStartZ g <= Pankaj2C.startZ g /\
   Pankaj2C.startZ g + Z.quot (Pankaj2C.nZ c) (Pankaj2C.pZ c) - 1
   <= Pankaj2C.endZ g /\
   Pankaj2C.endZ g <= Pankaj2C.tempEndZ g <= Pankaj2C.nZ c - 1) /\
  1 <= Z.quot (Pankaj2C.nX c) (Pankaj2C.pX c) /\
  1 <= Z.quot (Pankaj2C.nY c) (Pankaj2C.pY c) /\
  1 <= Z.quot (Pankaj2C.nZ c) (Pankaj2C.pZ c).
Proof.
  intros HX HY HZ Hr g. subst g.
  destruct (pankaj2_coordinates (Pankaj2C.pX c) (Pankaj2C.pY c)
              (Pankaj2C.pZ c) rank ltac:(lia) ltac:(lia) ltac:(lia) Hr)
    as (Cx & Cy & Cz).
  pose proof (axis_block_facts _ _ _ HX Cx) as Fx.
  pose proof (axis_block_facts _ _ _ HY Cy) as Fy.
  pose proof (axis_block_facts _ _ _ HZ Cz) as Fz.
  cbv zeta in Fx, Fy, Fz.
  unfold Pankaj2C.geometry.
  cbn [Pankaj2C.startX Pankaj2C.startY Pankaj2C.startZ
       Pankaj2C.endX Pankaj2C.endY Pankaj2C.endZ
       Pankaj2C.tempStartX Pankaj2C.tempStartY Pankaj2C.tempStartZ
       Pankaj2C.tempEndX Pankaj2C.tempEndY Pankaj2C.tempEndZ].
  split; [|split; [|split]]; [tauto | tauto | tauto | tauto].
Qed.

(** X24.  For every worker of the grid of pankaj_code2.c the block extended by
    the layer around it stays inside the domain, contains the owned
    block, and along x it reaches one point beyond the owned block
    exactly on the sides where the worker is not the first or the last of
    its row. *)
Theorem pankaj2_extended_block (c : Pankaj2C.Config) (rank : Z) :
  0 < Pankaj2C.pX c <= Pankaj2C.nX c ->
  0 < Pankaj2C.pY c <= Pankaj2C.nY c ->
  0 < Pankaj2C.pZ c <= Pankaj2C.nZ c ->
  0 <= rank < Pankaj2C.pX c * Pankaj2C.pY c * Pankaj2C.pZ c ->
  let g := Pankaj2C.geometry c rank in
  (0 <= Pankaj2C.tempStartX g <= Pankaj2C.startX g /\
   Pankaj2C.startX g <= Pankaj2C.endX g /\
   Pankaj2C.endX g <= Pankaj2C.tempEndX g <= Pankaj2C.nX c - 1) /\
  (0 <= Pankaj2C.tempStartY g <= Pankaj2C.startY g /\
   Pankaj2C.startY g <= Pankaj2C.endY g /\
   Pankaj2C.endY g <= Pankaj2C.tempEndY g <= Pankaj2C.nY c - 1) /\
  (0 <= Pankaj2C.tempStartZ g <= Pankaj2C.startZ g /\
   Pankaj2C.startZ g <= Pankaj2C.endZ g /\
   Pankaj2C.endZ g <= Pankaj2C.tempEndZ g <= Pankaj2C.nZ c - 1) /\
  (Pankaj2C.tempStartX g = Pankaj2C.startX g - 1 <->
   Z.rem rank (Pankaj2C.pX c) <> 0) /\
  (Pankaj2C.tempStartX g = Pankaj2C.startX g <->
   Z.rem rank (Pankaj2C.pX c) = 0) /\
  (Pankaj2C.tempEndX g = Pankaj2C.endX g + 1 <->
   Z.rem rank (Pankaj2C.pX c) <> Pankaj2C.pX c - 1) /\
  (Pankaj2C.tempEndX g = Pankaj2C.endX g <->
   Z.rem rank (Pankaj2C.pX c) = Pankaj2C.pX c - 1).
Proof.
  intros HX HY HZ Hr g.
  pose proof (geometry_facts c rank HX HY HZ Hr) as F. cbv zeta in F.
  fold g in F.
  destruct F as ((X1 & X2 & X3 & X4 & X5 & X6 & X7) & (Y1 & Y2 & Y3)
                 & (Z1 & Z2 & Z3) & Sx & Sy & Sz).
  repeat split; try tauto; lia.
Qed.

Lemma pankaj2_extended_block_witness :
  let c := Pankaj2C.mkConfig 2 2 1 5 4 3 1 4 in
  let g := Pankaj2C.geometry c 3 in
  (0 <= Pankaj2C.tempStartX g <= Pankaj2C.startX g /\
   Pankaj2C.startX g <= Pankaj2C.endX g /\
   Pankaj2C.endX g <= Pankaj2C.tempEndX g <= Pankaj2C.nX c - 1) /\
  (0 <= Pankaj2C.tempStartY g <= Pankaj2C.startY g /\
   Pankaj2C.startY g <= Pankaj2C.endY g /\
   Pankaj2C.endY g <= Pankaj2C.tempEndY g <= Pankaj2C.nY c - 1) /\
  (0 <= Pankaj2C.tempStartZ g <= Pankaj2C.startZ g /\
   Pankaj2C.startZ g <= Pankaj2C.endZ g /\
   Pankaj2C.endZ g <= Pankaj2C.tempEndZ g <= Pankaj2C.nZ c - 1) /\
  (Pankaj2C.tempStartX g = Pankaj2C.startX g - 1 <->
   Z.rem 3 (Pankaj2C.pX c) <> 0) /\
  (Pankaj2C.tempStartX g = Pankaj2C.startX g <->
   Z.rem 3 (Pankaj2C.pX c) = 0) /\
  (Pankaj2C.tempEndX g = Pankaj2C.endX g + 1 <->
   Z.rem 3 (Pankaj2C.pX c) <> Pankaj2C.pX c - 1) /\
  (Pankaj2C.tempEndX g = Pankaj2C.endX g <->
   Z.rem 3 (Pankaj2C.pX c) = Pankaj2C.pX c - 1).
Proof.
  intros c. apply (pankaj2_extended_block c 3); cbn; lia.
Defined.

(** X25.  In pankaj_code2.c the coordinating worker's [localData] holds the
    points of its extended block in the order of the copy loops, each
    point with its [timeSteps] values in a row: the values of the point
    [(x, y, z)] start at the cell
    [threeD_To_oneD(x - tempStartX, y - tempStartY, z - tempStartZ, width,
    height, depth) * timeSteps]. *)
Theorem pankaj2_root_block_layout
        (c : Pankaj2C.Config) (globalData : buf) (x y z t : Z) :
  0 < Pankaj2C.pX c <= Pankaj2C.nX c ->
  0 < Pankaj2C.pY c <= Pankaj2C.nY c ->
  0 < Pankaj2C.pZ c <= Pankaj2C.nZ c ->
  let g := Pankaj2C.geometry c 0 in
  let width := Pankaj2C.tempEndX g + 1 - Pankaj2C.tempStartX g in
  let height := Pankaj2C.tempEndY g + 1 - Pankaj2C.tempStartY g in
  let depth := Pankaj2C.tempEndZ g + 1 - Pankaj2C.tempStartZ g in
  Pankaj2C.tempStartX g <= x <= Pankaj2C.tempEndX g ->
  Pankaj2C.tempStartY g <= y <= Pankaj2C.tempEndY g ->
  Pankaj2C.tempStartZ g <= z <= Pankaj2C.tempEndZ g ->
  0 <= t < Pankaj2C.timeSteps c ->
  Pankaj2C.root_copy c globalData
    (Pankaj2C.threeD_To_oneD (x - Pankaj2C.tempStartX g)
       (y - Pankaj2C.tempStartY g) (z - Pankaj2C.tempStartZ g)
       width height depth * Pankaj2C.timeSteps c + t)
  = globalData
      (Pankaj2C.threeD_To_oneD x y z (Pankaj2C.nX c) (Pankaj2C.nY c)
         (Pankaj2C.nZ c) * Pankaj2C.timeSteps c + t).
Proof.
  intros HX HY HZ g width height depth Hx Hy Hz Ht.
  pose proof (geometry_facts c 0 HX HY HZ ltac:(nia)) as F. cbv zeta in F.
  fold g in F.
  destruct F as ((X1 & X2 & X3 & _) & (Y1 & Y2 & Y3) & (Z1 & Z2 & Z3) & _).
  unfold Pankaj2C.root_copy. cbv zeta. fold g.
  destruct (counter_copy_spec upd (fun (b : buf) i => b i) (fun v => v)
              ltac:(intros; apply upd_same)
              ltac:(intros; apply upd_other; assumption)
              (Pankaj2C.tempStartZ g) (Pankaj2C.tempEndZ g + 1)
              (Pankaj2C.tempStartY g) (Pankaj2C.tempEndY g + 1)
              (Pankaj2C.tempStartX g) (Pankaj2C.tempEndX g + 1)
              (Pankaj2C.timeSteps c)
              (fun z y x t =>
                 globalData
                   (Pankaj2C.threeD_To_oneD x y z (Pankaj2C.nX c)
                      (Pankaj2C.nY c) (Pankaj2C.nZ c) * Pankaj2C.timeSteps c
                    + t))
              fresh ltac:(lia) ltac:(lia) ltac:(lia) ltac:(lia))
    as (_ & Hin & _).
  specialize (Hin z y x t ltac:(lia) ltac:(lia) ltac:(lia) Ht).
  replace (count3 (Pankaj2C.tempStartZ g) (Pankaj2C.tempStartY g)
             (Pankaj2C.tempStartX g)
             (Pankaj2C.tempEndY g + 1 - Pankaj2C.tempStartY g)
             (Pankaj2C.tempEndX g + 1 - Pankaj2C.tempStartX g) z y x)
    with (Pankaj2C.threeD_To_oneD (x - Pankaj2C.tempStartX g)
            (y - Pankaj2C.tempStartY g) (z - Pankaj2C.tempStartZ g)
            width height depth) in Hin
    by (unfold count3, Pankaj2C.threeD_To_oneD, width, height; ring).
  exact Hin.
Qed.

Lemma pankaj2_root_block_layout_witness :
  let c := Pankaj2C.mkConfig 2 1 1 4 1 1 2 2 in
  let globalData := of_list [1; 2; 3; 4; 5; 6; 7; 8] in
  let g := Pankaj2C.geometry c 0 in
  let width := Pankaj2C.tempEndX g + 1 - Pankaj2C.tempStartX g in
  let height := Pankaj2C.tempEndY g + 1 - Pankaj2C.tempStartY g in
  let depth := Pankaj2C.tempEndZ g + 1 - Pankaj2C.tempStartZ g in
  Pankaj2C.root_copy c globalData
    (Pankaj2C.threeD_To_oneD (2 - Pankaj2C.tempStartX g)
       (0 - Pankaj2C.tempStartY g) (0 - Pankaj2C.tempStartZ g)
       width height depth * Pankaj2C.timeSteps c + 1)
  = globalData
      (Pankaj2C.threeD_To_oneD 2 0 0 (Pankaj2C.nX c) (Pankaj2C.nY c)
         (Pankaj2C.nZ c) * Pankaj2C.timeSteps c + 1).
Proof.
  intros c globalData.
  apply (pankaj2_root_block_layout c globalData 2 0 0 1); cbn; lia.
Defined.

(** X26.  In pankaj_code2.c the coordinating worker fills the buffer for worker
    [p] with the [subDomainSize] points of the block that starts at
    [(pStartX, pStartY, pStartZ)], numbered x fastest over the block
    without its extension, and sends [sendDataSize] cells, the size of
    the extended block: the receiver takes the whole message, its cells
    [0 .. subDomainSize * timeSteps - 1] hold these points, each with its
    [timeSteps] values in a row, and every later cell holds indeterminate
    content. *)
Theorem pankaj2_receiver_block
        (c : Pankaj2C.Config) (globalData : buf) (p : Z) :
  0 < Pankaj2C.pX c <= Pankaj2C.nX c ->
  0 < Pankaj2C.pY c <= Pankaj2C.nY c ->
  0 < Pankaj2C.pZ c <= Pankaj2C.nZ c ->
  0 <= p < Pankaj2C.pX c * Pankaj2C.pY c * Pankaj2C.pZ c ->
  0 <= Pankaj2C.timeSteps c ->
  let g := Pankaj2C.geometry c p in
  let sX := Z.quot (Pankaj2C.nX c) (Pankaj2C.pX c) in
  let sY := Z.quot (Pankaj2C.nY c) (Pankaj2C.pY c) in
  let sZ := Z.quot (Pankaj2C.nZ c) (Pankaj2C.pZ c) in
  exists localData,
    Pankaj2C.received c globalData p = Some localData /\
    (forall x y z t,
       0 <= x < sX -> 0 <= y < sY -> 0 <= z < sZ ->
       0 <= t < Pankaj2C.timeSteps c ->
       localData (((z * sY + y) * sX + x) * Pankaj2C.timeSteps c + t)
       = Some (globalData
                 (Pankaj2C.threeD_To_oneD (Pankaj2C.startX g + x)
                    (Pankaj2C.startY g + y) (Pankaj2C.startZ g + z)
                    (Pankaj2C.nX c) (Pankaj2C.nY c) (Pankaj2C.nZ c)
                  * Pankaj2C.timeSteps c + t))) /\
    (forall i, i < 0 \/ sX * sY * sZ * Pankaj2C.timeSteps c <= i ->
               localData i = None).
Proof.
  intros HX HY HZ Hp Hnt g sX sY sZ.
  pose proof (geometry_facts c p HX HY HZ Hp) as F. cbv zeta in F.
  fold g sX sY sZ in F.
  destruct F as ((X1 & X2 & X3 & _) & (Y1 & Y2 & Y3) & (Z1 & Z2 & Z3)
                 & Sx & Sy & Sz).
  unfold Pankaj2C.received, Pankaj2C.message_to. cbv zeta.
  fold g sX sY sZ.
  set (W := Pankaj2C.tempEndX g - Pankaj2C.tempStartX g + 1).
  set (H := Pankaj2C.tempEndY g - Pankaj2C.tempStartY g + 1).
  set (D := Pankaj2C.tempEndZ g - Pankaj2C.tempStartZ g + 1).
  replace (Pankaj2C.tempEndX g + 1 - Pankaj2C.tempStartX g) with W
    by (unfold W; ring).
  replace (Pankaj2C.tempEndY g + 1 - Pankaj2C.tempStartY g) with H
    by (unfold H; ring).
  replace (Pankaj2C.tempEndZ g + 1 - Pankaj2C.tempStartZ g) with D
    by (unfold D; ring).
  assert (HW : sX <= W) by (unfold W; lia).
  assert (HH : sY <= H) by (unfold H; lia).
  assert (HD : sZ <= D) by (unfold D; lia).
  assert (Hxy : sX * sY <= W * H) by nia.
  assert (Hvol : sX * sY * sZ <= W * H * D) by nia.
  assert (Hsend : sX * sY * sZ * Pankaj2C.timeSteps c
                  <= W * H * D * Pankaj2C.timeSteps c) by nia.
  assert (Hbase : 0 <= sX * sY * sZ) by nia.
  rewrite oto_list_length.
  replace (Z.of_nat (Z.to_nat (W * H * D * Pankaj2C.timeSteps c))
           <=? W * H * D * Pankaj2C.timeSteps c)
    with true by (symmetry; apply Z.leb_le; nia).
  eexists. split; [reflexivity|].
  match goal with
  | |- context [oto_list (fst ?s) _] => set (state := s)
  end.
  destruct (counter_copy_spec oupd (fun (b : obuf) i => b i) Some
              ltac:(intros; unfold oupd; now rewrite Z.eqb_refl)
              ltac:(intros b i v j Hne; unfold oupd;
                    destruct (Z.eqb_spec j i); [contradiction | reflexivity])
              (Pankaj2C.startZ g) (Pankaj2C.startZ g + sZ)
              (Pankaj2C.startY g) (Pankaj2C.startY g + sY)
              (Pankaj2C.startX g) (Pankaj2C.startX g + sX)
              (Pankaj2C.timeSteps c)
              (fun z y x t =>
                 globalData
                   (Pankaj2C.threeD_To_oneD x y z (Pankaj2C.nX c)
                      (Pankaj2C.nY c) (Pankaj2C.nZ c) * Pankaj2C.timeSteps c
                    + t))
              uninit ltac:(lia) ltac:(lia) ltac:(lia) Hnt)
    as (Hidx & Hin & Hout).
  fold state in Hidx, Hin, Hout.
  replace ((Pankaj2C.startZ g + sZ - Pankaj2C.startZ g)
           * (Pankaj2C.startY g + sY - Pankaj2C.startY g)
           * (Pankaj2C.startX g + sX - Pankaj2C.startX g)
           * Pankaj2C.timeSteps c)
    with (sX * sY * sZ * Pankaj2C.timeSteps c) in Hidx by ring.
  assert (Hcell : forall i,
            ostore (oto_list (fst state) (W * H * D * Pankaj2C.timeSteps c))
              uninit i
            = if (0 <=? i) && (i <? W * H * D * Pankaj2C.timeSteps c)
              then fst state i else None).
  { intros i. unfold ostore. rewrite oto_list_length.
    replace (Z.of_nat (Z.to_nat (W * H * D * Pankaj2C.timeSteps c)))
      with (W * H * D * Pankaj2C.timeSteps c) by nia.
    destruct (Z.leb_spec 0 i),
      (Z.ltb_spec i (W * H * D * Pankaj2C.timeSteps c));
      cbn [andb]; try reflexivity.
    apply oto_list_nth. lia. }
  split.
  - intros x y z t Hx0 Hy0 Hz0 Ht0. rewrite Hcell.
    pose proof (count3_bounds 0 0 0 sZ sY sX z y x ltac:(lia) ltac:(lia)
                  ltac:(lia)) as Hm.
    replace (count3 0 0 0 sY sX z y x) with ((z * sY + y) * sX + x) in Hm
      by (unfold count3; ring).
    set (m := (z * sY + y) * sX + x) in *.
    replace (0 <=? m * Pankaj2C.timeSteps c + t) with true
      by (symmetry; apply Z.leb_le; nia).
    replace (m * Pankaj2C.timeSteps c + t
             <? W * H * D * Pankaj2C.timeSteps c) with true
      by (symmetry; apply Z.ltb_lt; nia).
    cbn [andb].
    specialize (Hin (Pankaj2C.startZ g + z) (Pankaj2C.startY g + y)
                    (Pankaj2C.startX g + x) t ltac:(lia) ltac:(lia)
                    ltac:(lia) Ht0).
    replace (count3 (Pankaj2C.startZ g) (Pankaj2C.startY g)
               (Pankaj2C.startX g)
               (Pankaj2C.startY g + sY - Pankaj2C.startY g)
               (Pankaj2C.startX g + sX - Pankaj2C.startX g)
               (Pankaj2C.startZ g + z) (Pankaj2C.startY g + y)
               (Pankaj2C.startX g + x))
      with m in Hin by (unfold count3, m; ring).
    exact Hin.
  - intros i Hi. rewrite Hcell.
    destruct (Z.leb_spec 0 i),
      (Z.ltb_spec i (W * H * D * Pankaj2C.timeSteps c));
      cbn [andb]; try reflexivity.
    apply Hout. rewrite Hidx. lia.
Qed.

Lemma pankaj2_receiver_block_witness :
  let c := Pankaj2C.mkConfig 2 1 1 4 1 1 2 2 in
  let globalData := of_list [1; 2; 3; 4; 5; 6; 7; 8] in
  let g := Pankaj2C.geometry c 1 in
  let sX := Z.quot (Pankaj2C.nX c) (Pankaj2C.pX c) in
  let sY := Z.quot (Pankaj2C.nY c) (Pankaj2C.pY c) in
  let sZ := Z.quot (Pankaj2C.nZ c) (Pankaj2C.pZ c) in
  exists localData,
    Pankaj2C.received c globalData 1 = Some localData /\
    (forall x y z t,
       0 <= x < sX -> 0 <= y < sY -> 0 <= z < sZ ->
       0 <= t < Pankaj2C.timeSteps c ->
       localData (((z * sY + y) * sX + x) * Pankaj2C.timeSteps c + t)
       = Some (globalData
                 (Pankaj2C.threeD_To_oneD (Pankaj2C.startX g + x)
                    (Pankaj2C.startY g + y) (Pankaj2C.startZ g + z)
                    (Pankaj2C.nX c) (Pankaj2C.nY c) (Pankaj2C.nZ c)
                  * Pankaj2C.timeSteps c + t))) /\
    (forall i, i < 0 \/ sX * sY * sZ * Pankaj2C.timeSteps c <= i ->
               localData i = None).
Proof.
  intros c globalData.
  apply (pankaj2_receiver_block c globalData 1); cbn; lia.
Defined.
